(** * Selective-Repeat transport core of [sr.c]: model and properties

    [src/sr.c] holds two versions of the protocol one after the other: a
    Go-Back-N derived one and, from its second [#include] block on, the
    Selective-Repeat one.  This file is a shallow embedding of the
    second: the checksum, the sender A and the receiver B, together with
    the properties of the specification that can be settled on it.

    Conventions of the embedding:
    - a C [int] is a [Z]; every [+] and [-] of the source is followed by
      the 32-bit two's-complement wrap-around ([CInt.wrap]); [%] is C's
      truncating remainder, [Z.rem];
    - a [char] is a [Byte.byte], converted to [int] as a signed char;
    - a C array is a list read with [!!] and written with [<[_:=_]>]; a
      read or write outside the array bounds is undefined behaviour in
      C and is the outcome [Undefined] here;
    - calls into the emulator ([tolayer3], [tolayer5], [starttimer],
      [stoptimer]) are recorded, in order, as a list of [event]s;
      [printf] trace output is not modelled;
    - [exit(1)] is the outcome [Exit 1];
    - the statistics counters that the emulator declares and the
      protocol increments ([window_full], [packets_resent],
      [packets_received]) are fields of the state records. *)

From Stdlib Require Import ZArith Lia Bool List Strings.Byte.
From stdpp Require Import base numbers list.
Import ListNotations.
Local Open Scope Z_scope.

(** ** C integers *)

Module CInt.

Definition INT_MIN : Z := -2147483648.
Definition INT_MAX : Z := 2147483647.

Definition in_range (x : Z) : Prop := INT_MIN <= x <= INT_MAX.

(** Two's-complement reduction of a mathematical integer to 32 bits. *)
Definition wrap (x : Z) : Z := (x + 2147483648) mod 4294967296 - 2147483648.

Definition add (a b : Z) : Z := wrap (a + b).
Definition sub (a b : Z) : Z := wrap (a - b).

(** [(int) c] for a (signed) [char c]. *)
Definition of_char (c : byte) : Z :=
  let n := Z.of_N (Byte.to_N c) in
  if 128 <=? n then n - 256 else n.

End CInt.

(** ** Constants of the module *)

Definition RTT : Z := 16.          (* 16.0 in the source, a [double] *)
Definition WINDOWSIZE : Z := 6.
Definition SEQSPACE : Z := 7.
Definition NOTINUSE : Z := -1.
Definition MAX_RETRIES : Z := 10.
Definition PAYLOAD_LEN : nat := 20.

(** ** Packets and messages (struct pkt, struct msg of the emulator) *)

Record pkt : Type := mkpkt {
  seqnum : Z;
  acknum : Z;
  checksum : Z;
  payload : list byte
}.

Record msg : Type := mkmsg { data : list byte }.

Definition set_seqnum (p : pkt) (v : Z) : pkt :=
  mkpkt v (acknum p) (checksum p) (payload p).
Definition set_acknum (p : pkt) (v : Z) : pkt :=
  mkpkt (seqnum p) v (checksum p) (payload p).
Definition set_checksum (p : pkt) (v : Z) : pkt :=
  mkpkt (seqnum p) (acknum p) v (payload p).
Definition set_payload_byte (p : pkt) (i : nat) (c : byte) : pkt :=
  mkpkt (seqnum p) (acknum p) (checksum p) (<[i:=c]> (payload p)).

(** A [char[20]]: the all-zero byte stands for a cell the list does not have. *)
Definition char_at (l : list byte) (i : nat) : byte := nth i l x00.

(** The first 20 cells of a byte array, as the copy loops of the source
    read them. *)
Definition copy20 (l : list byte) : list byte :=
  map (char_at l) (seq 0 PAYLOAD_LEN).

(** ** Frame integrity checker *)

(** The loop [for (i = 0; i < 20; i++) checksum += (int)(packet.payload[i]);]
    run from index [i] for [n] iterations. *)
Fixpoint checksum_loop (pl : list byte) (i n : nat) (acc : Z) : Z :=
  match n with
  | O => acc
  | S n' => checksum_loop pl (S i) n' (CInt.add acc (CInt.of_char (char_at pl i)))
  end.

Definition ComputeChecksum (packet : pkt) : Z :=
  let checksum := seqnum packet in
  let checksum := CInt.add checksum (acknum packet) in
  checksum_loop (payload packet) 0 PAYLOAD_LEN checksum.

Definition IsCorrupted (packet : pkt) : bool :=
  if checksum packet =? ComputeChecksum packet then false else true.

(** ** Effects: emulator calls, array accesses, outcomes *)

Inductive entity : Type := A | B.

(** The calls the protocol makes into the emulator. *)
Inductive event : Type :=
| tolayer3 (AorB : entity) (packet : pkt)
| tolayer5 (AorB : entity) (datasent : list byte)
| starttimer (AorB : entity) (increment : Z)
| stoptimer (AorB : entity).

(** What one call of an entry point does: it returns with a new state
    and the emulator calls it made, or it terminates the process
    ([exit]), or it leaves the defined behaviour of C (an array index
    out of bounds), or the model's loop budget did not suffice
    ([OutOfFuel], shown below never to happen). *)
Inductive outcome (S : Type) : Type :=
| Continue (s : S) (out : list event)
| Exit (status : Z)
| Undefined
| OutOfFuel.
Arguments Continue {S} s out.
Arguments Exit {S} status.
Arguments Undefined {S}.
Arguments OutOfFuel {S}.

(** [a[i]] as an rvalue. *)
Definition load {T : Type} (a : list T) (i : Z) : option T :=
  if i <? 0 then None else a !! Z.to_nat i.

(** [a[i] = v]. *)
Definition store {T : Type} (a : list T) (i : Z) (v : T) : option (list T) :=
  if (0 <=? i) && (i <? Z.of_nat (length a)) then Some (<[Z.to_nat i := v]> a)
  else None.

(** The expression [(x - y + SEQSPACE) % SEQSPACE] that the source writes
    out at each of its window tests. *)
Definition mod_distance (x y : Z) : Z :=
  Z.rem (CInt.add (CInt.sub x y) SEQSPACE) SEQSPACE.

(** ** Sender (A) *)

Record sender : Type := mksender {
  base : Z;
  next_seqnum : Z;
  sender_buffer : list pkt;
  acked : list bool;
  resend_count : list Z;
  (* statistics counters owned by the emulator *)
  window_full : Z;
  packets_resent : Z
}.

Definition set_base (s : sender) (v : Z) : sender :=
  mksender v (next_seqnum s) (sender_buffer s) (acked s) (resend_count s)
           (window_full s) (packets_resent s).
Definition set_next_seqnum (s : sender) (v : Z) : sender :=
  mksender (base s) v (sender_buffer s) (acked s) (resend_count s)
           (window_full s) (packets_resent s).
Definition set_sender_buffer (s : sender) (v : list pkt) : sender :=
  mksender (base s) (next_seqnum s) v (acked s) (resend_count s)
           (window_full s) (packets_resent s).
Definition set_acked (s : sender) (v : list bool) : sender :=
  mksender (base s) (next_seqnum s) (sender_buffer s) v (resend_count s)
           (window_full s) (packets_resent s).
Definition set_resend_count (s : sender) (v : list Z) : sender :=
  mksender (base s) (next_seqnum s) (sender_buffer s) (acked s) v
           (window_full s) (packets_resent s).
Definition set_window_full (s : sender) (v : Z) : sender :=
  mksender (base s) (next_seqnum s) (sender_buffer s) (acked s) (resend_count s)
           v (packets_resent s).
Definition set_packets_resent (s : sender) (v : Z) : sender :=
  mksender (base s) (next_seqnum s) (sender_buffer s) (acked s) (resend_count s)
           (window_full s) v.

Definition zero_pkt : pkt := mkpkt 0 0 0 (repeat x00 PAYLOAD_LEN).

(** Static storage before [A_init]: zero-initialised. *)
Definition sender_zero : sender :=
  mksender 0 0 (repeat zero_pkt 6) (repeat false 6) (repeat 0 7) 0 0.

Definition A_init (s : sender) : sender :=
  set_acked (set_next_seqnum (set_base s 0) 0) (repeat false 6).

(** The "create packet" block of [A_output]. *)
Definition A_make_pkt (seq : Z) (message : msg) : pkt :=
  let sendpkt := mkpkt seq NOTINUSE 0 (copy20 (data message)) in
  set_checksum sendpkt (ComputeChecksum sendpkt).

Definition A_output (s : sender) (message : msg) : outcome sender :=
  if mod_distance (next_seqnum s) (base s) <? WINDOWSIZE then
    (* create packet *)
    let sendpkt := A_make_pkt (next_seqnum s) message in
    (* put packet in window buffer *)
    let buffer_index := Z.rem (next_seqnum s) WINDOWSIZE in
    match store (sender_buffer s) buffer_index sendpkt,
          store (acked s) buffer_index false with
    | Some buf, Some ack =>
        Continue
          (set_next_seqnum (set_acked (set_sender_buffer s buf) ack)
             (Z.rem (CInt.add (next_seqnum s) 1) SEQSPACE))
          (tolayer3 A sendpkt ::
           (if base s =? next_seqnum s then [starttimer A RTT] else []))
    | _, _ => Undefined
    end
  else
    Continue (set_window_full s (CInt.add (window_full s) 1)) [].

(** The loop [while (acked[base % WINDOWSIZE]) { ... }] of [A_input];
    [fuel] bounds the number of times its condition is evaluated. *)
Fixpoint A_slide (fuel : nat) (s : sender) (out : list event) : outcome sender :=
  match fuel with
  | O => OutOfFuel
  | S fuel' =>
      match load (acked s) (Z.rem (base s) WINDOWSIZE) with
      | None => Undefined
      | Some false => Continue s out
      | Some true =>
          match store (acked s) (Z.rem (base s) WINDOWSIZE) false with
          | None => Undefined
          | Some ack =>
              let s := set_base (set_acked s ack)
                                (Z.rem (CInt.add (base s) 1) SEQSPACE) in
              if mod_distance (base s) (next_seqnum s) <? WINDOWSIZE then
                A_slide fuel' s (out ++ [stoptimer A; starttimer A RTT])
              else
                A_slide fuel' s (out ++ [stoptimer A])
          end
      end
  end.

(** Every iteration of the loop clears one set flag, so one more
    evaluation of the condition than there are flags is enough. *)
Definition A_slide_fuel (s : sender) : nat := S (length (acked s)).

Definition A_input (s : sender) (packet : pkt) : outcome sender :=
  if negb (IsCorrupted packet) then
    let acked_seqnum := acknum packet in
    if mod_distance acked_seqnum (base s) <? WINDOWSIZE then
      let buffer_index := Z.rem acked_seqnum WINDOWSIZE in
      match load (acked s) buffer_index with
      | None => Undefined
      | Some false =>
          match store (acked s) buffer_index true,
                store (resend_count s) acked_seqnum 0 with
          | Some ack, Some rc =>
              A_slide (A_slide_fuel s) (set_resend_count (set_acked s ack) rc) []
          | _, _ => Undefined
          end
      | Some true => A_slide (A_slide_fuel s) s []
      end
    else Continue s []
  else Continue s [].

Definition A_timerinterrupt (s : sender) : outcome sender :=
  let buffer_index := Z.rem (base s) WINDOWSIZE in
  match load (resend_count s) (base s) with
  | None => Undefined
  | Some count =>
      if MAX_RETRIES <=? count then Exit 1
      else
        match load (sender_buffer s) buffer_index,
              store (resend_count s) (base s) (CInt.add count 1) with
        | Some p, Some rc =>
            Continue
              (set_resend_count
                 (set_packets_resent s (CInt.add (packets_resent s) 1)) rc)
              [tolayer3 A p; starttimer A RTT]
        | _, _ => Undefined
        end
  end.

(** ** Receiver (B) *)

Record receiver : Type := mkreceiver {
  expected_seqnum : Z;
  receiver_buffer : list pkt;
  received : list bool;
  B_nextseqnum : Z;
  (* statistics counter owned by the emulator *)
  packets_received : Z
}.

Definition set_expected_seqnum (r : receiver) (v : Z) : receiver :=
  mkreceiver v (receiver_buffer r) (received r) (B_nextseqnum r) (packets_received r).
Definition set_receiver_buffer (r : receiver) (v : list pkt) : receiver :=
  mkreceiver (expected_seqnum r) v (received r) (B_nextseqnum r) (packets_received r).
Definition set_received (r : receiver) (v : list bool) : receiver :=
  mkreceiver (expected_seqnum r) (receiver_buffer r) v (B_nextseqnum r) (packets_received r).
Definition set_B_nextseqnum (r : receiver) (v : Z) : receiver :=
  mkreceiver (expected_seqnum r) (receiver_buffer r) (received r) v (packets_received r).
Definition set_packets_received (r : receiver) (v : Z) : receiver :=
  mkreceiver (expected_seqnum r) (receiver_buffer r) (received r) (B_nextseqnum r) v.

(** Static storage before [B_init]; [B_nextseqnum] has the initialiser 1. *)
Definition receiver_zero : receiver :=
  mkreceiver 0 (repeat zero_pkt 6) (repeat false 6) 1 0.

Definition B_init (r : receiver) : receiver :=
  set_received (set_expected_seqnum r 0) (repeat false 6).

(** The loop [while (received[expected_seqnum % WINDOWSIZE]) { ... }]. *)
Fixpoint B_deliver (fuel : nat) (r : receiver) (out : list event) : outcome receiver :=
  match fuel with
  | O => OutOfFuel
  | S fuel' =>
      let idx := Z.rem (expected_seqnum r) WINDOWSIZE in
      match load (received r) idx with
      | None => Undefined
      | Some false => Continue r out
      | Some true =>
          match load (receiver_buffer r) idx, store (received r) idx false with
          | Some p, Some rcv =>
              B_deliver fuel'
                (set_expected_seqnum (set_received r rcv)
                   (Z.rem (CInt.add (expected_seqnum r) 1) SEQSPACE))
                (out ++ [tolayer5 B (copy20 (payload p))])
          | _, _ => Undefined
          end
      end
  end.

Definition B_deliver_fuel (r : receiver) : nat := S (length (received r)).

(** The ASCII digit ['0'] that fills the payload of an acknowledgment. *)
Definition char_0 : byte := x30.

(** The block of [B_input] that fills in the acknowledgment packet. *)
Definition B_make_ack (seq ack : Z) : pkt :=
  let ackpkt := mkpkt seq ack 0 (repeat char_0 PAYLOAD_LEN) in
  set_checksum ackpkt (ComputeChecksum ackpkt).

Definition B_input (r : receiver) (packet : pkt) : outcome receiver :=
  if IsCorrupted packet then Continue r []
  else
    let packet_seqnum := seqnum packet in
    if mod_distance packet_seqnum (expected_seqnum r) <? WINDOWSIZE then
      (* send an ACK for this packet's sequence number *)
      let ackpkt := B_make_ack (B_nextseqnum r) packet_seqnum in
      let r := set_B_nextseqnum r (Z.rem (CInt.add (B_nextseqnum r) 1) 2) in
      let buffer_index := Z.rem packet_seqnum WINDOWSIZE in
      match load (received r) buffer_index with
      | None => Undefined
      | Some false =>
          match store (receiver_buffer r) buffer_index packet,
                store (received r) buffer_index true with
          | Some buf, Some rcv =>
              B_deliver (B_deliver_fuel r)
                (set_packets_received
                   (set_received (set_receiver_buffer r buf) rcv)
                   (CInt.add (packets_received r) 1))
                [tolayer3 B ackpkt]
          | _, _ => Undefined
          end
      | Some true => B_deliver (B_deliver_fuel r) r [tolayer3 B ackpkt]
      end
    else Continue r [].

(** ** The two state machines as transition systems *)

(** Entry points of the sender, as the emulator invokes them. *)
Inductive A_event : Type :=
| submit (message : msg)
| on_ack (packet : pkt)
| on_timeout.

Definition A_step (s : sender) (e : A_event) : outcome sender :=
  match e with
  | submit message => A_output s message
  | on_ack packet => A_input s packet
  | on_timeout => A_timerinterrupt s
  end.

(** Running a list of events, collecting the emulator calls. *)
Fixpoint A_run (s : sender) (out : list event) (es : list A_event) : outcome sender :=
  match es with
  | [] => Continue s out
  | e :: es' =>
      match A_step s e with
      | Continue s' out' => A_run s' (out ++ out') es'
      | Exit status => Exit status
      | Undefined => Undefined
      | OutOfFuel => OutOfFuel
      end
  end.

(** States the sender can be in: after [A_init] and any number of
    entry-point calls that returned. *)
Inductive A_reachable : sender -> Prop :=
| A_reachable_init : A_reachable (A_init sender_zero)
| A_reachable_step s e s' out :
    A_reachable s -> A_step s e = Continue s' out -> A_reachable s'.

(** A frame as the data model of the specification has it: its sequence
    number is a member of the sequence space. *)
Definition frame_seq_ok (p : pkt) : Prop := 0 <= seqnum p < SEQSPACE.

Fixpoint B_run (r : receiver) (out : list event) (ps : list pkt) : outcome receiver :=
  match ps with
  | [] => Continue r out
  | p :: ps' =>
      match B_input r p with
      | Continue r' out' => B_run r' (out ++ out') ps'
      | Exit status => Exit status
      | Undefined => Undefined
      | OutOfFuel => OutOfFuel
      end
  end.

(** States the receiver can be in: after [B_init] and any number of
    [B_input] calls on frames of the data model. *)
Inductive B_reachable : receiver -> Prop :=
| B_reachable_init : B_reachable (B_init receiver_zero)
| B_reachable_step r p r' out :
    B_reachable r -> frame_seq_ok p -> B_input r p = Continue r' out ->
    B_reachable r'.

(** The receive-window test of [B_input], as a proposition. *)
Definition in_receive_window (r : receiver) (seq : Z) : Prop :=
  mod_distance seq (expected_seqnum r) < WINDOWSIZE.

(** The send-window test of [A_input], as a proposition. *)
Definition in_send_window (s : sender) (seq : Z) : Prop :=
  mod_distance seq (base s) < WINDOWSIZE.

(** What was handed to the application, in order. *)
Definition delivered (out : list event) : list (list byte) :=
  omap (fun e => match e with tolayer5 B d => Some d | _ => None end) out.

(** What was handed to the channel by one side, in order. *)
Definition sent_by (who : entity) (out : list event) : list pkt :=
  omap (fun e => match e, who with
                 | tolayer3 A p, A => Some p
                 | tolayer3 B p, B => Some p
                 | _, _ => None
                 end) out.

(** Whether A's timer is pending after the calls [out], given whether it
    was pending before. *)
Definition timer_after (running : bool) (out : list event) : bool :=
  fold_left (fun t e => match e with
                        | starttimer A _ => true
                        | stoptimer A => false
                        | _ => t
                        end) out running.

(** ** Both sides over a lossy first-in-first-out channel

    The emulator's medium delivers the packets of one direction in the
    order they were sent and may lose them.  A scheduler action either
    lets the application submit a message, or takes the oldest packet in
    flight in one direction and delivers or loses it, or lets A's
    pending timer expire. *)

Module Net.

Record net : Type := mknet {
  sndr : sender;
  rcvr : receiver;
  to_B : list pkt;            (* in flight from A to B, oldest first *)
  to_A : list pkt;            (* in flight from B to A, oldest first *)
  timer_A : bool;             (* A's timer is pending *)
  (* history, kept for the statements only *)
  accepted : list (list byte);   (* payloads of the submissions A took *)
  to_app : list (list byte);     (* payloads B gave to the application *)
  released : Z                   (* how many times A advanced its base *)
}.

Inductive action : Type :=
| Submit (message : msg)
| ArriveB | LoseAB
| ArriveA | LoseBA
| Expire.

Inductive result : Type :=
| Running (n : net)
| Exited (status : Z)      (* the process called [exit] *)
| Disabled                 (* the action cannot happen in this state *)
| Broken.                  (* undefined behaviour *)

Definition init : net :=
  mknet (A_init sender_zero) (B_init receiver_zero) [] [] false [] [] 0.

(** The effect of the emulator calls of one entry point on the medium,
    the timer and the application. *)
Definition absorb (n : net) (out : list event) : net :=
  mknet (sndr n) (rcvr n)
        (to_B n ++ sent_by A out)
        (to_A n ++ sent_by B out)
        (timer_after (timer_A n) out)
        (accepted n)
        (to_app n ++ delivered out)
        (released n).

Definition with_sender (n : net) (s : sender) : net :=
  mknet s (rcvr n) (to_B n) (to_A n) (timer_A n) (accepted n) (to_app n)
        (released n + mod_distance (base s) (base (sndr n))).
Definition with_receiver (n : net) (r : receiver) : net :=
  mknet (sndr n) r (to_B n) (to_A n) (timer_A n) (accepted n) (to_app n) (released n).
Definition with_to_B (n : net) (q : list pkt) : net :=
  mknet (sndr n) (rcvr n) q (to_A n) (timer_A n) (accepted n) (to_app n) (released n).
Definition with_to_A (n : net) (q : list pkt) : net :=
  mknet (sndr n) (rcvr n) (to_B n) q (timer_A n) (accepted n) (to_app n) (released n).
Definition with_timer (n : net) (t : bool) : net :=
  mknet (sndr n) (rcvr n) (to_B n) (to_A n) t (accepted n) (to_app n) (released n).
Definition with_accepted (n : net) (d : list byte) : net :=
  mknet (sndr n) (rcvr n) (to_B n) (to_A n) (timer_A n) (accepted n ++ [d])
        (to_app n) (released n).

Definition lift {S : Type} (o : outcome S) (k : S -> list event -> net) : result :=
  match o with
  | Continue s out => Running (k s out)
  | Exit status => Exited status
  | Undefined | OutOfFuel => Broken
  end.

Definition step (n : net) (a : action) : result :=
  match a with
  | Submit message =>
      lift (A_output (sndr n) message)
           (fun s out =>
              let n' := absorb (with_sender n s) out in
              match out with
              | [] => n'                       (* rejected: window full *)
              | _ => with_accepted n' (copy20 (data message))
              end)
  | ArriveB =>
      match to_B n with
      | [] => Disabled
      | p :: rest =>
          lift (B_input (rcvr n) p)
               (fun r out => absorb (with_receiver (with_to_B n rest) r) out)
      end
  | LoseAB =>
      match to_B n with
      | [] => Disabled
      | _ :: rest => Running (with_to_B n rest)
      end
  | ArriveA =>
      match to_A n with
      | [] => Disabled
      | p :: rest =>
          lift (A_input (sndr n) p)
               (fun s out => absorb (with_sender (with_to_A n rest) s) out)
      end
  | LoseBA =>
      match to_A n with
      | [] => Disabled
      | _ :: rest => Running (with_to_A n rest)
      end
  | Expire =>
      if timer_A n then
        (* the expired timer is no longer pending *)
        lift (A_timerinterrupt (sndr n))
             (fun s out => absorb (with_sender (with_timer n false) s) out)
      else Disabled
  end.

Fixpoint run (n : net) (acts : list action) : result :=
  match acts with
  | [] => Running n
  | a :: acts' =>
      match step n a with
      | Running n' => run n' acts'
      | other => other
      end
  end.

(** Whether every frame that arrives at B during the run passes the
    integrity check and lies in B's receive window at its arrival. *)
Fixpoint arrivals_in_window (n : net) (acts : list action) : bool :=
  match acts with
  | [] => true
  | a :: acts' =>
      (match a, to_B n with
       | ArriveB, p :: _ =>
           negb (IsCorrupted p) &&
           (mod_distance (seqnum p) (expected_seqnum (rcvr n)) <? WINDOWSIZE)
       | _, _ => true
       end) &&
      match step n a with
      | Running n' => arrivals_in_window n' acts'
      | _ => false
      end
  end.

End Net.

(** ** Definitions used to state the properties *)

(** A packet as a C object: three [int]s and a [char[20]]. *)
Definition pkt_repr (p : pkt) : Prop :=
  CInt.in_range (seqnum p) /\ CInt.in_range (acknum p) /\
  length (payload p) = PAYLOAD_LEN.

(** The sum, without wrap-around, of the payload cells [i .. i+n-1]. *)
Fixpoint payload_sum (pl : list byte) (i n : nat) : Z :=
  match n with
  | O => 0
  | S n' => CInt.of_char (char_at pl i) + payload_sum pl (S i) n'
  end.

(** Number of flags that are set in a flag array. *)
Fixpoint count_true (l : list bool) : nat :=
  match l with
  | [] => O
  | b :: l' => (if b then 1 else 0) + count_true l'
  end.

(** The part of the sender's state that the array accesses rely on. *)
Record A_shape (s : sender) : Prop := mkA_shape {
  shape_base : 0 <= base s < SEQSPACE;
  shape_next : 0 <= next_seqnum s < SEQSPACE;
  shape_buffer : length (sender_buffer s) = 6%nat;
  shape_acked : length (acked s) = 6%nat;
  shape_count_len : length (resend_count s) = 7%nat;
  shape_count : Forall (fun c => 0 <= c <= MAX_RETRIES) (resend_count s)
}.

(** Invariant of the sender between two entry-point calls: in addition,
    the flag of the slot of [base] is clear. *)
Definition A_wf (s : sender) : Prop :=
  A_shape s /\ load (acked s) (Z.rem (base s) WINDOWSIZE) = Some false.

(** The retry counter of the sequence number at the window base. *)
Definition base_retries (s : sender) : option Z := load (resend_count s) (base s).

(** Invariant of the receiver between two calls of [B_input]: every
    marked slot holds a frame of the sequence space that belongs to this
    slot and lies in the receive window. *)
Record B_wf (r : receiver) : Prop := mkB_wf {
  wf_expected : 0 <= expected_seqnum r < SEQSPACE;
  wf_rbuffer : length (receiver_buffer r) = 6%nat;
  wf_received : length (received r) = 6%nat;
  wf_marked : forall (i : nat) (p : pkt),
      received r !! i = Some true -> receiver_buffer r !! i = Some p ->
      frame_seq_ok p /\
      Z.to_nat (Z.rem (seqnum p) WINDOWSIZE) = i /\
      in_receive_window r (seqnum p)
}.

(** Whether every frame of a list of arrivals passes the integrity check
    and lies in the receive window at its arrival. *)
Fixpoint B_arrivals_in_window (r : receiver) (ps : list pkt) : bool :=
  match ps with
  | [] => true
  | p :: ps' =>
      negb (IsCorrupted p) &&
      (mod_distance (seqnum p) (expected_seqnum r) <? WINDOWSIZE) &&
      match B_input r p with
      | Continue r' _ => B_arrivals_in_window r' ps'
      | _ => false
      end
  end.

(** The receiver's state after a list of arrivals (the initial state if
    the run does not return). *)
Definition B_state_after (ps : list pkt) : receiver :=
  match B_run (B_init receiver_zero) [] ps with
  | Continue r _ => r
  | _ => B_init receiver_zero
  end.

(** The sender's state after a list of events (the initial state if the
    run does not return). *)
Definition A_state_after (es : list A_event) : sender :=
  match A_run (A_init sender_zero) [] es with
  | Continue s _ => s
  | _ => A_init sender_zero
  end.

(** ** Concrete runs *)

Module Scenario.

(** A message filled with one character. *)
Definition m (c : byte) : msg := mkmsg (repeat c PAYLOAD_LEN).

(** The payload of such a message. *)
Definition text (c : byte) : list byte := repeat c PAYLOAD_LEN.

(** An acknowledgment of sequence number [a] as B builds it. *)
Definition ack (a : Z) : pkt := B_make_ack 1 a.

(** The frame A builds for a message "a" under sequence number 3. *)
Definition frame3 : pkt := A_make_pkt 3 (m "a").

(** One message submitted and never acknowledged: ten timeouts exhaust
    the retries of sequence number 0. *)
Definition retries_exhausted : list A_event :=
  submit (m "a") :: repeat on_timeout 10.

(** Six messages submitted back to back. *)
Definition six_submits : list A_event :=
  [submit (m "a"); submit (m "b"); submit (m "c");
   submit (m "d"); submit (m "e"); submit (m "f")].

(** Six messages, all acknowledged in order, then two more submitted. *)
Definition eight_submits : list A_event :=
  six_submits ++
  [on_ack (ack 0); on_ack (ack 1); on_ack (ack 2);
   on_ack (ack 3); on_ack (ack 4); on_ack (ack 5);
   submit (m "g"); submit (m "h")].

(** Two messages; the acknowledgment of the second arrives first. *)
Definition second_acked_first : list A_event :=
  [submit (m "a"); submit (m "b"); on_ack (ack 1)].

(** The frames A builds for eight messages submitted in a row: the
    sequence numbers are 0..6 and then 0 again. *)
Definition eight_frames : list pkt :=
  [A_make_pkt 0 (m "a"); A_make_pkt 1 (m "b"); A_make_pkt 2 (m "c");
   A_make_pkt 3 (m "d"); A_make_pkt 4 (m "e"); A_make_pkt 5 (m "f");
   A_make_pkt 6 (m "g"); A_make_pkt 0 (m "h")].

(** The same frames in the order in which they reach B when the third
    one is held back (lost and retransmitted). *)
Definition third_frame_last : list pkt :=
  [A_make_pkt 0 (m "a"); A_make_pkt 1 (m "b");
   A_make_pkt 3 (m "d"); A_make_pkt 4 (m "e"); A_make_pkt 5 (m "f");
   A_make_pkt 6 (m "g"); A_make_pkt 0 (m "h");
   A_make_pkt 2 (m "c")].

(** A frame that passes the integrity check but whose sequence number,
    13, is not a member of the sequence space. *)
Definition alien_frame : pkt :=
  let p := mkpkt 13 NOTINUSE 0 (text "x") in
  set_checksum p (ComputeChecksum p).

Definition alien_arrivals : list pkt :=
  [A_make_pkt 0 (m "a"); A_make_pkt 1 (m "b"); alien_frame;
   A_make_pkt 2 (m "c"); A_make_pkt 3 (m "d"); A_make_pkt 4 (m "e");
   A_make_pkt 5 (m "f"); A_make_pkt 6 (m "g")].

Import Net.

(** Eight messages over the channel; the only fault is the loss of the
    frame that carries the seventh. *)
Definition one_frame_lost : list action :=
  [Submit (m "a"); Submit (m "b"); Submit (m "c");
   Submit (m "d"); Submit (m "e"); Submit (m "f");
   ArriveB; ArriveB; ArriveB; ArriveB; ArriveB; ArriveB;
   ArriveA; ArriveA; ArriveA; ArriveA; ArriveA; ArriveA;
   Submit (m "g"); Submit (m "h");
   LoseAB;          (* the frame of "g", sequence number 6 *)
   ArriveB;         (* the frame of "h", sequence number 0 *)
   ArriveA].

(** Six messages over the channel, nothing lost; the timer expires once
    before the first acknowledgment has arrived. *)
Definition early_timeout : list action :=
  [Submit (m "a"); Submit (m "b");
   ArriveB; ArriveB;
   Expire;         (* retransmits the frame of "a" *)
   ArriveA; ArriveA;
   ArriveB;         (* the retransmitted frame of "a" *)
   ArriveA;         (* its acknowledgment *)
   Submit (m "c"); Submit (m "d"); Submit (m "e"); Submit (m "f");
   ArriveB; ArriveB; ArriveB; ArriveB;
   ArriveA; ArriveA; ArriveA; ArriveA].

(** One message, delivered and acknowledged, then silence. *)
Definition idle_after_ack : list action :=
  [Submit (m "a"); ArriveB; ArriveA].

End Scenario.

(** ** The first version in the file (lines 1-253)

    Its header calls it Go-Back-N.  The sender keeps its window as a
    ring ([windowfirst], [windowlast], [windowcount]) over [buffer],
    marks acknowledged frames one by one and, on a timeout, resends
    every frame of the window that is not marked; the receiver buffers
    frames of its window and answers every packet with an
    acknowledgment.  [ComputeChecksum] and [IsCorrupted] are the same
    functions as above, and the blocks that fill in a data packet and an
    acknowledgment are the same as [A_make_pkt] and [B_make_ack]. *)

Module GBN.

Record sender : Type := mksender {
  buffer : list pkt;
  acked : list bool;
  windowfirst : Z;
  windowlast : Z;
  windowcount : Z;
  A_nextseqnum : Z;
  (* statistics counters owned by the emulator *)
  window_full : Z;
  total_ACKs_received : Z;
  new_ACKs : Z;
  packets_resent : Z
}.

Definition set_buffer (s : sender) (v : list pkt) : sender :=
  mksender v (acked s) (windowfirst s) (windowlast s) (windowcount s)
           (A_nextseqnum s) (window_full s) (total_ACKs_received s) (new_ACKs s)
           (packets_resent s).
Definition set_acked (s : sender) (v : list bool) : sender :=
  mksender (buffer s) v (windowfirst s) (windowlast s) (windowcount s)
           (A_nextseqnum s) (window_full s) (total_ACKs_received s) (new_ACKs s)
           (packets_resent s).
Definition set_windowfirst (s : sender) (v : Z) : sender :=
  mksender (buffer s) (acked s) v (windowlast s) (windowcount s)
           (A_nextseqnum s) (window_full s) (total_ACKs_received s) (new_ACKs s)
           (packets_resent s).
Definition set_windowlast (s : sender) (v : Z) : sender :=
  mksender (buffer s) (acked s) (windowfirst s) v (windowcount s)
           (A_nextseqnum s) (window_full s) (total_ACKs_received s) (new_ACKs s)
           (packets_resent s).
Definition set_windowcount (s : sender) (v : Z) : sender :=
  mksender (buffer s) (acked s) (windowfirst s) (windowlast s) v
           (A_nextseqnum s) (window_full s) (total_ACKs_received s) (new_ACKs s)
           (packets_resent s).
Definition set_A_nextseqnum (s : sender) (v : Z) : sender :=
  mksender (buffer s) (acked s) (windowfirst s) (windowlast s) (windowcount s)
           v (window_full s) (total_ACKs_received s) (new_ACKs s)
           (packets_resent s).
Definition set_window_full (s : sender) (v : Z) : sender :=
  mksender (buffer s) (acked s) (windowfirst s) (windowlast s) (windowcount s)
           (A_nextseqnum s) v (total_ACKs_received s) (new_ACKs s)
           (packets_resent s).
Definition set_total_ACKs_received (s : sender) (v : Z) : sender :=
  mksender (buffer s) (acked s) (windowfirst s) (windowlast s) (windowcount s)
           (A_nextseqnum s) (window_full s) v (new_ACKs s)
           (packets_resent s).
Definition set_new_ACKs (s : sender) (v : Z) : sender :=
  mksender (buffer s) (acked s) (windowfirst s) (windowlast s) (windowcount s)
           (A_nextseqnum s) (window_full s) (total_ACKs_received s) v
           (packets_resent s).
Definition set_packets_resent (s : sender) (v : Z) : sender :=
  mksender (buffer s) (acked s) (windowfirst s) (windowlast s) (windowcount s)
           (A_nextseqnum s) (window_full s) (total_ACKs_received s) (new_ACKs s)
           v.

(** Static storage before [A_init]: zero-initialised. *)
Definition sender_zero : sender :=
  mksender (repeat zero_pkt 6) (repeat false 6) 0 0 0 0 0 0 0 0.

Definition A_init (s : sender) : sender :=
  set_acked
    (set_windowcount
       (set_windowlast (set_windowfirst (set_A_nextseqnum s 0) 0) (-1)) 0)
    (repeat false 6).

Definition A_output (s : sender) (message : msg) : outcome sender :=
  if windowcount s <? WINDOWSIZE then
    let sendpkt := A_make_pkt (A_nextseqnum s) message in
    let windowlast' := Z.rem (CInt.add (windowlast s) 1) WINDOWSIZE in
    match store (buffer s) windowlast' sendpkt, store (acked s) windowlast' false with
    | Some buf, Some ack =>
        let windowcount' := CInt.add (windowcount s) 1 in
        Continue
          (set_A_nextseqnum
             (set_windowcount
                (set_acked (set_buffer (set_windowlast s windowlast') buf) ack)
                windowcount')
             (Z.rem (CInt.add (A_nextseqnum s) 1) SEQSPACE))
          (tolayer3 A sendpkt ::
           (if windowcount' =? 1 then [starttimer A RTT] else []))
    | _, _ => Undefined
    end
  else
    Continue (set_window_full s (CInt.add (window_full s) 1)) [].

(** The loop [while (windowcount > 0 && acked[windowfirst]) { ... }]. *)
Fixpoint A_slide (fuel : nat) (s : sender) : outcome sender :=
  match fuel with
  | O => OutOfFuel
  | S fuel' =>
      if 0 <? windowcount s then
        match load (acked s) (windowfirst s) with
        | None => Undefined
        | Some false => Continue s []
        | Some true =>
            match store (acked s) (windowfirst s) false with
            | None => Undefined
            | Some ack =>
                A_slide fuel'
                  (set_windowcount
                     (set_windowfirst (set_acked s ack)
                        (Z.rem (CInt.add (windowfirst s) 1) WINDOWSIZE))
                     (CInt.sub (windowcount s) 1))
            end
        end
      else Continue s []
  end.

(** The loop counters of this version count down from [windowcount]:
    one more test of the condition than there are frames in the
    window. *)
Definition window_fuel (s : sender) : nat := S (Z.to_nat (windowcount s)).

(** The loop [for (int i = 0; i < windowcount; i++)] of [A_input], from
    index [i] on, with its [break]. *)
Fixpoint A_find (fuel : nat) (i : Z) (s : sender) (packet : pkt) : outcome sender :=
  match fuel with
  | O => OutOfFuel
  | S fuel' =>
      if i <? windowcount s then
        let idx := Z.rem (CInt.add (windowfirst s) i) WINDOWSIZE in
        match load (buffer s) idx with
        | None => Undefined
        | Some p =>
            if seqnum p =? acknum packet then
              match load (acked s) idx with
              | None => Undefined
              | Some true => Continue s []       (* duplicate ACK, do nothing *)
              | Some false =>
                  match store (acked s) idx true with
                  | None => Undefined
                  | Some ack =>
                      let s := set_acked (set_new_ACKs s (CInt.add (new_ACKs s) 1)) ack in
                      match A_slide (window_fuel s) s with
                      | Continue s' _ =>
                          Continue s'
                            (stoptimer A ::
                             (if 0 <? windowcount s' then [starttimer A RTT] else []))
                      | other => other
                      end
                  end
              end
            else A_find fuel' (CInt.add i 1) s packet
        end
      else Continue s []
  end.

Definition A_input (s : sender) (packet : pkt) : outcome sender :=
  if negb (IsCorrupted packet) then
    let s := set_total_ACKs_received s (CInt.add (total_ACKs_received s) 1) in
    A_find (window_fuel s) 0 s packet
  else Continue s [].

(** The loop of [A_timerinterrupt], from index [i] on. *)
Fixpoint A_resend (fuel : nat) (i : Z) (s : sender) (out : list event) : outcome sender :=
  match fuel with
  | O => OutOfFuel
  | S fuel' =>
      if i <? windowcount s then
        let idx := Z.rem (CInt.add (windowfirst s) i) WINDOWSIZE in
        match load (acked s) idx with
        | None => Undefined
        | Some true => A_resend fuel' (CInt.add i 1) s out
        | Some false =>
            match load (buffer s) idx with
            | None => Undefined
            | Some p =>
                A_resend fuel' (CInt.add i 1)
                  (set_packets_resent s (CInt.add (packets_resent s) 1))
                  (out ++ [tolayer3 A p])
            end
        end
      else Continue s out
  end.

Definition A_timerinterrupt (s : sender) : outcome sender :=
  match A_resend (window_fuel s) 0 s [] with
  | Continue s' out => Continue s' (out ++ [starttimer A RTT])
  | other => other
  end.

Record receiver : Type := mkreceiver {
  rbuffer : list pkt;
  rcvd : list bool;
  expectedseqnum : Z;
  B_nextseqnum : Z;
  packets_received : Z
}.

Definition set_rbuffer (r : receiver) (v : list pkt) : receiver :=
  mkreceiver v (rcvd r) (expectedseqnum r) (B_nextseqnum r) (packets_received r).
Definition set_rcvd (r : receiver) (v : list bool) : receiver :=
  mkreceiver (rbuffer r) v (expectedseqnum r) (B_nextseqnum r) (packets_received r).
Definition set_expectedseqnum (r : receiver) (v : Z) : receiver :=
  mkreceiver (rbuffer r) (rcvd r) v (B_nextseqnum r) (packets_received r).
Definition set_B_nextseqnum (r : receiver) (v : Z) : receiver :=
  mkreceiver (rbuffer r) (rcvd r) (expectedseqnum r) v (packets_received r).
Definition set_packets_received (r : receiver) (v : Z) : receiver :=
  mkreceiver (rbuffer r) (rcvd r) (expectedseqnum r) (B_nextseqnum r) v.

Definition receiver_zero : receiver :=
  mkreceiver (repeat zero_pkt 6) (repeat false 6) 0 0 0.

Definition B_init (r : receiver) : receiver :=
  set_rcvd (set_B_nextseqnum (set_expectedseqnum r 0) 1) (repeat false 6).

(** The loop [while (rcvd[expectedseqnum % WINDOWSIZE]) { ... }]. *)
Fixpoint B_deliver (fuel : nat) (r : receiver) (out : list event) : outcome receiver :=
  match fuel with
  | O => OutOfFuel
  | S fuel' =>
      let idx := Z.rem (expectedseqnum r) WINDOWSIZE in
      match load (rcvd r) idx with
      | None => Undefined
      | Some false => Continue r out
      | Some true =>
          match load (rbuffer r) idx, store (rcvd r) idx false with
          | Some p, Some flags =>
              B_deliver fuel'
                (set_expectedseqnum (set_rcvd r flags)
                   (Z.rem (CInt.add (expectedseqnum r) 1) SEQSPACE))
                (out ++ [tolayer5 B (copy20 (payload p))])
          | _, _ => Undefined
          end
      end
  end.

Definition B_input (r : receiver) (packet : pkt) : outcome receiver :=
  let seq := seqnum packet in
  let diff := Z.rem (CInt.add (CInt.sub seq (expectedseqnum r)) SEQSPACE) SEQSPACE in
  let inWindow := diff <? WINDOWSIZE in
  if IsCorrupted packet || negb inWindow then
    (* send duplicate ACK for the packet before the expected one *)
    let sendpkt :=
      B_make_ack (B_nextseqnum r)
        (Z.rem (CInt.add (CInt.sub (expectedseqnum r) 1) SEQSPACE) SEQSPACE) in
    Continue
      (set_B_nextseqnum r (Z.rem (CInt.add (B_nextseqnum r) 1) SEQSPACE))
      [tolayer3 B sendpkt]
  else
    let idx := Z.rem seq WINDOWSIZE in
    match load (rcvd r) idx with
    | None => Undefined
    | Some true =>
        (* duplicate: only the ACK *)
        Continue
          (set_B_nextseqnum r (Z.rem (CInt.add (B_nextseqnum r) 1) SEQSPACE))
          [tolayer3 B (B_make_ack (B_nextseqnum r) seq)]
    | Some false =>
        match store (rbuffer r) idx packet, store (rcvd r) idx true with
        | Some buf, Some flags =>
            let r1 :=
              set_rcvd
                (set_rbuffer
                   (set_packets_received r (CInt.add (packets_received r) 1)) buf)
                flags in
            (* send ACK for whatever seq we got, then deliver in order *)
            B_deliver (S (length (rcvd r)))
              (set_B_nextseqnum r1 (Z.rem (CInt.add (B_nextseqnum r) 1) SEQSPACE))
              [tolayer3 B (B_make_ack (B_nextseqnum r) seq)]
        | _, _ => Undefined
        end
    end.

Inductive A_event : Type :=
| submit (message : msg)
| on_ack (packet : pkt)
| on_timeout.

Definition A_step (s : sender) (e : A_event) : outcome sender :=
  match e with
  | submit message => A_output s message
  | on_ack packet => A_input s packet
  | on_timeout => A_timerinterrupt s
  end.

Fixpoint A_run (s : sender) (out : list event) (es : list A_event) : outcome sender :=
  match es with
  | [] => Continue s out
  | e :: es' =>
      match A_step s e with
      | Continue s' out' => A_run s' (out ++ out') es'
      | Exit status => Exit status
      | Undefined => Undefined
      | OutOfFuel => OutOfFuel
      end
  end.

(** States the sender can be in: after [A_init] and any number of
    entry-point calls, with any packets, that returned. *)
Inductive A_reachable : sender -> Prop :=
| A_reachable_init : A_reachable (A_init sender_zero)
| A_reachable_step s e s' out :
    A_reachable s -> A_step s e = Continue s' out -> A_reachable s'.

Definition A_state_after (es : list A_event) : sender :=
  match A_run (A_init sender_zero) [] es with
  | Continue s _ => s
  | _ => A_init sender_zero
  end.

(** The slot of the [i]-th frame of the window. *)
Definition slot (s : sender) (i : Z) : Z := (windowfirst s + i) mod WINDOWSIZE.

(** The frames of the window that are not marked acknowledged, oldest
    first. *)
Definition unacked_frames (s : sender) : list pkt :=
  omap (fun i : nat =>
          match load (acked s) (slot s (Z.of_nat i)) with
          | Some false => load (buffer s) (slot s (Z.of_nat i))
          | _ => None
          end)
       (seq 0 (Z.to_nat (windowcount s))).

(** The ring is consistent, and the window holds [windowcount] frames
    with consecutive sequence numbers, the last one just before
    [A_nextseqnum]. *)
Record A_ring (s : sender) : Prop := mkA_ring {
  ring_count : 0 <= windowcount s <= WINDOWSIZE;
  ring_first : 0 <= windowfirst s < WINDOWSIZE;
  ring_last : (windowlast s + 1) mod WINDOWSIZE = slot s (windowcount s);
  ring_last_range : -1 <= windowlast s < WINDOWSIZE;
  ring_next : 0 <= A_nextseqnum s < SEQSPACE;
  ring_buffer : length (buffer s) = 6%nat;
  ring_acked : length (acked s) = 6%nat;
  ring_frames : forall i, 0 <= i < windowcount s ->
      exists p, load (buffer s) (slot s i) = Some p /\
                seqnum p = (A_nextseqnum s - windowcount s + i) mod SEQSPACE
}.

(** Only frames of the window from position [lo] on are marked
    acknowledged. *)
Definition marks_within (s : sender) (lo : Z) : Prop :=
  forall idx, load (acked s) idx = Some true ->
              exists i, lo <= i < windowcount s /\ idx = slot s i.

(** Invariant of the sender between two entry-point calls: the first
    frame of the window is never marked. *)
Definition A_wf (s : sender) : Prop := A_ring s /\ marks_within s 1.

(** The window test of [B_input]. *)
Definition inWindow (r : receiver) (packet : pkt) : bool :=
  Z.rem (CInt.add (CInt.sub (seqnum packet) (expectedseqnum r)) SEQSPACE) SEQSPACE
  <? WINDOWSIZE.

Fixpoint B_run (r : receiver) (out : list event) (ps : list pkt) : outcome receiver :=
  match ps with
  | [] => Continue r out
  | packet :: ps' =>
      match B_input r packet with
      | Continue r' out' => B_run r' (out ++ out') ps'
      | Exit status => Exit status
      | Undefined => Undefined
      | OutOfFuel => OutOfFuel
      end
  end.

(** States the receiver can be in: after [B_init] and any number of
    arrivals that returned, each packet either damaged or carrying a
    sequence number of the sequence space. *)
Inductive B_reachable : receiver -> Prop :=
| B_reachable_init : B_reachable (B_init receiver_zero)
| B_reachable_step r packet r' out :
    B_reachable r ->
    IsCorrupted packet = true \/ frame_seq_ok packet ->
    B_input r packet = Continue r' out -> B_reachable r'.

Definition B_state_after (ps : list pkt) : receiver :=
  match B_run (B_init receiver_zero) [] ps with
  | Continue r _ => r
  | _ => B_init receiver_zero
  end.

(** The receiver's variables are in range. *)
Record B_shape (r : receiver) : Prop := mkB_shape {
  shape_expected : 0 <= expectedseqnum r < SEQSPACE;
  shape_next : 0 <= B_nextseqnum r < SEQSPACE;
  shape_rbuffer : length (rbuffer r) = 6%nat;
  shape_rcvd : length (rcvd r) = 6%nat
}.

(** Invariant of the receiver between two arrivals: the slot of the
    expected frame is empty. *)
Definition B_wf (r : receiver) : Prop :=
  B_shape r /\ load (rcvd r) (Z.rem (expectedseqnum r) WINDOWSIZE) = Some false.

(** A's timer followed through the calls [out]: [None] when a running
    timer is started or an idle one is stopped, else whether the timer is
    pending afterwards. *)
Fixpoint timer_checked (pending : bool) (out : list event) : option bool :=
  match out with
  | [] => Some pending
  | starttimer A _ :: rest => if pending then None else timer_checked true rest
  | stoptimer A :: rest => if pending then timer_checked false rest else None
  | _ :: rest => timer_checked pending rest
  end.

(** Whether the timer is pending when the entry point for [e] starts: a
    timeout is the timer going off. *)
Definition pending_at_entry (pending : bool) (e : A_event) : bool :=
  match e with
  | on_timeout => false
  | _ => pending
  end.

End GBN.

(** ** Definitions used by the further properties *)


(** Whether an emulator call is a timer call. *)
Definition is_timer_call (e : event) : bool :=
  match e with
  | starttimer _ _ | stoptimer _ => true
  | _ => false
  end.

(** The frames A builds for the messages [msgs] when the first of them
    gets sequence number [n] and no sequence number wraps around. *)
Fixpoint frames_from (n : nat) (msgs : list msg) : list pkt :=
  match msgs with
  | [] => []
  | message :: msgs' => A_make_pkt (Z.of_nat n) message :: frames_from (S n) msgs'
  end.

(** What the application is to receive for [msgs]. *)
Definition payloads_of (msgs : list msg) : list (list byte) :=
  map (fun message => copy20 (data message)) msgs.

(** State of the receiver while the frames of the first window arrive:
    [got] are the frames that have arrived.  Every frame below
    expected_seqnum has arrived; the marked slots are those of the
    arrived frames at or above expected_seqnum, and hold them. *)
Record first_window_inv (msgs : list msg) (got : list pkt) (r : receiver) : Prop :=
  mk_first_window_inv {
  fw_wf : B_wf r;
  fw_expected : 0 <= expected_seqnum r <= Z.of_nat (length msgs);
  fw_below : forall (i : nat) message,
      Z.of_nat i < expected_seqnum r -> msgs !! i = Some message ->
      A_make_pkt (Z.of_nat i) message ∈ got;
  fw_marked : forall i : nat,
      received r !! i = Some true ->
      exists message,
        msgs !! i = Some message /\
        A_make_pkt (Z.of_nat i) message ∈ got /\
        expected_seqnum r <= Z.of_nat i /\
        receiver_buffer r !! i = Some (A_make_pkt (Z.of_nat i) message);
  fw_got : forall (i : nat) message,
      msgs !! i = Some message ->
      A_make_pkt (Z.of_nat i) message ∈ got ->
      expected_seqnum r <= Z.of_nat i ->
      received r !! i = Some true
}.

(* ================================================================== *)
(** * Properties *)

(** ** C integer arithmetic *)

Ltac euclid := Z.to_euclidean_division_equations; lia.

Lemma wrap_in_range x : CInt.in_range (CInt.wrap x).
Proof. unfold CInt.in_range, CInt.wrap, CInt.INT_MIN, CInt.INT_MAX. euclid. Qed.

Lemma wrap_small x : CInt.in_range x -> CInt.wrap x = x.
Proof. unfold CInt.in_range, CInt.wrap, CInt.INT_MIN, CInt.INT_MAX. euclid. Qed.

Lemma wrap_wrap_add x y : CInt.wrap (CInt.wrap x + y) = CInt.wrap (x + y).
Proof. unfold CInt.wrap. euclid. Qed.

(** Two integers less than 2^32 apart with the same 32-bit reduction are
    equal. *)
Lemma wrap_inj_near x y :
  CInt.wrap x = CInt.wrap y -> -4294967296 < x - y < 4294967296 -> x = y.
Proof. unfold CInt.wrap. euclid. Qed.

Lemma of_char_bound c : -128 <= CInt.of_char c <= 127.
Proof.
  unfold CInt.of_char. pose proof (Byte.to_N_bounded c) as Hb.
  destruct (Z.leb_spec 128 (Z.of_N (Byte.to_N c))); lia.
Qed.

Lemma of_char_inj c c' : CInt.of_char c = CInt.of_char c' -> c = c'.
Proof.
  unfold CInt.of_char. intros H.
  pose proof (Byte.to_N_bounded c) as Hb. pose proof (Byte.to_N_bounded c') as Hb'.
  assert (Byte.to_N c = Byte.to_N c') as E.
  { destruct (Z.leb_spec 128 (Z.of_N (Byte.to_N c)));
      destruct (Z.leb_spec 128 (Z.of_N (Byte.to_N c'))); lia. }
  pose proof (Byte.of_to_N c) as H1. pose proof (Byte.of_to_N c') as H2.
  rewrite E in H1. congruence.
Qed.

(** ** Checksum *)

Lemma checksum_loop_sum pl n : forall i acc,
  CInt.wrap (checksum_loop pl i n acc) = CInt.wrap (acc + payload_sum pl i n).
Proof.
  induction n as [|n IH]; intros i acc; simpl.
  - f_equal. lia.
  - rewrite IH. unfold CInt.add. rewrite wrap_wrap_add. f_equal. lia.
Qed.

Lemma checksum_loop_in_range pl n : forall i acc,
  CInt.in_range acc -> CInt.in_range (checksum_loop pl i n acc).
Proof.
  induction n as [|n IH]; intros i acc Hacc; simpl; [assumption|].
  apply IH. apply wrap_in_range.
Qed.

(** The checksum is the 32-bit reduction of
    [seqnum + acknum + payload[0] + ... + payload[19]]; the stored
    [checksum] field takes no part in it. *)
Lemma ComputeChecksum_sum p :
  ComputeChecksum p =
  CInt.wrap (seqnum p + acknum p + payload_sum (payload p) 0 PAYLOAD_LEN).
Proof.
  unfold ComputeChecksum.
  rewrite <- (wrap_small (checksum_loop _ _ _ _))
    by (apply checksum_loop_in_range, wrap_in_range).
  rewrite checksum_loop_sum. unfold CInt.add. rewrite wrap_wrap_add. reflexivity.
Qed.

Lemma payload_sum_bound pl n : forall i,
  -128 * Z.of_nat n <= payload_sum pl i n <= 127 * Z.of_nat n.
Proof.
  induction n as [|n IH]; intros i; simpl payload_sum; [lia|].
  pose proof (of_char_bound (char_at pl i)). specialize (IH (S i)). lia.
Qed.

Lemma char_at_insert (pl : list byte) (i j : nat) (c : byte) :
  (i < length pl)%nat ->
  char_at (<[i:=c]> pl) j = if decide (i = j) then c else char_at pl j.
Proof.
  intros Hi. unfold char_at. rewrite !nth_lookup.
  destruct (decide (i = j)) as [->|Hne].
  - rewrite list_lookup_insert_eq by assumption. reflexivity.
  - rewrite list_lookup_insert_ne by assumption. reflexivity.
Qed.

(** Overwriting cell [i] changes the sum of a range by the difference of
    the two cell values when [i] is in the range, and not at all
    otherwise. *)
Lemma payload_sum_insert (pl : list byte) (i : nat) (c : byte) n : forall i0,
  (i < length pl)%nat ->
  payload_sum (<[i:=c]> pl) i0 n =
  payload_sum pl i0 n +
  (if decide (i0 <= i < i0 + n)%nat
   then CInt.of_char c - CInt.of_char (char_at pl i) else 0).
Proof.
  induction n as [|n IH]; intros i0 Hi; simpl payload_sum.
  - destruct (decide _); lia.
  - rewrite IH by assumption. rewrite char_at_insert by assumption.
    destruct (decide (i = i0)) as [->|Hne];
      repeat destruct (decide _); try lia.
Qed.

Lemma IsCorrupted_false p : IsCorrupted p = false <-> checksum p = ComputeChecksum p.
Proof.
  unfold IsCorrupted. destruct (Z.eqb_spec (checksum p) (ComputeChecksum p)); split;
    congruence.
Qed.

Lemma IsCorrupted_true p : IsCorrupted p = true <-> checksum p <> ComputeChecksum p.
Proof.
  unfold IsCorrupted. destruct (Z.eqb_spec (checksum p) (ComputeChecksum p)); split;
    congruence.
Qed.

(** C9. A frame that passes the check no longer passes it after any one
    payload byte, its seqnum or its acknum is replaced by a different
    value; the stored checksum is compared against, not summed. *)
Theorem checksum_sensitivity (F : pkt) :
  pkt_repr F ->
  IsCorrupted F = false ->
  (forall (i : nat) (c : byte),
      (i < PAYLOAD_LEN)%nat -> c <> char_at (payload F) i ->
      IsCorrupted (set_payload_byte F i c) = true) /\
  (forall v : Z,
      CInt.in_range v -> v <> seqnum F -> IsCorrupted (set_seqnum F v) = true) /\
  (forall v : Z,
      CInt.in_range v -> v <> acknum F -> IsCorrupted (set_acknum F v) = true).
Proof.
  intros (Hs & Ha & Hlen) Hok. apply IsCorrupted_false in Hok.
  rewrite ComputeChecksum_sum in Hok.
  unfold CInt.in_range, CInt.INT_MIN, CInt.INT_MAX in *.
  repeat split.
  - intros i c Hi Hc. apply IsCorrupted_true.
    rewrite ComputeChecksum_sum.
    cbn [set_payload_byte set_seqnum set_acknum seqnum acknum checksum payload].
    rewrite Hok.
    rewrite payload_sum_insert by lia.
    destruct (decide _) as [_|Hout]; [|lia].
    intros E. apply wrap_inj_near in E.
    + apply Hc, of_char_inj. lia.
    + pose proof (of_char_bound c). pose proof (of_char_bound (char_at (payload F) i)).
      lia.
  - intros v Hv Hne. apply IsCorrupted_true.
    rewrite ComputeChecksum_sum.
    cbn [set_payload_byte set_seqnum set_acknum seqnum acknum checksum payload].
    rewrite Hok.
    intros E. apply wrap_inj_near in E; lia.
  - intros v Hv Hne. apply IsCorrupted_true.
    rewrite ComputeChecksum_sum.
    cbn [set_payload_byte set_seqnum set_acknum seqnum acknum checksum payload].
    rewrite Hok.
    intros E. apply wrap_inj_near in E; lia.
Qed.

Lemma checksum_sensitivity_witness :
  pkt_repr Scenario.frame3 /\
  IsCorrupted Scenario.frame3 = false /\
  (forall (i : nat) (c : byte),
      (i < PAYLOAD_LEN)%nat -> c <> char_at (payload Scenario.frame3) i ->
      IsCorrupted (set_payload_byte Scenario.frame3 i c) = true) /\
  (forall v : Z,
      CInt.in_range v -> v <> seqnum Scenario.frame3 ->
      IsCorrupted (set_seqnum Scenario.frame3 v) = true) /\
  (forall v : Z,
      CInt.in_range v -> v <> acknum Scenario.frame3 ->
      IsCorrupted (set_acknum Scenario.frame3 v) = true).
Proof.
  assert (pkt_repr Scenario.frame3) as Hrepr.
  { split; [vm_compute; split; discriminate|].
    split; [vm_compute; split; discriminate|reflexivity]. }
  split; [exact Hrepr|]. split; [reflexivity|].
  apply (checksum_sensitivity Scenario.frame3 Hrepr). reflexivity.
Defined.

(** ** Array accesses *)

Lemma load_Some {T} (a : list T) i v :
  load a i = Some v <-> 0 <= i /\ a !! Z.to_nat i = Some v.
Proof.
  unfold load. destruct (Z.ltb_spec i 0); split.
  - discriminate.
  - intros []. lia.
  - intros H'. split; [lia|assumption].
  - intros []. assumption.
Qed.

Lemma load_in_bounds {T} (a : list T) i :
  0 <= i < Z.of_nat (length a) -> exists v, load a i = Some v.
Proof.
  intros Hi. destruct (lookup_lt_is_Some_2 a (Z.to_nat i)) as [v Hv]; [lia|].
  exists v. apply load_Some. split; [lia|assumption].
Qed.

Lemma store_Some {T} (a : list T) i v a' :
  store a i v = Some a' <->
  0 <= i < Z.of_nat (length a) /\ a' = <[Z.to_nat i := v]> a.
Proof.
  unfold store.
  destruct (Z.leb_spec 0 i); destruct (Z.ltb_spec i (Z.of_nat (length a))); simpl;
    split; try (intros [? ?]; lia); try discriminate.
  - intros [= <-]. split; [lia|reflexivity].
  - intros [_ ->]. reflexivity.
Qed.

Lemma store_in_bounds {T} (a : list T) i v :
  0 <= i < Z.of_nat (length a) -> store a i v = Some (<[Z.to_nat i := v]> a).
Proof. intros Hi. apply store_Some. split; [assumption|reflexivity]. Qed.

Lemma load_store_same {T} (a : list T) i v :
  0 <= i < Z.of_nat (length a) -> load (<[Z.to_nat i := v]> a) i = Some v.
Proof.
  intros Hi. apply load_Some. split; [lia|]. apply list_lookup_insert_eq. lia.
Qed.

Lemma load_store_other {T} (a : list T) i j v :
  0 <= i -> 0 <= j -> i <> j -> load (<[Z.to_nat i := v]> a) j = load a j.
Proof.
  intros Hi Hj Hne. unfold load. destruct (Z.ltb_spec j 0); [reflexivity|].
  apply list_lookup_insert_ne. lia.
Qed.

(** ** Sequence-number arithmetic *)

Lemma rem_window x : 0 <= x -> 0 <= Z.rem x WINDOWSIZE < WINDOWSIZE.
Proof. unfold WINDOWSIZE. intros. euclid. Qed.

Lemma next_in_space x : 0 <= x < SEQSPACE ->
  Z.rem (CInt.add x 1) SEQSPACE = (x + 1) mod SEQSPACE /\
  0 <= Z.rem (CInt.add x 1) SEQSPACE < SEQSPACE.
Proof.
  unfold SEQSPACE, CInt.add. intros Hx.
  rewrite wrap_small by (unfold CInt.in_range, CInt.INT_MIN, CInt.INT_MAX; lia).
  euclid.
Qed.

(** On members of the sequence space the source's expression is the
    modular distance [(x - y) mod SEQSPACE]. *)
Lemma mod_distance_mod x y :
  0 <= x < SEQSPACE -> 0 <= y < SEQSPACE ->
  mod_distance x y = (x - y) mod SEQSPACE.
Proof.
  unfold mod_distance, SEQSPACE, CInt.add, CInt.sub. intros Hx Hy.
  rewrite (wrap_small (x - y))
    by (unfold CInt.in_range, CInt.INT_MIN, CInt.INT_MAX; lia).
  rewrite wrap_small by (unfold CInt.in_range, CInt.INT_MIN, CInt.INT_MAX; lia).
  euclid.
Qed.

(** ** Flag arrays *)

Lemma count_true_le l : (count_true l <= length l)%nat.
Proof. induction l as [|[] l IH]; simpl; lia. Qed.

Lemma count_true_clear l : forall i,
  l !! i = Some true -> S (count_true (<[i:=false]> l)) = count_true l.
Proof.
  induction l as [|b l IH]; intros [|i] H; simpl in *; try discriminate.
  - injection H as ->. reflexivity.
  - rewrite <- (IH i H). destruct b; simpl; lia.
Qed.

(** ** The sender's invariant *)

Lemma A_shape_base_slot s : A_shape s ->
  0 <= Z.rem (base s) WINDOWSIZE < Z.of_nat (length (acked s)).
Proof.
  intros H. rewrite (shape_acked s H).
  pose proof (rem_window (base s)) as Hr. pose proof (shape_base s H).
  unfold WINDOWSIZE in *. lia.
Qed.

(** The slide loop returns: with at least one more evaluation of its
    condition than there are set flags it stops at a base whose flag is
    clear, and it touches nothing but [base] and [acked]. *)
Lemma A_slide_spec fuel : forall s out,
  A_shape s -> (count_true (acked s) < fuel)%nat ->
  exists s' out',
    A_slide fuel s out = Continue s' out' /\ A_wf s' /\
    next_seqnum s' = next_seqnum s /\ sender_buffer s' = sender_buffer s /\
    resend_count s' = resend_count s /\ window_full s' = window_full s /\
    packets_resent s' = packets_resent s.
Proof.
  induction fuel as [|fuel IH]; intros s out Hs Hfuel; [lia|].
  pose proof (A_shape_base_slot s Hs) as Hslot.
  destruct (load_in_bounds (acked s) _ Hslot) as [b Hb].
  cbn [A_slide]. rewrite Hb. destruct b.
  - rewrite (store_in_bounds _ _ false Hslot).
    set (s1 := set_base (set_acked s _) _).
    assert (A_shape s1) as Hs1.
    { destruct Hs. constructor; simpl; try assumption.
      - apply next_in_space; assumption.
      - rewrite length_insert. assumption. }
    assert (count_true (acked s1) < fuel)%nat as Hfuel1.
    { simpl. apply load_Some in Hb as [_ Hb].
      pose proof (count_true_clear _ _ Hb). lia. }
    match goal with |- context [if ?c then _ else _] => destruct c end;
      match goal with
      | |- context [A_slide fuel s1 ?o] =>
          destruct (IH s1 o Hs1 Hfuel1) as (s' & out' & -> & ? & ? & ? & ? & ? & ?);
          exists s', out'; split; [reflexivity|];
          repeat (split; [assumption|]); assumption
      end.
  - exists s, out. split; [reflexivity|]. split; [split; assumption|].
    repeat split.
Qed.

Lemma A_wf_init : A_wf (A_init sender_zero).
Proof.
  split; [|reflexivity].
  constructor; simpl; try reflexivity; try (unfold SEQSPACE; lia).
  repeat constructor; unfold MAX_RETRIES; lia.
Qed.

Lemma A_output_wf s message s' out :
  A_wf s -> A_output s message = Continue s' out -> A_wf s'.
Proof.
  intros [Hs Hb] H. unfold A_output in H.
  destruct (mod_distance (next_seqnum s) (base s) <? WINDOWSIZE).
  - pose proof (rem_window (next_seqnum s)) as Hr.
    pose proof (shape_next s Hs) as Hn.
    rewrite !store_in_bounds in H
      by (rewrite ?(shape_buffer s Hs), ?(shape_acked s Hs); unfold WINDOWSIZE in *; lia).
    injection H as <- <-. split.
    + destruct Hs. constructor; simpl; try assumption.
      * apply next_in_space; assumption.
      * rewrite length_insert; assumption.
      * rewrite length_insert; assumption.
    + simpl.
      destruct (Z.eq_dec (Z.rem (next_seqnum s) WINDOWSIZE) (Z.rem (base s) WINDOWSIZE))
        as [E|E].
      * rewrite <- E. apply load_store_same.
        rewrite (shape_acked s Hs). unfold WINDOWSIZE in *. lia.
      * rewrite load_store_other; try assumption; try lia.
        pose proof (rem_window (base s)). pose proof (shape_base s Hs). lia.
  - injection H as <- <-. split; [|exact Hb].
    destruct Hs. constructor; simpl; assumption.
Qed.

Lemma A_input_wf s packet s' out :
  A_wf s -> A_input s packet = Continue s' out -> A_wf s'.
Proof.
  intros [Hs Hb] H. unfold A_input in H.
  destruct (negb (IsCorrupted packet)); [|injection H as <- <-; split; assumption].
  destruct (mod_distance (acknum packet) (base s) <? WINDOWSIZE);
    [|injection H as <- <-; split; assumption].
  destruct (load (acked s) (Z.rem (acknum packet) WINDOWSIZE)) as [[|]|] eqn:Hl;
    try discriminate.
  - destruct (A_slide_spec (A_slide_fuel s) s [] Hs) as (s1 & out1 & E & Hwf & _).
    { unfold A_slide_fuel. pose proof (count_true_le (acked s)). lia. }
    rewrite E in H. injection H as <- <-. exact Hwf.
  - destruct (store (acked s) _ true) as [ack|] eqn:Ha; try discriminate.
    destruct (store (resend_count s) _ 0) as [rc|] eqn:Hr; try discriminate.
    apply store_Some in Ha as [Hia ->]. apply store_Some in Hr as [Hir ->].
    set (s1 := set_resend_count _ _) in H.
    assert (A_shape s1) as Hs1.
    { destruct Hs. constructor; simpl; try assumption.
      - rewrite length_insert; assumption.
      - rewrite length_insert; assumption.
      - apply Forall_insert; [assumption|]. unfold MAX_RETRIES. lia. }
    destruct (A_slide_spec (A_slide_fuel s) s1 [] Hs1) as (s2 & out2 & E & Hwf & _).
    { unfold A_slide_fuel. simpl.
      pose proof (count_true_le
                    (<[Z.to_nat (Z.rem (acknum packet) WINDOWSIZE):=true]> (acked s))).
      rewrite length_insert in *. lia. }
    rewrite E in H. injection H as <- <-. exact Hwf.
Qed.

Lemma A_shape_retries s : A_shape s ->
  exists count, base_retries s = Some count /\ 0 <= count <= MAX_RETRIES.
Proof.
  intros Hs. pose proof (shape_base s Hs) as Hb.
  destruct (load_in_bounds (resend_count s) (base s)) as [count Hc].
  { rewrite (shape_count_len s Hs). unfold SEQSPACE in Hb. lia. }
  exists count. split; [exact Hc|].
  apply load_Some in Hc as [_ Hc].
  exact (proj1 (Forall_lookup _ _) (shape_count s Hs) _ _ Hc).
Qed.

Lemma A_timerinterrupt_wf s s' out :
  A_wf s -> A_timerinterrupt s = Continue s' out -> A_wf s'.
Proof.
  intros [Hs Hb] H. unfold A_timerinterrupt in H.
  destruct (A_shape_retries s Hs) as (count & Hc & Hrange).
  unfold base_retries in Hc. rewrite Hc in H.
  destruct (Z.leb_spec MAX_RETRIES count); [discriminate|].
  destruct (load (sender_buffer s) _); [|discriminate].
  destruct (store (resend_count s) _ _) as [rc|] eqn:Hst; [|discriminate].
  apply store_Some in Hst as [_ ->]. injection H as <- <-.
  split; [|exact Hb].
  destruct Hs. constructor; simpl; try assumption.
  - rewrite length_insert; assumption.
  - apply Forall_insert; [assumption|]. unfold CInt.add.
    rewrite wrap_small
      by (unfold CInt.in_range, CInt.INT_MIN, CInt.INT_MAX, MAX_RETRIES in *; lia).
    lia.
Qed.

Lemma A_step_wf s e s' out :
  A_wf s -> A_step s e = Continue s' out -> A_wf s'.
Proof.
  destruct e; simpl; eauto using A_output_wf, A_input_wf, A_timerinterrupt_wf.
Qed.

Lemma A_reachable_wf s : A_reachable s -> A_wf s.
Proof.
  induction 1 as [|s e s' out _ IH Hstep]; [exact A_wf_init|].
  exact (A_step_wf _ _ _ _ IH Hstep).
Qed.

(** A state produced by running events from a reachable state is
    reachable. *)
Lemma A_run_reachable es : forall s out s' out',
  A_reachable s -> A_run s out es = Continue s' out' -> A_reachable s'.
Proof.
  induction es as [|e es IH]; intros s out s' out' Hs H; simpl in H.
  - injection H as <- _. exact Hs.
  - destruct (A_step s e) as [s1 out1| | |] eqn:E; try discriminate.
    exact (IH _ _ _ _ (A_reachable_step _ _ _ _ Hs E) H).
Qed.

(** No entry point of the sender exhausts the loop budget of the model
    or leaves defined behaviour on a well-formed state unless the
    acknowledgment indexes outside the arrays. *)
Lemma A_output_returns s message :
  A_wf s -> exists s' out, A_output s message = Continue s' out.
Proof.
  intros [Hs _]. unfold A_output.
  destruct (mod_distance (next_seqnum s) (base s) <? WINDOWSIZE); [|eauto].
  pose proof (rem_window (next_seqnum s)) as Hr.
  pose proof (shape_next s Hs) as Hn.
  rewrite !store_in_bounds
    by (rewrite ?(shape_buffer s Hs), ?(shape_acked s Hs); unfold WINDOWSIZE in *; lia).
  eauto.
Qed.

Lemma A_state_after_reachable es : A_reachable (A_state_after es).
Proof.
  unfold A_state_after.
  destruct (A_run (A_init sender_zero) [] es) as [s out| | |] eqn:E;
    try exact A_reachable_init.
  exact (A_run_reachable es _ _ _ _ A_reachable_init E).
Qed.

(** ** Timeouts *)

(** What [A_timerinterrupt] does below the retry limit, on any
    well-formed state: one [tolayer3] of the packet stored in the slot
    [base % WINDOWSIZE], one more retry counted for [base], one
    [starttimer]. *)
Lemma A_timerinterrupt_below_max s count :
  A_wf s -> base_retries s = Some count -> count < MAX_RETRIES ->
  exists p,
    load (sender_buffer s) (Z.rem (base s) WINDOWSIZE) = Some p /\
    A_timerinterrupt s =
    Continue
      (set_resend_count (set_packets_resent s (CInt.add (packets_resent s) 1))
                        (<[Z.to_nat (base s) := count + 1]> (resend_count s)))
      [tolayer3 A p; starttimer A RTT].
Proof.
  intros [Hs _] Hc Hlt.
  destruct (A_shape_retries s Hs) as (count' & Hc' & Hrange).
  assert (count' = count) as -> by congruence.
  pose proof (shape_base s Hs) as Hb.
  destruct (load_in_bounds (sender_buffer s) (Z.rem (base s) WINDOWSIZE)) as [p Hp].
  { rewrite (shape_buffer s Hs). pose proof (rem_window (base s)).
    unfold WINDOWSIZE in *. lia. }
  exists p. split; [exact Hp|].
  unfold A_timerinterrupt. unfold base_retries in Hc. rewrite Hc, Hp.
  destruct (Z.leb_spec MAX_RETRIES count); [lia|].
  rewrite store_in_bounds
    by (rewrite (shape_count_len s Hs); unfold SEQSPACE in Hb; lia).
  unfold CInt.add at 2.
  rewrite wrap_small
    by (unfold CInt.in_range, CInt.INT_MIN, CInt.INT_MAX, MAX_RETRIES in *; lia).
  reflexivity.
Qed.

(** C6. Once the retry counter of the base sequence number has reached
    MAX_RETRIES, a timeout terminates the process with status 1: nothing
    is handed to the channel and the call does not return to carry on. *)
Theorem retry_exhaustion_is_fatal (s : sender) (count : Z) :
  A_reachable s ->
  base_retries s = Some count -> MAX_RETRIES <= count ->
  A_timerinterrupt s = Exit 1 /\
  (forall s' out, A_timerinterrupt s <> Continue s' out).
Proof.
  intros _ Hc Hmax. unfold A_timerinterrupt. unfold base_retries in Hc. rewrite Hc.
  destruct (Z.leb_spec MAX_RETRIES count); [|lia].
  split; [reflexivity|discriminate].
Qed.

Lemma retry_exhaustion_is_fatal_witness :
  base_retries (A_state_after Scenario.retries_exhausted) = Some 10 /\
  MAX_RETRIES <= 10 /\
  A_timerinterrupt (A_state_after Scenario.retries_exhausted) = Exit 1.
Proof.
  split; [reflexivity|]. split; [discriminate|].
  apply (retry_exhaustion_is_fatal
           (A_state_after Scenario.retries_exhausted) 10
           (A_state_after_reachable _)).
  - reflexivity.
  - discriminate.
Defined.

(** C10. Below the retry limit a timeout leaves base, next_seqnum, the
    buffered frames and the acked flags as they were; of the sender's
    window state it changes only the retry counter of the base sequence
    number, by one, and it leaves the timer started. *)
Theorem timeout_frame_effect (s : sender) (count : Z) :
  A_reachable s ->
  base_retries s = Some count -> count < MAX_RETRIES ->
  exists s' out,
    A_timerinterrupt s = Continue s' out /\
    base s' = base s /\
    next_seqnum s' = next_seqnum s /\
    sender_buffer s' = sender_buffer s /\
    acked s' = acked s /\
    window_full s' = window_full s /\
    base_retries s' = Some (count + 1) /\
    (forall seq, seq <> base s ->
                 load (resend_count s') seq = load (resend_count s) seq) /\
    (forall running, timer_after running out = true).
Proof.
  intros Hreach Hc Hlt. pose proof (A_reachable_wf s Hreach) as Hwf.
  destruct (A_timerinterrupt_below_max s count Hwf Hc Hlt) as (p & _ & E).
  eexists _, _. split; [exact E|]. simpl.
  destruct Hwf as [Hs _]. pose proof (shape_base s Hs) as Hb.
  repeat split.
  - unfold base_retries. simpl. apply load_store_same.
    rewrite (shape_count_len s Hs). unfold SEQSPACE in Hb. lia.
  - intros seq Hne. unfold load. destruct (Z.ltb_spec seq 0); [reflexivity|].
    apply list_lookup_insert_ne. lia.
Qed.

Lemma timeout_frame_effect_witness :
  base_retries (A_state_after Scenario.six_submits) = Some 0 /\
  0 < MAX_RETRIES /\
  exists s' out,
    A_timerinterrupt (A_state_after Scenario.six_submits) = Continue s' out /\
    base s' = base (A_state_after Scenario.six_submits) /\
    next_seqnum s' = next_seqnum (A_state_after Scenario.six_submits) /\
    sender_buffer s' = sender_buffer (A_state_after Scenario.six_submits) /\
    acked s' = acked (A_state_after Scenario.six_submits) /\
    window_full s' = window_full (A_state_after Scenario.six_submits) /\
    base_retries s' = Some (0 + 1) /\
    (forall seq, seq <> base (A_state_after Scenario.six_submits) ->
                 load (resend_count s') seq =
                 load (resend_count (A_state_after Scenario.six_submits)) seq) /\
    (forall running, timer_after running out = true).
Proof.
  split; [reflexivity|]. split; [reflexivity|].
  apply (timeout_frame_effect (A_state_after Scenario.six_submits) 0
           (A_state_after_reachable _)); reflexivity.
Defined.

(** ** Submission *)

(** The frame [A_output] builds passes the integrity check. *)
Lemma set_checksum_uncorrupted p :
  IsCorrupted (set_checksum p (ComputeChecksum p)) = false.
Proof.
  apply IsCorrupted_false. unfold set_checksum, ComputeChecksum.
  cbn [seqnum acknum payload checksum]. reflexivity.
Qed.

Lemma A_make_pkt_uncorrupted seq message :
  IsCorrupted (A_make_pkt seq message) = false.
Proof. apply set_checksum_uncorrupted. Qed.

Lemma B_make_ack_uncorrupted seq a : IsCorrupted (B_make_ack seq a) = false.
Proof. apply set_checksum_uncorrupted. Qed.

(** With room in the window [A_output] stores and transmits the new
    frame; without room it only counts the rejection. *)
Lemma A_output_cases (s : sender) (message : msg) :
  A_wf s ->
  mod_distance (next_seqnum s) (base s) =
  (next_seqnum s - base s) mod SEQSPACE /\
  ((next_seqnum s - base s) mod SEQSPACE < WINDOWSIZE ->
   exists s',
     A_output s message =
     Continue s' (tolayer3 A (A_make_pkt (next_seqnum s) message) ::
                  (if base s =? next_seqnum s then [starttimer A RTT] else [])) /\
     seqnum (A_make_pkt (next_seqnum s) message) = next_seqnum s /\
     payload (A_make_pkt (next_seqnum s) message) = copy20 (data message) /\
     IsCorrupted (A_make_pkt (next_seqnum s) message) = false /\
     load (sender_buffer s') (Z.rem (next_seqnum s) WINDOWSIZE) =
     Some (A_make_pkt (next_seqnum s) message) /\
     load (acked s') (Z.rem (next_seqnum s) WINDOWSIZE) = Some false /\
     next_seqnum s' = (next_seqnum s + 1) mod SEQSPACE /\
     base s' = base s /\ window_full s' = window_full s) /\
  (~ (next_seqnum s - base s) mod SEQSPACE < WINDOWSIZE ->
   A_output s message =
   Continue (set_window_full s (CInt.add (window_full s) 1)) []).
Proof.
  intros [Hs _].
  pose proof (shape_base s Hs) as Hb. pose proof (shape_next s Hs) as Hn.
  pose proof (mod_distance_mod _ _ Hn Hb) as Hd.
  pose proof (rem_window (next_seqnum s)) as Hr.
  assert (0 <= Z.rem (next_seqnum s) WINDOWSIZE < 6) as Hidx
      by (unfold WINDOWSIZE in *; lia).
  split; [exact Hd|]. unfold A_output. rewrite Hd. split.
  - intros Hroom.
    destruct (Z.ltb_spec ((next_seqnum s - base s) mod SEQSPACE) WINDOWSIZE);
      [|lia].
    rewrite !store_in_bounds
      by (rewrite ?(shape_buffer s Hs), ?(shape_acked s Hs); lia).
    eexists. split; [reflexivity|].
    split; [reflexivity|]. split; [reflexivity|].
    split; [apply A_make_pkt_uncorrupted|].
    cbn [set_next_seqnum set_acked set_sender_buffer base next_seqnum
         sender_buffer acked window_full].
    split; [apply load_store_same; rewrite (shape_buffer s Hs); lia|].
    split; [apply load_store_same; rewrite (shape_acked s Hs); lia|].
    split; [apply next_in_space; assumption|].
    split; reflexivity.
  - intros Hfull.
    destruct (Z.ltb_spec ((next_seqnum s - base s) mod SEQSPACE) WINDOWSIZE);
      [lia|reflexivity].
Qed.

(** Six submissions in a row, a seventh, and a seventh after the
    acknowledgment of sequence number 0. *)
Lemma six_then_full (m1 m2 m3 m4 m5 m6 m7 : msg) :
  exists s6 out6 s7 out7,
    A_run (A_init sender_zero) []
          [submit m1; submit m2; submit m3; submit m4; submit m5; submit m6] =
    Continue s6 out6 /\
    map seqnum (sent_by A out6) = [0; 1; 2; 3; 4; 5] /\
    map payload (sent_by A out6) =
    map (fun x => copy20 (data x)) [m1; m2; m3; m4; m5; m6] /\
    A_output s6 m7 = Continue (set_window_full s6 1) [] /\
    A_input s6 (Scenario.ack 0) = Continue s7 out7 /\
    A_output s7 m7 =
    Continue (set_next_seqnum
                (set_sender_buffer s7 (<[0%nat := A_make_pkt 6 m7]> (sender_buffer s7)))
                0)
             [tolayer3 A (A_make_pkt 6 m7)].
Proof.
  eexists _, _, _, _.
  split; [lazy -[A_make_pkt]; reflexivity|].
  split; [lazy -[A_make_pkt]; reflexivity|].
  split; [lazy -[A_make_pkt copy20]; reflexivity|].
  split; [lazy -[A_make_pkt]; reflexivity|].
  split; [lazy -[A_make_pkt]; reflexivity|].
  lazy -[A_make_pkt]. reflexivity.
Qed.

(** C8. [A_output] builds and transmits a new frame exactly when
    (next_seqnum - base) mod SEQSPACE < WINDOWSIZE.  Otherwise it only
    increments the window-full counter: nothing is sent, nothing is
    stored, window state is unchanged.  With the configured constants,
    six submissions in a row send sequence numbers 0..5, a seventh is
    rejected, and it is accepted (as sequence number 6) once the
    acknowledgment of 0 has been processed. *)
Theorem A_output_backpressure :
  (forall (s : sender) (message : msg),
      A_reachable s ->
      mod_distance (next_seqnum s) (base s) =
      (next_seqnum s - base s) mod SEQSPACE /\
      ((next_seqnum s - base s) mod SEQSPACE < WINDOWSIZE ->
       exists s',
         A_output s message =
         Continue s' (tolayer3 A (A_make_pkt (next_seqnum s) message) ::
                      (if base s =? next_seqnum s then [starttimer A RTT] else [])) /\
         seqnum (A_make_pkt (next_seqnum s) message) = next_seqnum s /\
         payload (A_make_pkt (next_seqnum s) message) = copy20 (data message) /\
         IsCorrupted (A_make_pkt (next_seqnum s) message) = false /\
         load (sender_buffer s') (Z.rem (next_seqnum s) WINDOWSIZE) =
         Some (A_make_pkt (next_seqnum s) message) /\
         load (acked s') (Z.rem (next_seqnum s) WINDOWSIZE) = Some false /\
         next_seqnum s' = (next_seqnum s + 1) mod SEQSPACE /\
         base s' = base s /\ window_full s' = window_full s) /\
      (~ (next_seqnum s - base s) mod SEQSPACE < WINDOWSIZE ->
       A_output s message =
       Continue (set_window_full s (CInt.add (window_full s) 1)) [])) /\
  (forall m1 m2 m3 m4 m5 m6 m7 : msg,
      exists s6 out6 s7 out7,
        A_run (A_init sender_zero) []
              [submit m1; submit m2; submit m3; submit m4; submit m5; submit m6] =
        Continue s6 out6 /\
        map seqnum (sent_by A out6) = [0; 1; 2; 3; 4; 5] /\
        map payload (sent_by A out6) = map (fun x => copy20 (data x)) [m1; m2; m3; m4; m5; m6] /\
        A_output s6 m7 = Continue (set_window_full s6 1) [] /\
        A_input s6 (Scenario.ack 0) = Continue s7 out7 /\
        A_output s7 m7 =
        Continue (set_next_seqnum
                    (set_sender_buffer s7 (<[0%nat := A_make_pkt 6 m7]> (sender_buffer s7)))
                    0)
                 [tolayer3 A (A_make_pkt 6 m7)]).
Proof.
  split.
  - intros s message Hreach. apply A_output_cases, A_reachable_wf, Hreach.
  - exact six_then_full.
Qed.

Lemma A_output_backpressure_witness :
  A_reachable (A_state_after Scenario.six_submits) /\
  A_output (A_state_after Scenario.six_submits) (Scenario.m "g") =
  Continue (set_window_full (A_state_after Scenario.six_submits)
              (CInt.add (window_full (A_state_after Scenario.six_submits)) 1)) [].
Proof.
  split; [apply A_state_after_reachable|].
  apply (proj1 A_output_backpressure (A_state_after Scenario.six_submits)
               (Scenario.m "g") (A_state_after_reachable _)).
  vm_compute. discriminate.
Defined.

(** ** The receiver's invariant *)

Lemma window_after_step seq e :
  0 <= seq < SEQSPACE -> 0 <= e < SEQSPACE -> seq <> e ->
  mod_distance seq (Z.rem (CInt.add e 1) SEQSPACE) < WINDOWSIZE.
Proof.
  intros Hs He Hne. destruct (next_in_space e He) as [E Hr].
  rewrite mod_distance_mod by assumption. rewrite E.
  unfold SEQSPACE, WINDOWSIZE in *. euclid.
Qed.

(** The delivery loop returns and keeps the invariant. *)
Lemma B_deliver_spec fuel : forall r out,
  B_wf r -> (count_true (received r) < fuel)%nat ->
  exists r' out', B_deliver fuel r out = Continue r' out' /\ B_wf r'.
Proof.
  induction fuel as [|fuel IH]; intros r out Hr Hfuel; [lia|].
  pose proof (wf_expected r Hr) as He.
  pose proof (rem_window (expected_seqnum r)) as Hidx.
  assert (0 <= Z.rem (expected_seqnum r) WINDOWSIZE < 6) as Hidx6
      by (unfold WINDOWSIZE in *; lia).
  destruct (load_in_bounds (received r) (Z.rem (expected_seqnum r) WINDOWSIZE))
    as [b Hb]; [rewrite (wf_received r Hr); lia|].
  destruct (load_in_bounds (receiver_buffer r) (Z.rem (expected_seqnum r) WINDOWSIZE))
    as [p Hp]; [rewrite (wf_rbuffer r Hr); lia|].
  cbn [B_deliver]. rewrite Hb. destruct b; [|eauto].
  rewrite Hp. rewrite store_in_bounds by (rewrite (wf_received r Hr); lia).
  apply IH.
  - constructor; cbn [set_expected_seqnum set_received expected_seqnum
                      receiver_buffer received].
    + apply next_in_space, He.
    + apply (wf_rbuffer r Hr).
    + rewrite length_insert. apply (wf_received r Hr).
    + intros i q Hi Hq.
      destruct (decide (Z.to_nat (Z.rem (expected_seqnum r) WINDOWSIZE) = i)) as [<-|Hne].
      { rewrite list_lookup_insert_eq in Hi by (rewrite (wf_received r Hr); lia).
        discriminate. }
      rewrite list_lookup_insert_ne in Hi by assumption.
      destruct (wf_marked r Hr i q Hi Hq) as (Hok & Hslot & _).
      split; [exact Hok|]. split; [exact Hslot|].
      unfold in_receive_window; cbn [expected_seqnum].
      apply window_after_step; try assumption.
      intros E. apply Hne. rewrite <- Hslot, E. reflexivity.
  - cbn [set_expected_seqnum set_received received].
    apply load_Some in Hb as [_ Hb].
    pose proof (count_true_clear _ _ Hb). lia.
Qed.

Lemma B_wf_init : B_wf (B_init receiver_zero).
Proof.
  constructor; simpl; try reflexivity; try (unfold SEQSPACE; lia).
  intros i p Hi. repeat (destruct i as [|i]; try discriminate).
Qed.

(** [B_input] returns on every frame of the sequence space and keeps the
    invariant. *)
Lemma B_input_spec r packet :
  B_wf r -> frame_seq_ok packet ->
  exists r' out, B_input r packet = Continue r' out /\ B_wf r'.
Proof.
  intros Hr Hok. unfold B_input.
  destruct (IsCorrupted packet); [eauto|].
  destruct (Z.ltb_spec (mod_distance (seqnum packet) (expected_seqnum r)) WINDOWSIZE)
    as [Hwin|_]; [|eauto].
  set (r0 := set_B_nextseqnum r _).
  set (ackpkt := B_make_ack _ _).
  assert (B_wf r0) as Hr0 by (destruct Hr; constructor; assumption).
  pose proof (rem_window (seqnum packet) (proj1 Hok)) as Hidx.
  assert (0 <= Z.rem (seqnum packet) WINDOWSIZE < 6) as Hidx6
      by (unfold WINDOWSIZE in *; lia).
  destruct (load_in_bounds (received r0) (Z.rem (seqnum packet) WINDOWSIZE)) as [b Hl];
    [rewrite (wf_received r0 Hr0); lia|].
  rewrite Hl. destruct b.
  - apply B_deliver_spec; [exact Hr0|].
    unfold B_deliver_fuel. pose proof (count_true_le (received r0)). lia.
  - rewrite !store_in_bounds
      by (rewrite ?(wf_rbuffer r0 Hr0), ?(wf_received r0 Hr0); lia).
    apply B_deliver_spec.
    + constructor; cbn [r0 set_packets_received set_received set_receiver_buffer
                        set_B_nextseqnum expected_seqnum receiver_buffer received].
      * apply (wf_expected r Hr).
      * rewrite length_insert. apply (wf_rbuffer r Hr).
      * rewrite length_insert. apply (wf_received r Hr).
      * intros i q Hi Hq.
        destruct (decide (Z.to_nat (Z.rem (seqnum packet) WINDOWSIZE) = i)) as [<-|Hne].
        -- rewrite list_lookup_insert_eq in Hq by (rewrite (wf_rbuffer r Hr); lia).
           injection Hq as <-. split; [exact Hok|]. split; [reflexivity|exact Hwin].
        -- rewrite list_lookup_insert_ne in Hi by assumption.
           rewrite list_lookup_insert_ne in Hq by assumption.
           exact (wf_marked r Hr i q Hi Hq).
    + unfold B_deliver_fuel.
      cbn [r0 set_packets_received set_received set_receiver_buffer
           set_B_nextseqnum received].
      pose proof (count_true_le
                    (<[Z.to_nat (Z.rem (seqnum packet) WINDOWSIZE):=true]> (received r))).
      rewrite length_insert in *. lia.
Qed.

Lemma B_input_wf r packet r' out :
  B_wf r -> frame_seq_ok packet -> B_input r packet = Continue r' out -> B_wf r'.
Proof.
  intros Hr Hok H. destruct (B_input_spec r packet Hr Hok) as (r1 & out1 & E & Hwf).
  congruence.
Qed.

Lemma B_reachable_wf r : B_reachable r -> B_wf r.
Proof.
  induction 1 as [|r p r' out _ IH Hok Hstep]; [exact B_wf_init|].
  exact (B_input_wf _ _ _ _ IH Hok Hstep).
Qed.

Lemma B_run_reachable ps : forall r out r' out',
  B_reachable r -> Forall frame_seq_ok ps ->
  B_run r out ps = Continue r' out' -> B_reachable r'.
Proof.
  induction ps as [|p ps IH]; intros r out r' out' Hr Hps H; simpl in H.
  - injection H as <- _. exact Hr.
  - destruct (B_input r p) as [r1 out1| | |] eqn:E; try discriminate.
    apply Forall_cons in Hps as [Hp Hps].
    exact (IH _ _ _ _ (B_reachable_step _ _ _ _ Hr Hp E) Hps H).
Qed.

Lemma B_state_after_reachable ps :
  Forall frame_seq_ok ps -> B_reachable (B_state_after ps).
Proof.
  intros Hps. unfold B_state_after.
  destruct (B_run (B_init receiver_zero) [] ps) as [r out| | |] eqn:E;
    try exact B_reachable_init.
  exact (B_run_reachable ps _ _ _ _ B_reachable_init Hps E).
Qed.

(** C4. In every reachable state of the receiver, a slot whose received
    mark is set holds a frame whose sequence number lies in the receive
    window [expected, expected + WINDOWSIZE) mod SEQSPACE. *)
Theorem received_within_window (r : receiver) (i : nat) :
  B_reachable r ->
  received r !! i = Some true ->
  exists p,
    receiver_buffer r !! i = Some p /\
    Z.to_nat (Z.rem (seqnum p) WINDOWSIZE) = i /\
    in_receive_window r (seqnum p) /\
    (seqnum p - expected_seqnum r) mod SEQSPACE < WINDOWSIZE.
Proof.
  intros Hreach Hi. pose proof (B_reachable_wf r Hreach) as Hr.
  destruct (lookup_lt_is_Some_2 (receiver_buffer r) i) as [p Hp].
  { rewrite (wf_rbuffer r Hr), <- (wf_received r Hr).
    apply lookup_lt_is_Some_1. eauto. }
  exists p. destruct (wf_marked r Hr i p Hi Hp) as (Hok & Hslot & Hwin).
  repeat split; try assumption.
  rewrite <- mod_distance_mod; [exact Hwin|exact Hok|exact (wf_expected r Hr)].
Qed.

Lemma received_within_window_witness :
  B_reachable (B_state_after [A_make_pkt 1 (Scenario.m "b")]) /\
  received (B_state_after [A_make_pkt 1 (Scenario.m "b")]) !! 1%nat = Some true /\
  exists p,
    receiver_buffer (B_state_after [A_make_pkt 1 (Scenario.m "b")]) !! 1%nat = Some p /\
    Z.to_nat (Z.rem (seqnum p) WINDOWSIZE) = 1%nat /\
    in_receive_window (B_state_after [A_make_pkt 1 (Scenario.m "b")]) (seqnum p) /\
    (seqnum p - expected_seqnum (B_state_after [A_make_pkt 1 (Scenario.m "b")]))
      mod SEQSPACE < WINDOWSIZE.
Proof.
  assert (Forall frame_seq_ok [A_make_pkt 1 (Scenario.m "b")]) as Hok.
  { repeat constructor; vm_compute; discriminate. }
  split; [exact (B_state_after_reachable _ Hok)|].
  split; [reflexivity|].
  apply (received_within_window
           (B_state_after [A_make_pkt 1 (Scenario.m "b")]) 1%nat
           (B_state_after_reachable _ Hok)).
  reflexivity.
Defined.

(** The restriction of [B_reachable] to frames of the sequence space
    matters: a frame with sequence number 13 and a matching checksum is
    accepted into slot 1 and is still marked there when the window has
    moved on to one that excludes it. *)
Remark alien_seqnum_escapes_window :
  exists r out p,
    B_run (B_init receiver_zero) [] Scenario.alien_arrivals = Continue r out /\
    received r !! 1%nat = Some true /\
    receiver_buffer r !! 1%nat = Some p /\ seqnum p = 13 /\
    expected_seqnum r = 0 /\
    ~ in_receive_window r (seqnum p).
Proof.
  eexists _, _, _. split; [vm_compute; reflexivity|].
  split; [reflexivity|]. split; [reflexivity|]. split; [reflexivity|].
  split; [reflexivity|]. vm_compute. discriminate.
Qed.

(** ** Acknowledgments *)

Lemma A_input_corrupted s packet :
  IsCorrupted packet = true -> A_input s packet = Continue s [].
Proof. intros H. unfold A_input. rewrite H. reflexivity. Qed.

Lemma A_input_outside_window s packet :
  ~ in_send_window s (acknum packet) -> A_input s packet = Continue s [].
Proof.
  intros H. unfold A_input, in_send_window in *.
  destruct (negb (IsCorrupted packet)); [|reflexivity].
  destruct (Z.ltb_spec (mod_distance (acknum packet) (base s)) WINDOWSIZE);
    [contradiction|reflexivity].
Qed.

(** In a reachable state the flag of the base slot is clear, so an
    acknowledgment whose flag is already set slides nothing. *)
Lemma A_input_duplicate s packet :
  A_reachable s ->
  load (acked s) (Z.rem (acknum packet) WINDOWSIZE) = Some true ->
  A_input s packet = Continue s [].
Proof.
  intros Hreach Hdup. destruct (A_reachable_wf s Hreach) as [_ Hbase].
  unfold A_input.
  destruct (negb (IsCorrupted packet)); [|reflexivity].
  destruct (mod_distance (acknum packet) (base s) <? WINDOWSIZE); [|reflexivity].
  rewrite Hdup. unfold A_slide_fuel. cbn [A_slide]. rewrite Hbase. reflexivity.
Qed.

(** What an in-window acknowledgment of a not yet acknowledged sequence
    number does: its flag is set and its retry counter reset, then the
    slide loop runs from that state; the loop leaves [base] at a slot
    whose flag is clear. *)
Lemma A_input_new_ack s packet :
  A_reachable s ->
  IsCorrupted packet = false ->
  0 <= acknum packet < SEQSPACE ->
  in_send_window s (acknum packet) ->
  load (acked s) (Z.rem (acknum packet) WINDOWSIZE) = Some false ->
  exists s' out,
    A_input s packet = Continue s' out /\
    A_slide (A_slide_fuel s)
      (set_resend_count
         (set_acked s (<[Z.to_nat (Z.rem (acknum packet) WINDOWSIZE) := true]> (acked s)))
         (<[Z.to_nat (acknum packet) := 0]> (resend_count s))) [] =
    Continue s' out /\
    load (acked s') (Z.rem (base s') WINDOWSIZE) = Some false /\
    next_seqnum s' = next_seqnum s /\ sender_buffer s' = sender_buffer s.
Proof.
  intros Hreach Hok Ha Hwin Hnew. destruct (A_reachable_wf s Hreach) as [Hs _].
  pose proof (rem_window (acknum packet) (proj1 Ha)) as Hidx.
  unfold A_input, in_send_window in *. rewrite Hok. cbn [negb].
  destruct (Z.ltb_spec (mod_distance (acknum packet) (base s)) WINDOWSIZE); [|lia].
  rewrite Hnew.
  rewrite !store_in_bounds
    by (rewrite ?(shape_acked s Hs), ?(shape_count_len s Hs);
        unfold WINDOWSIZE, SEQSPACE in *; lia).
  match goal with
  | |- context [A_slide ?f ?s1 ?o] =>
      destruct (A_slide_spec f s1 o) as (s' & out & E & [_ Hclear] & Hn & Hbuf & _)
  end.
  - destruct Hs. constructor; simpl; try assumption.
    + rewrite length_insert; assumption.
    + rewrite length_insert; assumption.
    + apply Forall_insert; [assumption|]. unfold MAX_RETRIES. lia.
  - unfold A_slide_fuel. simpl.
    pose proof (count_true_le
                  (<[Z.to_nat (Z.rem (acknum packet) WINDOWSIZE):=true]> (acked s))).
    rewrite length_insert in *. lia.
  - exists s', out. rewrite E. repeat split; assumption.
Qed.

(** ** Runs on which the code departs from the specification *)

(** C1. Eight messages are submitted and accepted; the frame of the
    seventh (sequence number 6) is lost; every frame that reaches B is
    intact and inside B's receive window.  B hands the eighth payload to
    the application in the place of the seventh, A takes the seventh for
    acknowledged, and the system comes to rest: no frame in flight, no
    timer pending.  The delivered sequence has a gap.  Likewise, when
    all eight frames reach B, each once and each inside the window, the
    third one last, B acknowledges the eighth without storing it and
    delivers seven payloads only. *)
Theorem delivery_skips_lost_frame :
  (exists n,
      Net.run Net.init Scenario.one_frame_lost = Net.Running n /\
      Net.arrivals_in_window Net.init Scenario.one_frame_lost = true /\
      Net.accepted n =
      map Scenario.text ["a"; "b"; "c"; "d"; "e"; "f"; "g"; "h"]%byte /\
      Net.to_app n =
      map Scenario.text ["a"; "b"; "c"; "d"; "e"; "f"; "h"]%byte /\
      Net.to_B n = [] /\ Net.to_A n = [] /\ Net.timer_A n = false /\
      base (Net.sndr n) = 0 /\ next_seqnum (Net.sndr n) = 1 /\
      expected_seqnum (Net.rcvr n) = 0) /\
  (exists r out,
      Permutation Scenario.third_frame_last Scenario.eight_frames /\
      B_arrivals_in_window (B_init receiver_zero) Scenario.third_frame_last = true /\
      B_run (B_init receiver_zero) [] Scenario.third_frame_last = Continue r out /\
      map acknum (sent_by B out) = [0; 1; 3; 4; 5; 6; 0; 2] /\
      delivered out = map Scenario.text ["a"; "b"; "c"; "d"; "e"; "f"; "g"]%byte /\
      received r = [false; false; false; false; false; false]).
Proof.
  split.
  - eexists. split; [vm_compute; reflexivity|]. vm_compute. repeat split.
  - eexists _, _. split.
    { unfold Scenario.third_frame_last, Scenario.eight_frames.
      do 2 apply perm_skip.
      apply Permutation_sym.
      exact (Permutation_cons_append _ _). }
    split; [vm_compute; reflexivity|].
    split; [vm_compute; reflexivity|].
    vm_compute. repeat split.
Qed.

(** C2. After the acknowledgment of the only outstanding frame the
    window is empty, and [A_input] leaves the timer started; after the
    acknowledgment of the first of two outstanding frames one frame
    remains, and [A_input] leaves the timer stopped.  In the first case
    the idle sender keeps timing out and ends the process. *)
Theorem timer_after_slide_reversed :
  (exists s,
      A_input (A_state_after [submit (Scenario.m "a")]) (Scenario.ack 0) =
      Continue s [stoptimer A; starttimer A RTT] /\
      base s = 1 /\ next_seqnum s = 1 /\
      timer_after true [stoptimer A; starttimer A RTT] = true) /\
  (exists s,
      A_input (A_state_after [submit (Scenario.m "a"); submit (Scenario.m "b")])
              (Scenario.ack 0) =
      Continue s [stoptimer A] /\
      base s = 1 /\ next_seqnum s = 2 /\
      timer_after true [stoptimer A] = false) /\
  Net.run Net.init (Scenario.idle_after_ack ++ repeat Net.Expire 11) = Net.Exited 1.
Proof.
  split; [eexists; split; [vm_compute; reflexivity|vm_compute; repeat split]|].
  split; [eexists; split; [vm_compute; reflexivity|vm_compute; repeat split]|].
  vm_compute. reflexivity.
Qed.

(** C3. With two frames outstanding and the second already
    acknowledged, the acknowledgment of sequence number 0 slides base
    from 0 to 2; the same acknowledgment once more is inside the new
    window and sets the flag of slot 0 again: the state after two
    applications differs from the state after one. *)
Theorem repeated_ack_changes_state :
  A_reachable (A_state_after Scenario.second_acked_first) /\
  IsCorrupted (Scenario.ack 0) = false /\
  exists s1 out1 s2 out2,
    A_input (A_state_after Scenario.second_acked_first) (Scenario.ack 0) =
    Continue s1 out1 /\
    A_input s1 (Scenario.ack 0) = Continue s2 out2 /\
    base s1 = 2 /\ next_seqnum s1 = 2 /\
    acked s1 = [false; false; false; false; false; false] /\
    acked s2 = [true; false; false; false; false; false] /\
    s2 <> s1.
Proof.
  split; [apply A_state_after_reachable|].
  split; [apply B_make_ack_uncorrupted|].
  eexists _, _, _, _.
  split; [vm_compute; reflexivity|]. split; [vm_compute; reflexivity|].
  vm_compute. repeat split. discriminate.
Qed.

(** C5. Six messages are acknowledged in order and two more are
    submitted: base is 6, the frame of "g" carries sequence number 6 and
    the frame of "h" sequence number 0; both went into buffer slot 0.
    The timeout retransmits the frame of "h", which is not the frame at
    base, and counts a retry for sequence number 6. *)
Theorem timeout_resends_other_frame :
  exists s out s',
    A_run (A_init sender_zero) [] Scenario.eight_submits = Continue s out /\
    map seqnum (sent_by A out) = [0; 1; 2; 3; 4; 5; 6; 0] /\
    base s = 6 /\ next_seqnum s = 1 /\ base_retries s = Some 0 /\
    A_timerinterrupt s =
    Continue s' [tolayer3 A (A_make_pkt 0 (Scenario.m "h")); starttimer A RTT] /\
    base_retries s' = Some 1 /\
    A_make_pkt 0 (Scenario.m "h") <> A_make_pkt 6 (Scenario.m "g").
Proof.
  eexists _, _, _.
  split; [vm_compute; reflexivity|].
  split; [vm_compute; reflexivity|].
  split; [reflexivity|]. split; [reflexivity|]. split; [reflexivity|].
  split; [vm_compute; reflexivity|].
  split; [reflexivity|]. vm_compute. discriminate.
Qed.

(** C7. Six messages are submitted and nothing is lost; the timer
    expires once before the first acknowledgment arrives.  At the end
    every frame has been acknowledged and the channel is empty, but the
    base has been advanced seven times for six accepted frames: it has
    overtaken next_seqnum, the window {base, ..., next_seqnum-1} names
    six sequence numbers none of which is in flight, and every further
    submission is rejected.  An acknowledgment of a sequence number that
    was never sent has the same effect on the initial state. *)
Theorem base_overtakes_next_seqnum :
  (exists n,
      Net.run Net.init Scenario.early_timeout = Net.Running n /\
      Net.to_B n = [] /\ Net.to_A n = [] /\
      length (Net.accepted n) = 6%nat /\ Net.released n = 7 /\
      base (Net.sndr n) = 0 /\ next_seqnum (Net.sndr n) = 6 /\
      mod_distance (next_seqnum (Net.sndr n)) (base (Net.sndr n)) = WINDOWSIZE /\
      A_output (Net.sndr n) (Scenario.m "g") =
      Continue (set_window_full (Net.sndr n) 1) [] /\
      Net.to_app n =
      map Scenario.text ["a"; "b"; "c"; "d"; "e"; "f"; "a"]%byte) /\
  (exists s out,
      A_input (A_init sender_zero) (Scenario.ack 0) = Continue s out /\
      base s = 1 /\ next_seqnum s = 0 /\
      mod_distance (next_seqnum s) (base s) = WINDOWSIZE).
Proof.
  split.
  - eexists. split; [vm_compute; reflexivity|]. vm_compute. repeat split.
  - eexists _, _. split; [vm_compute; reflexivity|]. vm_compute. repeat split.
Qed.

(** ** Further facts about the code as it is *)

Lemma timer_after_app t out1 out2 :
  timer_after t (out1 ++ out2) = timer_after (timer_after t out1) out2.
Proof. unfold timer_after. apply fold_left_app. Qed.

(** The timer decision of the slide loop.  Whenever the loop advances
    the base at all, it leaves the timer in the state its last iteration
    chose: started iff [(base - next_seqnum + SEQSPACE) % SEQSPACE <
    WINDOWSIZE] at the final base. *)
Lemma A_slide_timer fuel : forall s out s' out' t,
  A_slide fuel s out = Continue s' out' ->
  (s' = s /\ out' = out) \/
  timer_after t out' = (mod_distance (base s') (next_seqnum s') <? WINDOWSIZE).
Proof.
  induction fuel as [|fuel IH]; intros s out s' out' t H; [discriminate|].
  cbn [A_slide] in H.
  destruct (load (acked s) _) as [[|]|]; try discriminate.
  - destruct (store (acked s) _ false) as [ack|]; [|discriminate].
    set (s1 := set_base (set_acked s ack) _) in H.
    destruct (mod_distance (base s1) (next_seqnum s1) <? WINDOWSIZE) eqn:Hc;
      right; destruct (IH _ _ _ _ t H) as [[-> ->]|E]; try exact E;
      rewrite timer_after_app, Hc; reflexivity.
  - left. injection H as <- <-. split; reflexivity.
Qed.

(** For members of the sequence space that test holds unless exactly one
    frame is outstanding: the window being empty included. *)
Lemma slide_timer_condition b n :
  0 <= b < SEQSPACE -> 0 <= n < SEQSPACE ->
  (mod_distance b n <? WINDOWSIZE) = negb ((n - b) mod SEQSPACE =? 1).
Proof.
  intros Hb Hn. rewrite mod_distance_mod by assumption.
  unfold SEQSPACE, WINDOWSIZE in *.
  destruct (Z.ltb_spec ((b - n) mod 7) 6);
    destruct (Z.eqb_spec ((n - b) mod 7) 1); simpl; try reflexivity; exfalso; euclid.
Qed.

(** Bounds that hold in every reachable state of the sender. *)
Lemma A_window_bound s :
  A_reachable s ->
  0 <= base s < SEQSPACE /\ 0 <= next_seqnum s < SEQSPACE /\
  0 <= mod_distance (next_seqnum s) (base s) <= WINDOWSIZE.
Proof.
  intros Hreach. destruct (A_reachable_wf s Hreach) as [Hs _].
  pose proof (shape_base s Hs) as Hb. pose proof (shape_next s Hs) as Hn.
  split; [exact Hb|]. split; [exact Hn|].
  rewrite mod_distance_mod by assumption.
  unfold SEQSPACE, WINDOWSIZE in *. euclid.
Qed.

(** The entry points return on the states and frames they are meant
    for: the loop budget of the model always suffices and no array is
    indexed out of bounds. *)
Lemma A_input_returns s packet :
  A_wf s -> 0 <= acknum packet < SEQSPACE ->
  exists s' out, A_input s packet = Continue s' out.
Proof.
  intros [Hs Hb] Ha. unfold A_input.
  destruct (negb (IsCorrupted packet)); [|eauto].
  destruct (mod_distance (acknum packet) (base s) <? WINDOWSIZE); [|eauto].
  pose proof (rem_window (acknum packet) (proj1 Ha)) as Hidx.
  destruct (load_in_bounds (acked s) (Z.rem (acknum packet) WINDOWSIZE)) as [b Hl];
    [rewrite (shape_acked s Hs); unfold WINDOWSIZE in *; lia|].
  rewrite Hl. destruct b.
  - destruct (A_slide_spec (A_slide_fuel s) s [] Hs) as (s1 & out1 & E & _).
    { unfold A_slide_fuel. pose proof (count_true_le (acked s)). lia. }
    eauto.
  - rewrite !store_in_bounds
      by (rewrite ?(shape_acked s Hs), ?(shape_count_len s Hs);
          unfold WINDOWSIZE, SEQSPACE in *; lia).
    match goal with
    | |- context [A_slide ?f ?s1 ?o] =>
        destruct (A_slide_spec f s1 o) as (s' & out & E & _)
    end; [| |eauto].
    + destruct Hs. constructor; simpl; try assumption.
      * rewrite length_insert; assumption.
      * rewrite length_insert; assumption.
      * apply Forall_insert; [assumption|]. unfold MAX_RETRIES. lia.
    + unfold A_slide_fuel. simpl.
      pose proof (count_true_le
                  (<[Z.to_nat (Z.rem (acknum packet) WINDOWSIZE):=true]> (acked s))).
      rewrite length_insert in *. lia.
Qed.

Lemma A_timerinterrupt_returns_or_exits s :
  A_wf s ->
  A_timerinterrupt s = Exit 1 \/ exists s' out, A_timerinterrupt s = Continue s' out.
Proof.
  intros Hwf. destruct (A_shape_retries s (proj1 Hwf)) as (count & Hc & Hrange).
  destruct (Z.lt_ge_cases count MAX_RETRIES) as [Hlt|Hge].
  - right. destruct (A_timerinterrupt_below_max s count Hwf Hc Hlt) as (p & _ & E).
    eauto.
  - left. unfold A_timerinterrupt. unfold base_retries in Hc. rewrite Hc.
    destruct (Z.leb_spec MAX_RETRIES count); [reflexivity|lia].
Qed.

(* ================================================================== *)
(** * Further properties of the code *)

(** ** What the checksum cannot see *)



(** ** The window test and the slot mapping with the configured constants *)

(** X2. On the sequence space the window test
    [(seq - start + SEQSPACE) % SEQSPACE < WINDOWSIZE] rejects exactly
    one sequence number: the one just before [start]. *)
Theorem window_rejects_only_predecessor (seq start : Z) :
  0 <= seq < SEQSPACE -> 0 <= start < SEQSPACE ->
  (mod_distance seq start < WINDOWSIZE <-> seq <> (start + 6) mod SEQSPACE).
Proof.
  intros Hs Hb. rewrite mod_distance_mod by assumption.
  unfold SEQSPACE, WINDOWSIZE in *. split; intros H; euclid.
Qed.

Lemma window_rejects_only_predecessor_witness :
  0 <= 0 < SEQSPACE /\ 0 <= 2 < SEQSPACE /\
  (mod_distance 0 2 < WINDOWSIZE <-> 0 <> (2 + 6) mod SEQSPACE).
Proof.
  assert (0 <= 0 < SEQSPACE) as H0 by (unfold SEQSPACE; lia).
  assert (0 <= 2 < SEQSPACE) as H2 by (unfold SEQSPACE; lia).
  split; [exact H0|]. split; [exact H2|].
  exact (window_rejects_only_predecessor 0 2 H0 H2).
Defined.

(** X3. The buffer index [seq % WINDOWSIZE] separates the members of the
    sequence space except 0 and 6, which share slot 0. *)
Theorem slot_shared_by_0_and_6_only (s1 s2 : Z) :
  0 <= s1 < SEQSPACE -> 0 <= s2 < SEQSPACE -> s1 <> s2 ->
  (Z.rem s1 WINDOWSIZE = Z.rem s2 WINDOWSIZE <->
   (s1 = 0 /\ s2 = 6) \/ (s1 = 6 /\ s2 = 0)).
Proof.
  unfold SEQSPACE, WINDOWSIZE. intros H1 H2 Hne. split; intros H; euclid.
Qed.

Lemma slot_shared_by_0_and_6_only_witness :
  0 <= 6 < SEQSPACE /\ 0 <= 0 < SEQSPACE /\ 6 <> 0 /\
  Z.rem 6 WINDOWSIZE = Z.rem 0 WINDOWSIZE.
Proof.
  assert (0 <= 6 < SEQSPACE) as H6 by (unfold SEQSPACE; lia).
  assert (0 <= 0 < SEQSPACE) as H0 by (unfold SEQSPACE; lia).
  assert (6 <> 0) as Hne by lia.
  split; [exact H6|]. split; [exact H0|]. split; [exact Hne|].
  apply (slot_shared_by_0_and_6_only 6 0 H6 H0 Hne). right. split; reflexivity.
Defined.

(** ** Invariants of the sender *)

(** X4. Between two calls the sender's variables stay in their ranges:
    base and next_seqnum in the sequence space, the three arrays at
    their declared sizes, every retry counter between 0 and MAX_RETRIES,
    and the acked flag of the slot of base clear. *)
Theorem sender_state_invariant (s : sender) :
  A_reachable s ->
  0 <= base s < SEQSPACE /\ 0 <= next_seqnum s < SEQSPACE /\
  length (sender_buffer s) = Z.to_nat WINDOWSIZE /\
  length (acked s) = Z.to_nat WINDOWSIZE /\
  length (resend_count s) = Z.to_nat SEQSPACE /\
  (forall seq count, load (resend_count s) seq = Some count ->
                     0 <= count <= MAX_RETRIES) /\
  load (acked s) (Z.rem (base s) WINDOWSIZE) = Some false.
Proof.
  intros Hreach. destruct (A_reachable_wf s Hreach) as [Hs Hclear].
  destruct Hs as [Hb Hn Hbuf Hack Hlen Hcount].
  repeat split; try assumption; try lia.
  - apply load_Some in H as [_ H].
    exact (proj1 (proj1 (Forall_lookup _ _) Hcount _ _ H)).
  - apply load_Some in H as [_ H].
    exact (proj2 (proj1 (Forall_lookup _ _) Hcount _ _ H)).
Qed.

Lemma sender_state_invariant_witness :
  A_reachable (A_state_after Scenario.eight_submits) /\
  load (acked (A_state_after Scenario.eight_submits))
       (Z.rem (base (A_state_after Scenario.eight_submits)) WINDOWSIZE) = Some false.
Proof.
  split; [apply A_state_after_reachable|].
  apply (sender_state_invariant (A_state_after Scenario.eight_submits)
           (A_state_after_reachable _)).
Defined.

(** ** What processing an acknowledgment never does *)

Lemma timer_calls_send_nothing out :
  forallb is_timer_call out = true ->
  sent_by A out = [] /\ sent_by B out = [] /\ delivered out = [].
Proof.
  induction out as [|e out IH]; [intros _; repeat split|].
  cbn [forallb]. intros H. apply andb_prop in H as [He Hout].
  destruct (IH Hout) as (HA & HB & HD).
  destruct e as [[] ?|[] ?|[] ?|[]]; try discriminate;
    repeat split; assumption.
Qed.

(** The slide loop appends timer calls only and leaves everything but
    [base] and [acked] alone, on any state on which it returns. *)
Lemma A_slide_frame fuel : forall s out s' out',
  A_slide fuel s out = Continue s' out' ->
  (exists more, out' = out ++ more /\ forallb is_timer_call more = true) /\
  next_seqnum s' = next_seqnum s /\ sender_buffer s' = sender_buffer s /\
  resend_count s' = resend_count s /\ window_full s' = window_full s /\
  packets_resent s' = packets_resent s.
Proof.
  induction fuel as [|fuel IH]; intros s out s' out' H; [discriminate|].
  cbn [A_slide] in H.
  destruct (load (acked s) _) as [[|]|]; try discriminate.
  - destruct (store (acked s) _ false) as [ack|]; [|discriminate].
    match type of H with
    | (if ?c then _ else _) = _ => destruct c
    end; apply IH in H as ((more & -> & Hm) & Hrest);
      (split; [|exact Hrest]); eexists; rewrite <- app_assoc;
      (split; [reflexivity|]); exact Hm.
  - injection H as <- <-. split; [|repeat split].
    exists []. rewrite app_nil_r. split; reflexivity.
Qed.

(** X5. Whatever packet it is given, [A_input] hands nothing to the
    channel or to the application: its only emulator calls are timer
    calls.  It leaves next_seqnum, the buffered frames and the
    statistics counters as they were, and of the retry counters it can
    change only the one of the acknowledged sequence number. *)
Theorem ack_processing_sends_nothing (s : sender) (packet : pkt) (s' : sender)
        (out : list event) :
  A_input s packet = Continue s' out ->
  forallb is_timer_call out = true /\
  sent_by A out = [] /\ delivered out = [] /\
  next_seqnum s' = next_seqnum s /\ sender_buffer s' = sender_buffer s /\
  window_full s' = window_full s /\ packets_resent s' = packets_resent s /\
  (forall seq, seq <> acknum packet ->
               load (resend_count s') seq = load (resend_count s) seq).
Proof.
  intros H.
  assert (forallb is_timer_call out = true /\
          next_seqnum s' = next_seqnum s /\ sender_buffer s' = sender_buffer s /\
          window_full s' = window_full s /\ packets_resent s' = packets_resent s /\
          (forall seq, seq <> acknum packet ->
                       load (resend_count s') seq = load (resend_count s) seq))
    as (Ht & Hn & Hb & Hw & Hp & Hr).
  { unfold A_input in H.
    destruct (negb (IsCorrupted packet)); [|injection H as <- <-; repeat split].
    destruct (mod_distance (acknum packet) (base s) <? WINDOWSIZE);
      [|injection H as <- <-; repeat split].
    destruct (load (acked s) _) as [[|]|]; try discriminate.
    - apply A_slide_frame in H as ((more & -> & Hm) & Hn & Hb & Hr & Hw & Hp).
      repeat split; try assumption. intros seq _. rewrite Hr. reflexivity.
    - destruct (store (acked s) _ true) as [ack|]; [|discriminate].
      destruct (store (resend_count s) _ 0) as [rc|] eqn:Hst; [|discriminate].
      apply store_Some in Hst as [Hin ->].
      apply A_slide_frame in H as ((more & -> & Hm) & Hn & Hb & Hr & Hw & Hp).
      repeat split; try assumption.
      intros seq Hne. rewrite Hr. cbn [set_resend_count resend_count].
      unfold load. destruct (Z.ltb_spec seq 0); [reflexivity|].
      apply list_lookup_insert_ne. lia. }
  destruct (timer_calls_send_nothing out Ht) as (HA & _ & HD).
  repeat split; assumption.
Qed.

Lemma ack_processing_sends_nothing_witness :
  exists s' out,
    A_input (A_state_after Scenario.six_submits) (Scenario.ack 0) = Continue s' out /\
    sent_by A out = [] /\ next_seqnum s' = 6.
Proof.
  eexists _, _.
  assert (A_input (A_state_after Scenario.six_submits) (Scenario.ack 0) =
          Continue (set_base (A_state_after Scenario.six_submits) 1)
                   [stoptimer A; starttimer A RTT]) as E by (vm_compute; reflexivity).
  split; [exact E|].
  destruct (ack_processing_sends_nothing _ _ _ _ E) as (_ & HA & _ & Hn & _).
  split; [exact HA|exact Hn].
Defined.

(** ** The retry budget of the base frame *)

Lemma sent_by_app who out1 out2 :
  sent_by who (out1 ++ out2) = sent_by who out1 ++ sent_by who out2.
Proof. unfold sent_by. apply omap_app. Qed.

Lemma delivered_app out1 out2 :
  delivered (out1 ++ out2) = delivered out1 ++ delivered out2.
Proof. unfold delivered. apply omap_app. Qed.

(** [n] timeouts in a row, while the budget lasts, resend the packet of
    the base slot [n] times and count [n] retries. *)
Lemma A_run_timeouts n : forall s count out0,
  A_wf s -> base_retries s = Some count ->
  count + Z.of_nat n <= MAX_RETRIES ->
  exists p s' out,
    load (sender_buffer s) (Z.rem (base s) WINDOWSIZE) = Some p /\
    A_run s out0 (repeat on_timeout n) = Continue s' (out0 ++ out) /\
    sent_by A out = repeat p n /\
    A_wf s' /\ base_retries s' = Some (count + Z.of_nat n).
Proof.
  induction n as [|n IH]; intros s count out0 Hwf Hc Hle.
  - destruct (load_in_bounds (sender_buffer s) (Z.rem (base s) WINDOWSIZE)) as [p Hp].
    { destruct Hwf as [Hs _]. rewrite (shape_buffer s Hs).
      pose proof (rem_window (base s)). pose proof (shape_base s Hs).
      unfold WINDOWSIZE in *. lia. }
    exists p, s, []. rewrite app_nil_r, Z.add_0_r.
    split; [exact Hp|]. split; [reflexivity|]. split; [reflexivity|].
    split; [exact Hwf|exact Hc].
  - destruct (A_timerinterrupt_below_max s count Hwf Hc ltac:(lia)) as (p & Hp & E).
    set (s1 := set_resend_count _ _) in E.
    assert (A_wf s1) as Hwf1 by exact (A_timerinterrupt_wf _ _ _ Hwf E).
    assert (base_retries s1 = Some (count + 1)) as Hc1.
    { unfold base_retries. cbn [s1 set_resend_count set_packets_resent
                                resend_count base].
      apply load_store_same. destruct Hwf as [Hs _].
      rewrite (shape_count_len s Hs). pose proof (shape_base s Hs).
      unfold SEQSPACE in *. lia. }
    destruct (IH s1 (count + 1) (out0 ++ [tolayer3 A p; starttimer A RTT]) Hwf1 Hc1
                 ltac:(lia)) as (p1 & s' & out & Hp1 & Hrun & Hsent & Hwf' & Hc').
    assert (p1 = p) as -> by (cbn in Hp1; congruence).
    exists p, s', ([tolayer3 A p; starttimer A RTT] ++ out).
    split; [exact Hp|]. split.
    + cbn [repeat A_run A_step]. rewrite E, Hrun, <- app_assoc. reflexivity.
    + split; [rewrite sent_by_app, Hsent; reflexivity|].
      split; [exact Hwf'|]. rewrite Hc'. f_equal. lia.
Qed.

(** X6. From any reachable state, and as long as no acknowledgment moves
    the base, the timeouts that the retry budget still allows
    (MAX_RETRIES minus the retries already counted for base) each resend
    the same stored packet, and the timeout after them ends the
    process. *)
Theorem retry_budget (s : sender) (count : Z) :
  A_reachable s -> base_retries s = Some count ->
  exists p s' out,
    load (sender_buffer s) (Z.rem (base s) WINDOWSIZE) = Some p /\
    A_run s [] (repeat on_timeout (Z.to_nat (MAX_RETRIES - count))) =
    Continue s' out /\
    sent_by A out = repeat p (Z.to_nat (MAX_RETRIES - count)) /\
    A_timerinterrupt s' = Exit 1.
Proof.
  intros Hreach Hc. pose proof (A_reachable_wf s Hreach) as Hwf.
  destruct (A_shape_retries s (proj1 Hwf)) as (c' & Hc' & Hrange).
  assert (c' = count) as -> by congruence.
  destruct (A_run_timeouts (Z.to_nat (MAX_RETRIES - count)) s count [] Hwf Hc
                           ltac:(lia))
    as (p & s' & out & Hp & Hrun & Hsent & Hwf' & Hfinal).
  exists p, s', out. repeat split; try assumption.
  unfold A_timerinterrupt. unfold base_retries in Hfinal. rewrite Hfinal.
  destruct (Z.leb_spec MAX_RETRIES (count + Z.of_nat (Z.to_nat (MAX_RETRIES - count))));
    [reflexivity|lia].
Qed.

Lemma retry_budget_witness :
  A_reachable (A_state_after Scenario.six_submits) /\
  base_retries (A_state_after Scenario.six_submits) = Some 0 /\
  exists p s' out,
    load (sender_buffer (A_state_after Scenario.six_submits))
         (Z.rem (base (A_state_after Scenario.six_submits)) WINDOWSIZE) = Some p /\
    A_run (A_state_after Scenario.six_submits) []
          (repeat on_timeout (Z.to_nat (MAX_RETRIES - 0))) = Continue s' out /\
    sent_by A out = repeat p (Z.to_nat (MAX_RETRIES - 0)) /\
    A_timerinterrupt s' = Exit 1.
Proof.
  split; [apply A_state_after_reachable|]. split; [reflexivity|].
  apply (retry_budget (A_state_after Scenario.six_submits) 0
                      (A_state_after_reachable _)).
  reflexivity.
Defined.

(** ** The receiver's acknowledgments and deliveries *)

Lemma seq_advance e n :
  ((e + 1) mod SEQSPACE + n) mod SEQSPACE = (e + Z.succ n) mod SEQSPACE.
Proof.
  rewrite Z.add_mod_idemp_l by (unfold SEQSPACE; lia). f_equal. lia.
Qed.

(** One iteration of the delivery loop keeps the receiver's invariant. *)
Lemma B_deliver_step_wf r :
  B_wf r ->
  B_wf (set_expected_seqnum
          (set_received r (<[Z.to_nat (Z.rem (expected_seqnum r) WINDOWSIZE) := false]>
                             (received r)))
          (Z.rem (CInt.add (expected_seqnum r) 1) SEQSPACE)).
Proof.
  intros Hr. pose proof (wf_expected r Hr) as He.
  pose proof (rem_window (expected_seqnum r) (proj1 He)) as Hidx.
  constructor; cbn [set_expected_seqnum set_received expected_seqnum
                    receiver_buffer received].
  - apply next_in_space, He.
  - apply (wf_rbuffer r Hr).
  - rewrite length_insert. apply (wf_received r Hr).
  - intros i q Hi Hq.
    destruct (decide (Z.to_nat (Z.rem (expected_seqnum r) WINDOWSIZE) = i)) as [<-|Hne].
    { rewrite list_lookup_insert_eq in Hi
        by (rewrite (wf_received r Hr); unfold WINDOWSIZE in *; lia).
      discriminate. }
    rewrite list_lookup_insert_ne in Hi by assumption.
    destruct (wf_marked r Hr i q Hi Hq) as (Hok & Hslot & _).
    split; [exact Hok|]. split; [exact Hslot|].
    unfold in_receive_window; cbn [expected_seqnum].
    apply window_after_step; try assumption.
    intros E. apply Hne. rewrite <- Hslot, E. reflexivity.
Qed.

(** What the delivery loop does when it returns: it hands over the
    payloads [ds] of as many slots as it clears, advances
    expected_seqnum by their number, stops at a slot whose mark is
    clear, and touches neither the buffer nor the counters. *)
Lemma B_deliver_trace fuel : forall r out r' out',
  B_wf r -> B_deliver fuel r out = Continue r' out' ->
  exists ds,
    out' = out ++ map (tolayer5 B) ds /\
    (length ds + count_true (received r') = count_true (received r))%nat /\
    expected_seqnum r' = (expected_seqnum r + Z.of_nat (length ds)) mod SEQSPACE /\
    load (received r') (Z.rem (expected_seqnum r') WINDOWSIZE) = Some false /\
    receiver_buffer r' = receiver_buffer r /\
    B_nextseqnum r' = B_nextseqnum r /\
    packets_received r' = packets_received r /\
    (ds = [] -> r' = r) /\
    (forall p, load (receiver_buffer r) (Z.rem (expected_seqnum r) WINDOWSIZE) = Some p ->
               ds = [] \/ exists rest, ds = copy20 (payload p) :: rest).
Proof.
  induction fuel as [|fuel IH]; intros r out r' out' Hr H; [discriminate|].
  cbn [B_deliver] in H.
  pose proof (wf_expected r Hr) as He.
  destruct (load (received r) _) as [[|]|] eqn:Hl; try discriminate.
  - destruct (load (receiver_buffer r) _) as [p|] eqn:Hp; [|discriminate].
    destruct (store (received r) _ false) as [rcv|] eqn:Hst; [|discriminate].
    apply store_Some in Hst as [Hin ->].
    apply IH in H as (ds & -> & Hcount & Hexp & Hclear & Hbuf & Hnext & Hpr & _ & _);
      [|apply B_deliver_step_wf, Hr].
    cbn [set_expected_seqnum set_received expected_seqnum receiver_buffer received
         B_nextseqnum packets_received] in *.
    exists (copy20 (payload p) :: ds).
    split; [rewrite <- app_assoc; reflexivity|].
    split.
    { apply load_Some in Hl as [_ Hl]. pose proof (count_true_clear _ _ Hl).
      cbn [length]. lia. }
    split.
    { rewrite Hexp. destruct (next_in_space _ He) as [-> _].
      cbn [length]. rewrite Nat2Z.inj_succ. apply seq_advance. }
    repeat split; try assumption; try discriminate.
    intros q Hq. right. exists ds. congruence.
  - injection H as <- <-. exists []. rewrite app_nil_r, Z.add_0_r.
    split; [reflexivity|]. split; [reflexivity|].
    split; [symmetry; apply Z.mod_small; exact He|].
    repeat split; try assumption. intros p _. left. reflexivity.
Qed.

(** The mark of the slot of expected_seqnum is clear between two calls
    of [B_input], and the acknowledgment counter is 0 or 1. *)
Lemma B_reachable_clear r :
  B_reachable r ->
  load (received r) (Z.rem (expected_seqnum r) WINDOWSIZE) = Some false /\
  (B_nextseqnum r = 0 \/ B_nextseqnum r = 1).
Proof.
  induction 1 as [|r p r' out Hreach [IHc IHn] Hok Hstep].
  - split; [reflexivity|right; reflexivity].
  - pose proof (B_reachable_wf r Hreach) as Hr.
    unfold B_input in Hstep.
    destruct (IsCorrupted p); [injection Hstep as <- <-; split; assumption|].
    destruct (mod_distance (seqnum p) (expected_seqnum r) <? WINDOWSIZE) eqn:Hwin;
      [|injection Hstep as <- <-; split; assumption].
    set (r0 := set_B_nextseqnum r _) in Hstep.
    assert (B_wf r0) as Hr0 by (destruct Hr; constructor; assumption).
    assert (Z.rem (CInt.add (B_nextseqnum r) 1) 2 = 0 \/
            Z.rem (CInt.add (B_nextseqnum r) 1) 2 = 1) as Hn'
        by (destruct IHn as [-> | ->]; [right|left]; reflexivity).
    pose proof (rem_window (seqnum p) (proj1 Hok)) as Hidx.
    destruct (load (received r0) _) as [[|]|] eqn:Hl; try discriminate.
    + apply B_deliver_trace in Hstep as (ds & _ & _ & _ & Hclear & _ & Hnext & _);
        [|exact Hr0].
      split; [exact Hclear|]. rewrite Hnext. exact Hn'.
    + destruct (store (receiver_buffer r0) _ p) as [buf|] eqn:Hs1; [|discriminate].
      destruct (store (received r0) _ true) as [rcv|] eqn:Hs2; [|discriminate].
      assert (exists r1 out1, B_input r p = Continue r1 out1 /\ B_wf r1) as _
          by exact (B_input_spec r p Hr Hok).
      apply store_Some in Hs1 as [Hin1 ->]. apply store_Some in Hs2 as [Hin2 ->].
      apply B_deliver_trace in Hstep as (ds & _ & _ & _ & Hclear & _ & Hnext & _).
      * split; [exact Hclear|]. rewrite Hnext. exact Hn'.
      * apply Z.ltb_lt in Hwin.
        constructor; cbn [r0 set_packets_received set_received set_receiver_buffer
                          set_B_nextseqnum expected_seqnum receiver_buffer received].
        -- apply (wf_expected r Hr).
        -- rewrite length_insert. apply (wf_rbuffer r Hr).
        -- rewrite length_insert. apply (wf_received r Hr).
        -- intros i q Hi Hq.
           destruct (decide (Z.to_nat (Z.rem (seqnum p) WINDOWSIZE) = i)) as [<-|Hne].
           ++ rewrite list_lookup_insert_eq in Hq
                by (rewrite (wf_rbuffer r Hr); unfold WINDOWSIZE in *; lia).
              injection Hq as <-. split; [exact Hok|]. split; [reflexivity|exact Hwin].
           ++ rewrite list_lookup_insert_ne in Hi by assumption.
              rewrite list_lookup_insert_ne in Hq by assumption.
              exact (wf_marked r Hr i q Hi Hq).
Qed.

(** On any state on which it returns, the delivery loop appends
    [tolayer5] calls only and keeps the acknowledgment counter. *)
Lemma B_deliver_events fuel : forall r out r' out',
  B_deliver fuel r out = Continue r' out' ->
  exists ds, out' = out ++ map (tolayer5 B) ds /\ B_nextseqnum r' = B_nextseqnum r.
Proof.
  induction fuel as [|fuel IH]; intros r out r' out' H; [discriminate|].
  cbn [B_deliver] in H.
  destruct (load (received r) _) as [[|]|]; try discriminate.
  - destruct (load (receiver_buffer r) _) as [p|]; [|discriminate].
    destruct (store (received r) _ false) as [rcv|]; [|discriminate].
    apply IH in H as (ds & -> & Hn). exists (copy20 (payload p) :: ds).
    rewrite <- app_assoc. split; [reflexivity|exact Hn].
  - injection H as <- <-. exists []. rewrite app_nil_r. split; reflexivity.
Qed.

Lemma sent_by_tolayer5 who ds : sent_by who (map (tolayer5 B) ds) = [].
Proof. induction ds as [|d ds IH]; [reflexivity|]. destruct who; exact IH. Qed.

Lemma delivered_tolayer5 ds : delivered (map (tolayer5 B) ds) = ds.
Proof. induction ds as [|d ds IH]; [reflexivity|]. cbn. f_equal. exact IH. Qed.

(** X7. [B_input] acknowledges a frame exactly when the frame passes the
    integrity check and the window test.  Then it sends one packet,
    before any delivery: an acknowledgment that carries the frame's own
    sequence number as acknum, the current acknowledgment counter as
    seqnum, and a checksum that passes [IsCorrupted]; the counter
    toggles modulo 2.  Otherwise it makes no emulator call and changes
    nothing. *)
Theorem one_ack_per_accepted_frame (r : receiver) (p : pkt) (r' : receiver)
        (out : list event) :
  B_input r p = Continue r' out ->
  (IsCorrupted p = true \/ ~ in_receive_window r (seqnum p) ->
   out = [] /\ r' = r) /\
  (IsCorrupted p = false -> in_receive_window r (seqnum p) ->
   hd_error out = Some (tolayer3 B (B_make_ack (B_nextseqnum r) (seqnum p))) /\
   sent_by B out = [B_make_ack (B_nextseqnum r) (seqnum p)] /\
   sent_by A out = [] /\
   acknum (B_make_ack (B_nextseqnum r) (seqnum p)) = seqnum p /\
   seqnum (B_make_ack (B_nextseqnum r) (seqnum p)) = B_nextseqnum r /\
   IsCorrupted (B_make_ack (B_nextseqnum r) (seqnum p)) = false /\
   B_nextseqnum r' = Z.rem (CInt.add (B_nextseqnum r) 1) 2).
Proof.
  intros H. unfold B_input, in_receive_window in *. split.
  - intros [Hc|Hw].
    + rewrite Hc in H. injection H as <- <-. split; reflexivity.
    + destruct (IsCorrupted p); [injection H as <- <-; split; reflexivity|].
      destruct (Z.ltb_spec (mod_distance (seqnum p) (expected_seqnum r)) WINDOWSIZE);
        [contradiction|].
      injection H as <- <-. split; reflexivity.
  - intros Hc Hw. rewrite Hc in H.
    destruct (Z.ltb_spec (mod_distance (seqnum p) (expected_seqnum r)) WINDOWSIZE);
      [|lia].
    set (ackpkt := B_make_ack (B_nextseqnum r) (seqnum p)) in *.
    assert (exists ds, out = [tolayer3 B ackpkt] ++ map (tolayer5 B) ds /\
                       B_nextseqnum r' = Z.rem (CInt.add (B_nextseqnum r) 1) 2)
      as (ds & -> & Hn).
    { destruct (load (received _) _) as [[|]|]; try discriminate.
      - apply B_deliver_events in H as (ds & -> & Hn). eauto.
      - destruct (store (receiver_buffer _) _ p) as [buf|]; [|discriminate].
        destruct (store (received _) _ true) as [rcv|]; [|discriminate].
        apply B_deliver_events in H as (ds & -> & Hn). eauto. }
    split; [reflexivity|].
    split; [rewrite sent_by_app, sent_by_tolayer5; reflexivity|].
    split; [rewrite sent_by_app, sent_by_tolayer5; reflexivity|].
    split; [reflexivity|]. split; [reflexivity|].
    split; [apply B_make_ack_uncorrupted|exact Hn].
Qed.

Lemma one_ack_per_accepted_frame_witness :
  exists r' out,
    B_input (B_init receiver_zero) Scenario.frame3 = Continue r' out /\
    IsCorrupted Scenario.frame3 = false /\
    in_receive_window (B_init receiver_zero) (seqnum Scenario.frame3) /\
    sent_by B out = [B_make_ack 1 3].
Proof.
  eexists _, _.
  assert (B_input (B_init receiver_zero) Scenario.frame3 =
          Continue (B_state_after [Scenario.frame3]) [tolayer3 B (B_make_ack 1 3)])
    as E by (vm_compute; reflexivity).
  assert (IsCorrupted Scenario.frame3 = false) as Hc by reflexivity.
  assert (in_receive_window (B_init receiver_zero) (seqnum Scenario.frame3)) as Hw
      by (vm_compute; reflexivity).
  split; [exact E|]. split; [exact Hc|]. split; [exact Hw|].
  exact (proj1 (proj2 (proj2 (one_ack_per_accepted_frame _ _ _ _ E) Hc Hw))).
Defined.

(** X8. Between two calls of [B_input], on frames of the sequence space:
    expected_seqnum is in the sequence space, both arrays have their
    declared size, the mark of the slot of expected_seqnum is clear (a
    frame that can be delivered has been delivered), and the
    acknowledgment counter is 0 or 1. *)
Theorem receiver_state_invariant (r : receiver) :
  B_reachable r ->
  0 <= expected_seqnum r < SEQSPACE /\
  length (receiver_buffer r) = Z.to_nat WINDOWSIZE /\
  length (received r) = Z.to_nat WINDOWSIZE /\
  load (received r) (Z.rem (expected_seqnum r) WINDOWSIZE) = Some false /\
  (B_nextseqnum r = 0 \/ B_nextseqnum r = 1).
Proof.
  intros Hreach. pose proof (B_reachable_wf r Hreach) as Hr.
  destruct (B_reachable_clear r Hreach) as [Hclear Hn].
  split; [exact (wf_expected r Hr)|].
  split; [exact (wf_rbuffer r Hr)|].
  split; [exact (wf_received r Hr)|].
  split; assumption.
Qed.

Lemma receiver_state_invariant_witness :
  B_reachable (B_state_after Scenario.third_frame_last) /\
  load (received (B_state_after Scenario.third_frame_last))
       (Z.rem (expected_seqnum (B_state_after Scenario.third_frame_last)) WINDOWSIZE) =
  Some false.
Proof.
  assert (Forall frame_seq_ok Scenario.third_frame_last) as Hok.
  { repeat constructor; vm_compute; discriminate. }
  split; [exact (B_state_after_reachable _ Hok)|].
  apply (receiver_state_invariant (B_state_after Scenario.third_frame_last)
                                  (B_state_after_reachable _ Hok)).
Defined.

Lemma B_input_duplicate (r : receiver) (p : pkt) :
  B_reachable r ->
  IsCorrupted p = false -> in_receive_window r (seqnum p) ->
  load (received r) (Z.rem (seqnum p) WINDOWSIZE) = Some true ->
  B_input r p =
  Continue (set_B_nextseqnum r (Z.rem (CInt.add (B_nextseqnum r) 1) 2))
           [tolayer3 B (B_make_ack (B_nextseqnum r) (seqnum p))].
Proof.
  intros Hreach Hc Hw Hdup. destruct (B_reachable_clear r Hreach) as [Hclear _].
  unfold B_input, in_receive_window in *. rewrite Hc.
  destruct (Z.ltb_spec (mod_distance (seqnum p) (expected_seqnum r)) WINDOWSIZE);
    [|lia].
  cbn [set_B_nextseqnum received]. rewrite Hdup.
  unfold B_deliver_fuel. cbn [B_deliver set_B_nextseqnum received expected_seqnum].
  rewrite Hclear. reflexivity.
Qed.

(** X9. A frame of the window whose slot is already marked is treated as
    a duplicate: it is acknowledged again, but it is not stored, not
    counted in packets_received, and nothing is delivered; only the
    acknowledgment counter changes. *)
Theorem duplicate_frame_reacknowledged (r : receiver) (p : pkt) :
  B_reachable r ->
  IsCorrupted p = false -> in_receive_window r (seqnum p) ->
  load (received r) (Z.rem (seqnum p) WINDOWSIZE) = Some true ->
  B_input r p =
  Continue (set_B_nextseqnum r (Z.rem (CInt.add (B_nextseqnum r) 1) 2))
           [tolayer3 B (B_make_ack (B_nextseqnum r) (seqnum p))].
Proof.
  intros Hreach Hc Hw Hdup. exact (B_input_duplicate r p Hreach Hc Hw Hdup).
Qed.

Lemma duplicate_frame_reacknowledged_witness :
  B_reachable (B_state_after [A_make_pkt 1 (Scenario.m "b")]) /\
  IsCorrupted (A_make_pkt 1 (Scenario.m "b")) = false /\
  in_receive_window (B_state_after [A_make_pkt 1 (Scenario.m "b")])
                    (seqnum (A_make_pkt 1 (Scenario.m "b"))) /\
  load (received (B_state_after [A_make_pkt 1 (Scenario.m "b")]))
       (Z.rem (seqnum (A_make_pkt 1 (Scenario.m "b"))) WINDOWSIZE) = Some true /\
  B_input (B_state_after [A_make_pkt 1 (Scenario.m "b")])
          (A_make_pkt 1 (Scenario.m "b")) =
  Continue (set_B_nextseqnum (B_state_after [A_make_pkt 1 (Scenario.m "b")]) 1)
           [tolayer3 B (B_make_ack 0 1)].
Proof.
  assert (Forall frame_seq_ok [A_make_pkt 1 (Scenario.m "b")]) as Hok.
  { repeat constructor; vm_compute; discriminate. }
  assert (IsCorrupted (A_make_pkt 1 (Scenario.m "b")) = false) as Hc
      by apply A_make_pkt_uncorrupted.
  assert (in_receive_window (B_state_after [A_make_pkt 1 (Scenario.m "b")])
                            (seqnum (A_make_pkt 1 (Scenario.m "b")))) as Hw
      by (vm_compute; reflexivity).
  split; [exact (B_state_after_reachable _ Hok)|].
  split; [exact Hc|]. split; [exact Hw|]. split; [reflexivity|].
  exact (duplicate_frame_reacknowledged _ _ (B_state_after_reachable _ Hok) Hc Hw
                                        eq_refl).
Defined.

(** Storing a new in-window frame keeps the receiver's invariant. *)
Lemma B_store_wf r p n count :
  B_wf r -> frame_seq_ok p -> in_receive_window r (seqnum p) ->
  B_wf (set_packets_received
          (set_received
             (set_receiver_buffer (set_B_nextseqnum r n)
                (<[Z.to_nat (Z.rem (seqnum p) WINDOWSIZE) := p]> (receiver_buffer r)))
             (<[Z.to_nat (Z.rem (seqnum p) WINDOWSIZE) := true]> (received r)))
          count).
Proof.
  intros Hr Hok Hwin.
  pose proof (rem_window (seqnum p) (proj1 Hok)) as Hidx.
  constructor; cbn [set_packets_received set_received set_receiver_buffer
                    set_B_nextseqnum expected_seqnum receiver_buffer received].
  - apply (wf_expected r Hr).
  - rewrite length_insert. apply (wf_rbuffer r Hr).
  - rewrite length_insert. apply (wf_received r Hr).
  - intros i q Hi Hq.
    destruct (decide (Z.to_nat (Z.rem (seqnum p) WINDOWSIZE) = i)) as [<-|Hne].
    + rewrite list_lookup_insert_eq in Hq
        by (rewrite (wf_rbuffer r Hr); unfold WINDOWSIZE in *; lia).
      injection Hq as <-. split; [exact Hok|]. split; [reflexivity|exact Hwin].
    + rewrite list_lookup_insert_ne in Hi by assumption.
      rewrite list_lookup_insert_ne in Hq by assumption.
      exact (wf_marked r Hr i q Hi Hq).
Qed.

(** X10. One call of [B_input] hands at most WINDOWSIZE payloads to the
    application and advances expected_seqnum by exactly their number.
    It delivers at all only when the arriving frame goes into the slot
    of expected_seqnum, and the first payload it delivers is then the
    one of that frame. *)
Theorem delivery_burst (r : receiver) (p : pkt) :
  B_reachable r -> frame_seq_ok p ->
  exists r' out,
    B_input r p = Continue r' out /\
    (length (delivered out) <= Z.to_nat WINDOWSIZE)%nat /\
    expected_seqnum r' =
    (expected_seqnum r + Z.of_nat (length (delivered out))) mod SEQSPACE /\
    (delivered out = [] \/
     (Z.rem (seqnum p) WINDOWSIZE = Z.rem (expected_seqnum r) WINDOWSIZE /\
      exists rest, delivered out = copy20 (payload p) :: rest)).
Proof.
  intros Hreach Hok. pose proof (B_reachable_wf r Hreach) as Hr.
  destruct (B_reachable_clear r Hreach) as [Hclear _].
  pose proof (wf_expected r Hr) as He.
  assert (expected_seqnum r = (expected_seqnum r + Z.of_nat 0) mod SEQSPACE) as Hsame
      by (rewrite Z.add_0_r; symmetry; apply Z.mod_small; exact He).
  destruct (B_input_spec r p Hr Hok) as (r' & out & E & _).
  exists r', out. split; [exact E|].
  unfold B_input in E.
  destruct (IsCorrupted p) eqn:Hc.
  { injection E as <- <-. cbn. repeat split; try lia; try assumption. left; reflexivity. }
  destruct (Z.ltb_spec (mod_distance (seqnum p) (expected_seqnum r)) WINDOWSIZE)
    as [Hwin|_].
  2:{ injection E as <- <-. cbn. repeat split; try lia; try assumption.
      left; reflexivity. }
  pose proof (rem_window (seqnum p) (proj1 Hok)) as Hidx.
  pose proof (rem_window (expected_seqnum r) (proj1 He)) as Hidx'.
  cbn [set_B_nextseqnum received receiver_buffer] in E.
  destruct (load (received r) (Z.rem (seqnum p) WINDOWSIZE)) as [[|]|] eqn:Hl;
    try discriminate.
  - (* duplicate *)
    unfold B_deliver_fuel in E.
    cbn [B_deliver set_B_nextseqnum received expected_seqnum] in E.
    rewrite Hclear in E. injection E as <- <-.
    cbn. repeat split; try lia; try assumption. left; reflexivity.
  - (* new frame *)
    rewrite !store_in_bounds in E
      by (rewrite ?(wf_rbuffer r Hr), ?(wf_received r Hr); unfold WINDOWSIZE in *; lia).
    pose proof (B_store_wf r p (Z.rem (CInt.add (B_nextseqnum r) 1) 2)
                  (CInt.add (packets_received r) 1) Hr Hok Hwin) as Hr1.
    cbn [set_B_nextseqnum packets_received] in E.
    set (r1 := set_packets_received _ _) in *.
    pose proof E as E'.
    apply B_deliver_trace in E as (ds & -> & Hcnt & Hexp & _ & _ & _ & _ & _ & Hhd);
      [|exact Hr1].
    rewrite delivered_app, delivered_tolayer5.
    change (delivered [tolayer3 B (B_make_ack (B_nextseqnum r) (seqnum p))])
      with (@nil (list byte)).
    cbn [app].
    split.
    { pose proof (count_true_le (received r1)) as Hle.
      cbn [r1 set_packets_received set_received received] in Hle, Hcnt.
      rewrite length_insert, (wf_received r Hr) in Hle.
      cbn [r1 set_packets_received set_received received] in Hcnt.
      unfold WINDOWSIZE. lia. }
    split; [exact Hexp|].
    destruct (Z.eq_dec (Z.rem (seqnum p) WINDOWSIZE)
                       (Z.rem (expected_seqnum r) WINDOWSIZE)) as [Eslot|Nslot].
    + destruct (Hhd p) as [->|[rest ->]].
      * cbn [r1 set_packets_received set_received set_receiver_buffer
             set_B_nextseqnum receiver_buffer expected_seqnum].
        rewrite <- Eslot. apply load_store_same.
        rewrite (wf_rbuffer r Hr). unfold WINDOWSIZE in *. lia.
      * left; reflexivity.
      * right. split; [exact Eslot|]. exists rest. reflexivity.
    + left. unfold B_deliver_fuel in E'.
      cbn [B_deliver r1 set_packets_received set_received set_receiver_buffer
           set_B_nextseqnum received expected_seqnum] in E'.
      rewrite load_store_other in E' by (try assumption; lia).
      rewrite Hclear in E'. injection E' as _ Hout.
      apply (f_equal (@length event)) in Hout.
      destruct ds; [reflexivity|]. cbn [app map length] in Hout. lia.
Qed.

Lemma delivery_burst_witness :
  B_reachable (B_state_after [A_make_pkt 1 (Scenario.m "b")]) /\
  frame_seq_ok (A_make_pkt 0 (Scenario.m "a")) /\
  exists r' out,
    B_input (B_state_after [A_make_pkt 1 (Scenario.m "b")])
            (A_make_pkt 0 (Scenario.m "a")) = Continue r' out /\
    (length (delivered out) <= Z.to_nat WINDOWSIZE)%nat /\
    expected_seqnum r' =
    (expected_seqnum (B_state_after [A_make_pkt 1 (Scenario.m "b")]) +
     Z.of_nat (length (delivered out))) mod SEQSPACE /\
    (delivered out = [] \/
     (Z.rem (seqnum (A_make_pkt 0 (Scenario.m "a"))) WINDOWSIZE =
      Z.rem (expected_seqnum (B_state_after [A_make_pkt 1 (Scenario.m "b")]))
            WINDOWSIZE /\
      exists rest,
        delivered out = copy20 (payload (A_make_pkt 0 (Scenario.m "a"))) :: rest)).
Proof.
  assert (Forall frame_seq_ok [A_make_pkt 1 (Scenario.m "b")]) as Hok.
  { repeat constructor; vm_compute; discriminate. }
  assert (frame_seq_ok (A_make_pkt 0 (Scenario.m "a"))) as Hok0.
  { unfold frame_seq_ok, SEQSPACE. cbn [seqnum A_make_pkt set_checksum]. lia. }
  split; [exact (B_state_after_reachable _ Hok)|]. split; [exact Hok0|].
  exact (delivery_burst _ _ (B_state_after_reachable _ Hok) Hok0).
Defined.

(** ** In-order delivery while the sequence numbers do not wrap *)

Lemma char_at_copy20 l i : (i < PAYLOAD_LEN)%nat -> char_at (copy20 l) i = char_at l i.
Proof.
  intros Hi. unfold char_at at 1, copy20.
  rewrite nth_lookup, list_lookup_fmap, lookup_seq_lt by exact Hi. reflexivity.
Qed.

Lemma copy20_copy20 l : copy20 (copy20 l) = copy20 l.
Proof.
  unfold copy20 at 1 3. apply map_ext_in. intros i Hi.
  apply in_seq in Hi. apply char_at_copy20. lia.
Qed.

Lemma frames_from_lookup msgs : forall n i,
  frames_from n msgs !! i = A_make_pkt (Z.of_nat (n + i)) <$> msgs !! i.
Proof.
  induction msgs as [|message msgs IH]; intros n [|i]; cbn; try reflexivity.
  - rewrite Nat.add_0_r. reflexivity.
  - rewrite IH. do 3 f_equal. lia.
Qed.

Lemma frames_from_length msgs : forall n, length (frames_from n msgs) = length msgs.
Proof. induction msgs as [|message msgs IH]; intros n; cbn; [|rewrite IH]; reflexivity. Qed.

Lemma frames_from_elem msgs p :
  p ∈ frames_from 0 msgs <->
  exists (i : nat) message, msgs !! i = Some message /\ p = A_make_pkt (Z.of_nat i) message.
Proof.
  rewrite list_elem_of_lookup. split.
  - intros [i Hi]. rewrite frames_from_lookup in Hi.
    destruct (msgs !! i) as [message|] eqn:E; [|discriminate].
    injection Hi as <-. exists i, message. split; [exact E|reflexivity].
  - intros (i & message & Hm & ->). exists i. rewrite frames_from_lookup, Hm.
    reflexivity.
Qed.

Lemma A_make_pkt_seq_inj a b m1 m2 : A_make_pkt a m1 = A_make_pkt b m2 -> a = b.
Proof.
  intros H. apply (f_equal seqnum) in H.
  cbn [seqnum A_make_pkt set_checksum] in H. exact H.
Qed.

Lemma frames_from_NoDup msgs : NoDup (frames_from 0 msgs).
Proof.
  apply NoDup_alt. intros i j p Hi Hj.
  rewrite frames_from_lookup in Hi, Hj.
  destruct (msgs !! i) as [m1|]; [|discriminate].
  destruct (msgs !! j) as [m2|]; [|discriminate].
  cbn [fmap option_fmap option_map] in Hi, Hj. rewrite <- Hj in Hi.
  apply (inj Some) in Hi. apply A_make_pkt_seq_inj in Hi. lia.
Qed.

(** The sender hands exactly these frames to the channel. *)
Lemma A_run_frames msgs : forall s out0 (n : nat),
  A_wf s -> base s = 0 -> next_seqnum s = Z.of_nat n ->
  (n + length msgs <= 6)%nat ->
  exists s' out,
    A_run s out0 (map submit msgs) = Continue s' (out0 ++ out) /\
    sent_by A out = frames_from n msgs.
Proof.
  induction msgs as [|message msgs IH]; intros s out0 n Hwf Hb Hn Hlen.
  - exists s, []. rewrite app_nil_r. split; reflexivity.
  - cbn [length] in Hlen.
    destruct (A_output_cases s message Hwf) as (_ & Hroom & _).
    destruct Hroom as (s1 & E & _ & _ & _ & _ & _ & Hn1 & Hb1 & _).
    { rewrite Hb, Hn. unfold SEQSPACE, WINDOWSIZE. euclid. }
    assert (A_wf s1) as Hwf1 by exact (A_output_wf _ _ _ _ Hwf E).
    destruct (IH s1 (out0 ++ tolayer3 A (A_make_pkt (next_seqnum s) message)
                          :: (if base s =? next_seqnum s then [starttimer A RTT] else []))
                 (S n) Hwf1) as (s' & out & Hrun & Hsent);
      [congruence| |lia|].
    { rewrite Hn1, Hn. unfold SEQSPACE. euclid. }
    eexists s', (_ :: _ ++ out).
    cbn [map A_run A_step]. rewrite E, Hrun.
    split; [rewrite <- app_assoc; reflexivity|].
    cbn [frames_from]. rewrite <- Hsent, <- Hn.
    destruct (base s =? next_seqnum s); reflexivity.
Qed.

Lemma payloads_of_lookup msgs (i : nat) message :
  msgs !! i = Some message -> payloads_of msgs !! i = Some (copy20 (data message)).
Proof. intros H. unfold payloads_of. rewrite list_lookup_fmap, H. reflexivity. Qed.

Lemma payload_A_make_pkt seq message :
  payload (A_make_pkt seq message) = copy20 (data message).
Proof. reflexivity. Qed.

(** The delivery loop on a state of the first window: it delivers the
    payloads of the messages from the old to the new expected_seqnum. *)
Lemma B_deliver_first_window msgs got fuel : forall r out r' out',
  (length msgs <= 6)%nat ->
  first_window_inv msgs got r ->
  B_deliver fuel r out = Continue r' out' ->
  exists ds,
    out' = out ++ map (tolayer5 B) ds /\
    first_window_inv msgs got r' /\
    load (received r') (Z.rem (expected_seqnum r') WINDOWSIZE) = Some false /\
    take (Z.to_nat (expected_seqnum r')) (payloads_of msgs) =
    take (Z.to_nat (expected_seqnum r)) (payloads_of msgs) ++ ds.
Proof.
  induction fuel as [|fuel IH]; intros r out r' out' Hlen Hinv H; [discriminate|].
  cbn [B_deliver] in H.
  destruct (load (received r) _) as [[|]|] eqn:Hl; try discriminate.
  - destruct (load (receiver_buffer r) _) as [p|] eqn:Hp; [|discriminate].
    destruct (store (received r) _ false) as [rcv|] eqn:Hst; [|discriminate].
    apply store_Some in Hst as [Hin ->].
    pose proof (fw_expected _ _ _ Hinv) as He.
    apply load_Some in Hl as [_ Hl]. apply load_Some in Hp as [_ Hp].
    destruct (fw_marked _ _ _ Hinv _ Hl) as (message & Hm & Hgot & Hge & Hbuf).
    assert (Z.rem (expected_seqnum r) WINDOWSIZE = expected_seqnum r) as Hslot.
    { rewrite Z2Nat.id in Hge by lia. unfold WINDOWSIZE in *. euclid. }
    rewrite Hslot in *.
    assert (p = A_make_pkt (expected_seqnum r) message) as ->.
    { rewrite Hp in Hbuf. apply (inj Some) in Hbuf. rewrite Hbuf.
      rewrite Z2Nat.id by lia. reflexivity. }
    pose proof (lookup_lt_Some _ _ _ Hm) as Hlt.
    assert (Z.rem (CInt.add (expected_seqnum r) 1) SEQSPACE = expected_seqnum r + 1)
      as Hnext.
    { destruct (next_in_space (expected_seqnum r)) as [-> _];
        unfold SEQSPACE in *; [lia|]. apply Z.mod_small. lia. }
    apply IH in H as (ds & -> & Hinv' & Hclear & Htake); [|exact Hlen|].
    + exists (copy20 (data message) :: ds).
      rewrite payload_A_make_pkt, copy20_copy20, <- app_assoc.
      split; [reflexivity|]. split; [exact Hinv'|]. split; [exact Hclear|].
      rewrite Htake. cbn [set_expected_seqnum expected_seqnum]. rewrite Hnext.
      replace (Z.to_nat (expected_seqnum r + 1))
        with (S (Z.to_nat (expected_seqnum r))) by lia.
      rewrite (take_S_r _ _ _ (payloads_of_lookup _ _ _ Hm)), <- app_assoc.
      reflexivity.
    + pose proof (B_deliver_step_wf r (fw_wf _ _ _ Hinv)) as Hwf'.
      rewrite Hslot, Hnext in Hwf'.
      constructor; cbn [set_expected_seqnum set_received expected_seqnum
                        receiver_buffer received]; rewrite ?Hnext.
      * exact Hwf'.
      * lia.
      * intros i m' Hi Hm'.
        destruct (decide (i = Z.to_nat (expected_seqnum r))) as [->|Hne].
        -- assert (m' = message) as -> by congruence.
           exact Hgot.
        -- apply (fw_below _ _ _ Hinv); [lia|exact Hm'].
      * intros i Hi.
        destruct (decide (Z.to_nat (expected_seqnum r) = i)) as [<-|Hne].
        { rewrite list_lookup_insert_eq in Hi by lia. discriminate. }
        rewrite list_lookup_insert_ne in Hi by assumption.
        destruct (fw_marked _ _ _ Hinv _ Hi) as (m' & Hm' & Hg' & Hge' & Hb').
        exists m'. repeat split; try assumption. lia.
      * intros i m' Hm' Hg' Hge'.
        rewrite list_lookup_insert_ne by lia.
        apply (fw_got _ _ _ Hinv i m'); [assumption|assumption|lia].
  - injection H as <- <-. exists []. rewrite !app_nil_r.
    split; [reflexivity|]. split; [exact Hinv|]. split; [exact Hl|reflexivity].
Qed.

(** The arrival of a frame of the first window that has not arrived
    before. *)
Lemma B_input_first_window msgs got r (j : nat) message p :
  p = A_make_pkt (Z.of_nat j) message ->
  (length msgs <= 6)%nat ->
  first_window_inv msgs got r ->
  load (received r) (Z.rem (expected_seqnum r) WINDOWSIZE) = Some false ->
  msgs !! j = Some message ->
  p ∉ got ->
  exists r' out,
    B_input r p = Continue r' out /\
    first_window_inv msgs (p :: got) r' /\
    load (received r') (Z.rem (expected_seqnum r') WINDOWSIZE) = Some false /\
    take (Z.to_nat (expected_seqnum r')) (payloads_of msgs) =
    take (Z.to_nat (expected_seqnum r)) (payloads_of msgs) ++ delivered out.
Proof.
  intros Hp Hlen Hinv Hclear Hm Hnew.
  pose proof (lookup_lt_Some _ _ _ Hm) as Hj.
  pose proof (fw_expected _ _ _ Hinv) as He.
  pose proof (fw_wf _ _ _ Hinv) as Hwf.
  assert (seqnum p = Z.of_nat j) as Hseq by (rewrite Hp; reflexivity).
  assert (IsCorrupted p = false) as Hcorr
      by (rewrite Hp; apply A_make_pkt_uncorrupted).
  assert (frame_seq_ok p) as Hok by (unfold frame_seq_ok, SEQSPACE; lia).
  assert (expected_seqnum r <= Z.of_nat j) as Hge.
  { destruct (Z.le_gt_cases (expected_seqnum r) (Z.of_nat j)) as [|Hlt]; [assumption|].
    exfalso. apply Hnew. rewrite Hp. exact (fw_below _ _ _ Hinv j message Hlt Hm). }
  assert (in_receive_window r (seqnum p)) as Hwin.
  { unfold in_receive_window. rewrite Hseq.
    rewrite mod_distance_mod by (unfold SEQSPACE; lia).
    unfold SEQSPACE, WINDOWSIZE. euclid. }
  assert (Z.rem (seqnum p) WINDOWSIZE = Z.of_nat j) as Hslot.
  { rewrite Hseq. unfold WINDOWSIZE. euclid. }
  destruct (B_input_spec r p Hwf Hok) as (r' & out & E & _).
  exists r', out. split; [exact E|].
  unfold B_input in E. rewrite Hcorr in E.
  unfold in_receive_window in Hwin.
  destruct (Z.ltb_spec (mod_distance (seqnum p) (expected_seqnum r)) WINDOWSIZE);
    [|lia].
  rewrite Hslot in E. cbn [set_B_nextseqnum received receiver_buffer packets_received] in E.
  destruct (load (received r) (Z.of_nat j)) as [[|]|] eqn:Hl; try discriminate.
  { exfalso. apply load_Some in Hl as [_ Hl]. rewrite Nat2Z.id in Hl.
    destruct (fw_marked _ _ _ Hinv _ Hl) as (m' & Hm' & Hg' & _).
    apply Hnew. rewrite Hp. assert (m' = message) as <- by congruence. exact Hg'. }
  destruct (store (receiver_buffer r) _ p) as [buf|] eqn:Hs1; [|discriminate].
  destruct (store (received r) _ true) as [rcv|] eqn:Hs2; [|discriminate].
  apply store_Some in Hs1 as [Hin1 ->]. apply store_Some in Hs2 as [Hin2 ->].
  rewrite Nat2Z.id in E.
  apply B_deliver_first_window with (msgs := msgs) (got := p :: got) in E
    as (ds & -> & Hinv' & Hclear' & Htake); [|exact Hlen|].
  - split; [exact Hinv'|]. split; [exact Hclear'|].
    rewrite delivered_app, delivered_tolayer5. exact Htake.
  - pose proof (B_store_wf r p (Z.rem (CInt.add (B_nextseqnum r) 1) 2)
                  (CInt.add (packets_received r) 1) Hwf Hok Hwin) as Hwf'.
    rewrite Hslot, Nat2Z.id in Hwf'.
    constructor; cbn [set_packets_received set_received set_receiver_buffer
                      set_B_nextseqnum expected_seqnum receiver_buffer received].
    + exact Hwf'.
    + exact He.
    + intros i m' Hi Hm'. apply list_elem_of_further.
      exact (fw_below _ _ _ Hinv i m' Hi Hm').
    + intros i Hi.
      destruct (decide (j = i)) as [<-|Hne].
      * exists message. rewrite <- Hp.
        split; [exact Hm|]. split; [apply list_elem_of_here|].
        split; [exact Hge|]. apply list_lookup_insert_eq. lia.
      * rewrite list_lookup_insert_ne in Hi by assumption.
        destruct (fw_marked _ _ _ Hinv _ Hi) as (m' & Hm' & Hg' & Hge' & Hb').
        exists m'. split; [exact Hm'|]. split; [apply list_elem_of_further, Hg'|].
        split; [exact Hge'|]. rewrite list_lookup_insert_ne by assumption. exact Hb'.
    + intros i m' Hm' Hg' Hge'.
      destruct (decide (j = i)) as [<-|Hne].
      * apply list_lookup_insert_eq. lia.
      * rewrite list_lookup_insert_ne by assumption.
        apply (fw_got _ _ _ Hinv i m' Hm'); [|exact Hge'].
        apply elem_of_cons in Hg' as [Heq|Hg']; [|exact Hg'].
        exfalso. apply Hne. rewrite Hp in Heq. apply A_make_pkt_seq_inj in Heq. lia.
Qed.

Lemma B_run_first_window msgs :
  (length msgs <= 6)%nat ->
  forall rest got r out,
    first_window_inv msgs got r ->
    load (received r) (Z.rem (expected_seqnum r) WINDOWSIZE) = Some false ->
    delivered out = take (Z.to_nat (expected_seqnum r)) (payloads_of msgs) ->
    NoDup rest ->
    (forall p, p ∈ rest -> p ∉ got) ->
    (forall p, p ∈ rest -> p ∈ frames_from 0 msgs) ->
    exists r' out' got',
      B_run r out rest = Continue r' out' /\
      (forall q, q ∈ got' <-> q ∈ rest \/ q ∈ got) /\
      first_window_inv msgs got' r' /\
      load (received r') (Z.rem (expected_seqnum r') WINDOWSIZE) = Some false /\
      delivered out' = take (Z.to_nat (expected_seqnum r')) (payloads_of msgs).
Proof.
  intros Hlen. induction rest as [|p rest IH];
    intros got r out Hinv Hclear Hdel Hnodup Hfresh Hframes.
  - exists r, out, got. split; [reflexivity|].
    split; [|split; [exact Hinv|split; [exact Hclear|exact Hdel]]].
    intros q. rewrite elem_of_nil. tauto.
  - apply NoDup_cons in Hnodup as [Hp_rest Hnodup].
    destruct (proj1 (frames_from_elem msgs p) (Hframes p (list_elem_of_here _ _)))
      as (j & message & Hm & Hp).
    destruct (B_input_first_window msgs got r j message p Hp Hlen Hinv Hclear Hm
                (Hfresh p (list_elem_of_here _ _)))
      as (r1 & out1 & E & Hinv1 & Hclear1 & Htake1).
    destruct (IH (p :: got) r1 (out ++ out1) Hinv1 Hclear1) as
        (r' & out' & got' & Hrun & Hgot' & Hinv' & Hclear' & Hdel'); try assumption.
    + rewrite delivered_app, Hdel. symmetry. exact Htake1.
    + intros q Hq. apply not_elem_of_cons. split.
      * intros ->. exact (Hp_rest Hq).
      * apply Hfresh. apply list_elem_of_further, Hq.
    + intros q Hq. apply Hframes. apply list_elem_of_further, Hq.
    + exists r', out', got'. cbn [B_run]. rewrite E.
      split; [exact Hrun|]. split; [|split; [exact Hinv'|split; assumption]].
      intros q. rewrite Hgot', !elem_of_cons. tauto.
Qed.

Lemma first_window_inv_init msgs : first_window_inv msgs [] (B_init receiver_zero).
Proof.
  constructor.
  - exact B_wf_init.
  - cbn. lia.
  - intros i message Hi. cbn in Hi. lia.
  - intros i Hi. cbn in Hi. repeat (destruct i as [|i]; try discriminate).
  - intros i message _ Hin. apply elem_of_nil in Hin. contradiction.
Qed.

(** X11. Up to WINDOWSIZE messages submitted to a fresh sender are all
    accepted and framed with the sequence numbers 0, 1, ...; when each
    of these frames reaches a fresh receiver exactly once, in whatever
    order, the receiver hands the payloads to the application in
    submission order, all of them, none twice, and ends with
    expected_seqnum at their number. *)
Theorem first_window_in_order (msgs : list msg) :
  (length msgs <= 6)%nat ->
  exists s outA,
    A_run (A_init sender_zero) [] (map submit msgs) = Continue s outA /\
    sent_by A outA = frames_from 0 msgs /\
    forall arrivals,
      Permutation arrivals (sent_by A outA) ->
      exists r outB,
        B_run (B_init receiver_zero) [] arrivals = Continue r outB /\
        delivered outB = payloads_of msgs /\
        expected_seqnum r = Z.of_nat (length msgs).
Proof.
  intros Hlen.
  destruct (A_run_frames msgs (A_init sender_zero) [] 0 A_wf_init eq_refl eq_refl Hlen)
    as (s & outA & Hrun & Hsent).
  exists s, outA. split; [exact Hrun|]. split; [exact Hsent|].
  intros arrivals Hperm. rewrite Hsent in Hperm.
  destruct (B_run_first_window msgs Hlen arrivals [] (B_init receiver_zero) []
              (first_window_inv_init msgs) eq_refl eq_refl)
    as (r & outB & got & HrunB & Hgot & Hinv & Hclear & Hdel).
  { rewrite Hperm. apply frames_from_NoDup. }
  { intros p _ Hin. apply elem_of_nil in Hin. contradiction. }
  { intros p Hp. rewrite <- Hperm. exact Hp. }
  exists r, outB. split; [exact HrunB|].
  pose proof (fw_expected _ _ _ Hinv) as He.
  assert (expected_seqnum r = Z.of_nat (length msgs)) as Hend.
  { destruct (Z.eq_dec (expected_seqnum r) (Z.of_nat (length msgs))) as [|Hne];
      [assumption|exfalso].
    destruct (lookup_lt_is_Some_2 msgs (Z.to_nat (expected_seqnum r))) as [message Hm];
      [lia|].
    assert (A_make_pkt (Z.of_nat (Z.to_nat (expected_seqnum r))) message ∈ got) as Hin.
    { apply Hgot. left. rewrite Hperm. apply frames_from_elem. eauto. }
    pose proof (fw_got _ _ _ Hinv _ _ Hm Hin ltac:(lia)) as Hmark.
    apply load_Some in Hclear as [_ Hclear].
    replace (Z.rem (expected_seqnum r) WINDOWSIZE) with (expected_seqnum r) in Hclear
      by (unfold WINDOWSIZE; euclid).
    congruence. }
  split; [|exact Hend].
  rewrite Hdel, Hend, Nat2Z.id. apply firstn_all2.
  unfold payloads_of. rewrite length_map. lia.
Qed.

Lemma first_window_in_order_witness :
  (length [Scenario.m "a"; Scenario.m "b"; Scenario.m "c"] <= 6)%nat /\
  exists s outA,
    A_run (A_init sender_zero) []
          (map submit [Scenario.m "a"; Scenario.m "b"; Scenario.m "c"]) =
    Continue s outA /\
    sent_by A outA =
    frames_from 0 [Scenario.m "a"; Scenario.m "b"; Scenario.m "c"] /\
    forall arrivals,
      Permutation arrivals (sent_by A outA) ->
      exists r outB,
        B_run (B_init receiver_zero) [] arrivals = Continue r outB /\
        delivered outB =
        payloads_of [Scenario.m "a"; Scenario.m "b"; Scenario.m "c"] /\
        expected_seqnum r =
        Z.of_nat (length [Scenario.m "a"; Scenario.m "b"; Scenario.m "c"]).
Proof.
  assert (length [Scenario.m "a"; Scenario.m "b"; Scenario.m "c"] <= 6)%nat as H
      by (cbn; lia).
  split; [exact H|].
  exact (first_window_in_order [Scenario.m "a"; Scenario.m "b"; Scenario.m "c"] H).
Defined.

(* ================================================================== *)
(** * Properties of the first version in the file *)

Module GBN_facts.
Import GBN.

(** ** Ring arithmetic *)

Lemma slot_range s i : 0 <= slot s i < WINDOWSIZE.
Proof. unfold slot, WINDOWSIZE. euclid. Qed.

Lemma slot_rem s i :
  0 <= windowfirst s < WINDOWSIZE -> 0 <= i <= WINDOWSIZE ->
  Z.rem (CInt.add (windowfirst s) i) WINDOWSIZE = slot s i.
Proof.
  unfold slot, WINDOWSIZE, CInt.add. intros Hf Hi.
  rewrite wrap_small by (unfold CInt.in_range, CInt.INT_MIN, CInt.INT_MAX; lia).
  euclid.
Qed.

Lemma slot_inj s i j :
  0 <= i < WINDOWSIZE -> 0 <= j < WINDOWSIZE -> slot s i = slot s j -> i = j.
Proof. unfold slot, WINDOWSIZE. intros Hi Hj H. euclid. Qed.

Lemma slot_0 s : 0 <= windowfirst s < WINDOWSIZE -> slot s 0 = windowfirst s.
Proof. unfold slot, WINDOWSIZE. intros H. euclid. Qed.

Lemma slot_shift first i :
  ((first + 1) mod WINDOWSIZE + i) mod WINDOWSIZE = (first + (i + 1)) mod WINDOWSIZE.
Proof.
  rewrite Z.add_mod_idemp_l by (unfold WINDOWSIZE; lia). f_equal. lia.
Qed.

Lemma seq_shift next count i :
  ((next + 1) mod SEQSPACE - (count + 1) + i) mod SEQSPACE =
  (next - count + i) mod SEQSPACE.
Proof.
  replace ((next + 1) mod SEQSPACE - (count + 1) + i)
    with ((next + 1) mod SEQSPACE + (i - count - 1)) by lia.
  rewrite Z.add_mod_idemp_l by (unfold SEQSPACE; lia). f_equal. lia.
Qed.

Lemma int_small x : -10 <= x <= 10 -> CInt.wrap x = x.
Proof.
  intros H. apply wrap_small.
  unfold CInt.in_range, CInt.INT_MIN, CInt.INT_MAX. lia.
Qed.

(** ** The sender's invariant *)

Lemma v1_A_wf_init : A_wf (A_init sender_zero).
Proof.
  split.
  - constructor; cbn; try reflexivity; try (unfold WINDOWSIZE, SEQSPACE; lia).
  - intros idx H. exfalso. apply load_Some in H as [H0 H]. cbn in H.
    generalize dependent (Z.to_nat idx). intros n H.
    do 7 (destruct n as [|n]; try discriminate).
Qed.

(** The slide loop returns, restores the invariant from a state in
    which the first frame of the window may be marked, and touches only
    [acked], [windowfirst] and [windowcount]. *)
Lemma v1_A_slide_spec fuel : forall s,
  A_ring s -> marks_within s 0 -> (Z.to_nat (windowcount s) < fuel)%nat ->
  exists s',
    A_slide fuel s = Continue s' [] /\ A_wf s' /\
    0 <= windowcount s' <= windowcount s /\
    buffer s' = buffer s /\ windowlast s' = windowlast s /\
    A_nextseqnum s' = A_nextseqnum s /\ window_full s' = window_full s /\
    total_ACKs_received s' = total_ACKs_received s /\ new_ACKs s' = new_ACKs s /\
    packets_resent s' = packets_resent s /\
    (windowcount s' = windowcount s -> s' = s) /\
    (0 < windowcount s -> load (acked s) (windowfirst s) = Some true ->
     windowcount s' < windowcount s).
Proof.
  induction fuel as [|fuel IH]; intros s Hring Hmarks Hfuel; [lia|].
  pose proof (ring_count s Hring) as Hc. pose proof (ring_first s Hring) as Hf.
  cbn [A_slide]. destruct (Z.ltb_spec 0 (windowcount s)) as [Hpos|Hzero].
  2:{ exists s. split; [reflexivity|]. split; [|repeat split; lia].
      split; [exact Hring|]. intros idx H.
      destruct (Hmarks idx H) as (i & Hi & _). lia. }
  destruct (load_in_bounds (acked s) (windowfirst s)) as [b Hb];
    [rewrite (ring_acked s Hring); unfold WINDOWSIZE in *; lia|].
  rewrite Hb. destruct b.
  - rewrite store_in_bounds
      by (rewrite (ring_acked s Hring); unfold WINDOWSIZE in *; lia).
    set (s1 := set_windowcount _ _).
    assert (windowfirst s1 = (windowfirst s + 1) mod WINDOWSIZE) as Hf1.
    { cbn. unfold CInt.add. rewrite int_small by (unfold WINDOWSIZE in *; lia).
      unfold WINDOWSIZE in *. euclid. }
    assert (windowcount s1 = windowcount s - 1) as Hc1.
    { cbn. unfold CInt.sub. apply int_small. unfold WINDOWSIZE in *. lia. }
    assert (forall i, slot s1 i = slot s (i + 1)) as Hslot.
    { intros i. unfold slot. rewrite Hf1. apply slot_shift. }
    destruct (IH s1)
      as (s' & E & Hwf & Hcount & Hb' & Hl' & Hn' & Hw' & Ht' & Ha' & Hp' & _).
    + destruct Hring as [_ _ Hl Hlr Hn Hbuf Hack Hframes].
      constructor; try (cbn; assumption).
      * lia.
      * rewrite Hf1. unfold WINDOWSIZE. euclid.
      * rewrite Hslot, Hc1. cbn [s1 set_windowcount set_windowfirst set_acked windowlast].
        rewrite Hl. f_equal. lia.
      * cbn. rewrite length_insert. exact Hack.
      * intros i Hi. rewrite Hslot, Hc1.
        destruct (Hframes (i + 1)) as (p & Hp & Hseq); [lia|].
        exists p. split; [exact Hp|]. rewrite Hseq. cbn. f_equal. lia.
    + intros idx H. cbn [s1 set_windowcount set_windowfirst set_acked acked] in H.
      destruct (Z.eq_dec idx (windowfirst s)) as [->|Hne].
      { rewrite load_store_same in H
          by (rewrite (ring_acked s Hring); unfold WINDOWSIZE in *; lia).
        discriminate. }
      assert (0 <= idx) as Hidx by (apply load_Some in H; tauto).
      rewrite load_store_other in H by lia.
      destruct (Hmarks idx H) as (i & Hi & ->).
      assert (i <> 0) as Hi0 by (intros ->; apply Hne, slot_0, Hf).
      exists (i - 1). split; [lia|]. rewrite Hslot. f_equal. lia.
    + lia.
    + exists s'. split; [exact E|]. split; [exact Hwf|]. split; [lia|].
      repeat (split; [assumption|]). split; intros; lia.
  - exists s. split; [reflexivity|]. split; [|repeat split; try lia; congruence].
    split; [exact Hring|]. intros idx H.
    destruct (Hmarks idx H) as (i & Hi & ->).
    assert (i <> 0) as Hi0.
    { intros ->. rewrite slot_0 in H by exact Hf. congruence. }
    exists i. split; [lia|reflexivity].
Qed.

Lemma v1_A_output_wf s message s' out :
  A_wf s -> A_output s message = Continue s' out -> A_wf s'.
Proof.
  intros [Hring Hmarks] H. unfold A_output in H.
  pose proof (ring_count s Hring) as Hc. pose proof (ring_first s Hring) as Hf.
  pose proof (ring_last_range s Hring) as Hlr. pose proof (ring_next s Hring) as Hn.
  destruct (Z.ltb_spec (windowcount s) WINDOWSIZE) as [Hroom|Hfull].
  2:{ injection H as <- <-. split; [destruct Hring; constructor; assumption|exact Hmarks]. }
  assert (Z.rem (CInt.add (windowlast s) 1) WINDOWSIZE = slot s (windowcount s)) as Hlast.
  { rewrite <- (ring_last s Hring). unfold CInt.add.
    rewrite int_small by (unfold WINDOWSIZE in *; lia). unfold WINDOWSIZE in *. euclid. }
  rewrite Hlast in H. pose proof (slot_range s (windowcount s)) as Hsr.
  rewrite !store_in_bounds in H
    by (rewrite ?(ring_buffer s Hring), ?(ring_acked s Hring); unfold WINDOWSIZE in *; lia).
  injection H as <- <-.
  set (s1 := set_A_nextseqnum _ _).
  assert (windowcount s1 = windowcount s + 1) as Hc1.
  { cbn. unfold CInt.add. apply int_small. unfold WINDOWSIZE in *. lia. }
  assert (A_nextseqnum s1 = (A_nextseqnum s + 1) mod SEQSPACE) as Hn1.
  { cbn. apply next_in_space. exact Hn. }
  assert (forall i, slot s1 i = slot s i) as Hslot by reflexivity.
  split.
  - destruct Hring as [_ _ Hl _ _ Hbuf Hack Hframes].
    constructor.
    + lia.
    + exact Hf.
    + rewrite Hslot, Hc1. cbn [s1 set_A_nextseqnum set_windowcount set_acked set_buffer
                               set_windowlast windowlast].
      unfold slot. rewrite Z.add_mod_idemp_l by (unfold WINDOWSIZE; lia).
      f_equal. lia.
    + cbn. unfold WINDOWSIZE in *. lia.
    + rewrite Hn1. unfold SEQSPACE. euclid.
    + cbn. rewrite length_insert. exact Hbuf.
    + cbn. rewrite length_insert. exact Hack.
    + intros i Hi. rewrite Hslot, Hc1, Hn1, seq_shift.
      cbn [s1 set_A_nextseqnum set_windowcount set_acked set_buffer set_windowlast buffer].
      destruct (Z.eq_dec i (windowcount s)) as [->|Hne].
      * exists (A_make_pkt (A_nextseqnum s) message).
        split; [apply load_store_same; rewrite Hbuf; unfold WINDOWSIZE in *; lia|].
        replace (A_nextseqnum s - windowcount s + windowcount s) with (A_nextseqnum s) by lia.
        rewrite Z.mod_small by exact Hn. reflexivity.
      * destruct (Hframes i) as (p & Hp & Hseq); [lia|].
        exists p. split; [|exact Hseq].
        pose proof (slot_range s i).
        rewrite load_store_other; [exact Hp|lia|lia|].
        intros E. apply Hne. symmetry.
        apply (slot_inj s); [unfold WINDOWSIZE in *; lia..|exact E].
  - intros idx H.
    cbn [s1 set_A_nextseqnum set_windowcount set_acked set_buffer set_windowlast acked] in H.
    destruct (Z.eq_dec idx (slot s (windowcount s))) as [->|Hne].
    { rewrite load_store_same in H
        by (rewrite (ring_acked s Hring); unfold WINDOWSIZE in *; lia).
      discriminate. }
    assert (0 <= idx) as Hidx by (apply load_Some in H; tauto).
    rewrite load_store_other in H by lia.
    destruct (Hmarks idx H) as (i & Hi & ->).
    exists i. split; [lia|reflexivity].
Qed.

(** The search loop of [A_input] returns and keeps the invariant.  When
    it makes emulator calls at all, these are [stoptimer] followed by
    [starttimer] iff frames remain in the window. *)
Lemma A_find_spec packet fuel : forall i s,
  A_wf s -> 0 <= i <= windowcount s ->
  (Z.to_nat (windowcount s - i) < fuel)%nat ->
  exists s' out,
    A_find fuel i s packet = Continue s' out /\ A_wf s' /\
    buffer s' = buffer s /\ A_nextseqnum s' = A_nextseqnum s /\
    windowlast s' = windowlast s /\ packets_resent s' = packets_resent s /\
    window_full s' = window_full s /\
    ((out = [] /\ s' = s) \/
     (out = stoptimer A :: (if 0 <? windowcount s' then [starttimer A RTT] else []) /\
      windowcount s' <= windowcount s /\
      exists j p, i <= j < windowcount s /\
                  load (buffer s) (slot s j) = Some p /\ seqnum p = acknum packet /\
                  load (acked s) (slot s j) = Some false /\
                  (j = 0 -> windowcount s' < windowcount s) /\
                  (0 < j -> windowcount s' = windowcount s /\
                            windowfirst s' = windowfirst s /\
                            acked s' = <[Z.to_nat (slot s j) := true]> (acked s)))).
Proof.
  induction fuel as [|fuel IH]; intros i s Hwf Hi Hfuel; [lia|].
  destruct Hwf as [Hring Hmarks].
  pose proof (ring_count s Hring) as Hc. pose proof (ring_first s Hring) as Hf.
  cbn [A_find]. destruct (Z.ltb_spec i (windowcount s)) as [Hlt|Hge].
  2:{ exists s, []. split; [reflexivity|]. split; [split; assumption|].
      repeat split. left. split; reflexivity. }
  rewrite slot_rem by (unfold WINDOWSIZE in *; lia).
  pose proof (slot_range s i) as Hsr.
  destruct (ring_frames s Hring i) as (p & Hp & Hseq); [lia|].
  rewrite Hp. destruct (Z.eqb_spec (seqnum p) (acknum packet)) as [Heq|Hneq].
  - destruct (load_in_bounds (acked s) (slot s i)) as [b Hb];
      [rewrite (ring_acked s Hring); unfold WINDOWSIZE in *; lia|].
    rewrite Hb. destruct b.
    + exists s, []. split; [reflexivity|]. split; [split; assumption|].
      repeat split. left. split; reflexivity.
    + rewrite store_in_bounds
        by (rewrite (ring_acked s Hring); unfold WINDOWSIZE in *; lia).
      set (s1 := set_acked _ _).
      destruct (v1_A_slide_spec (window_fuel s1) s1)
        as (s' & E & Hwf' & Hcount & Hbuf & Hlast & Hnext & Hfull & _ & _ & Hres &
            Hsame & Hshrink).
      * destruct Hring as [? ? ? ? ? ? Hack ?].
        constructor; try assumption. cbn. rewrite length_insert. exact Hack.
      * change (forall idx, load (acked s1) idx = Some true ->
                            exists k, 0 <= k < windowcount s /\ idx = slot s k).
        intros idx H. cbn [s1 set_acked set_new_ACKs acked] in H.
        destruct (Z.eq_dec idx (slot s i)) as [->|Hne].
        { exists i. split; [lia|reflexivity]. }
        assert (0 <= idx) as Hidx by (apply load_Some in H; tauto).
        rewrite load_store_other in H by lia.
        destruct (Hmarks idx H) as (k & Hk & ->).
        exists k. split; [lia|reflexivity].
      * unfold window_fuel. change (windowcount s1) with (windowcount s). lia.
      * rewrite E. exists s'. eexists. split; [reflexivity|].
        split; [exact Hwf'|]. repeat split; try assumption.
        right. split; [reflexivity|]. split; [exact (proj2 Hcount)|].
        exists i, p. split; [lia|]. do 3 (split; [assumption|]). split.
        -- intros ->. apply Hshrink; [exact Hlt|].
           change (load (<[Z.to_nat (slot s 0) := true]> (acked s)) (windowfirst s)
                   = Some true).
           rewrite <- (slot_0 s Hf) at 1. apply load_store_same.
           rewrite (ring_acked s Hring). unfold WINDOWSIZE in *. lia.
        -- intros Hpos.
           assert (load (acked s1) (windowfirst s1) = Some false) as Hfirst.
           { change (load (<[Z.to_nat (slot s i) := true]> (acked s)) (windowfirst s)
                     = Some false).
             rewrite load_store_other; [|lia|lia|].
             - destruct (load_in_bounds (acked s) (windowfirst s)) as [[] Hb0];
                 [rewrite (ring_acked s Hring); unfold WINDOWSIZE in *; lia| |exact Hb0].
               destruct (Hmarks _ Hb0) as (k & Hk & Ek).
               rewrite <- (slot_0 s Hf) in Ek.
               apply slot_inj in Ek; unfold WINDOWSIZE in *; lia.
             - rewrite <- (slot_0 s Hf). intros Ek.
               apply slot_inj in Ek; unfold WINDOWSIZE in *; lia. }
           assert (s' = s1) as ->.
           { unfold window_fuel in E. cbn [A_slide] in E. rewrite Hfirst in E.
             destruct (0 <? windowcount s1); congruence. }
           repeat split.
  - unfold CInt.add at 1. rewrite int_small by (unfold WINDOWSIZE in *; lia).
    destruct (IH (i + 1) s (conj Hring Hmarks)) as (s' & out & E & Hwf' & Hb & Hn & Hl & Hp' & Hw & Hcase);
      [lia|lia|].
    exists s', out. split; [exact E|]. split; [exact Hwf'|].
    repeat split; try assumption.
    destruct Hcase as [Hnone|(Hout & Hle & j & q & Hj & Hq)]; [left; exact Hnone|].
    right. split; [exact Hout|]. split; [exact Hle|].
    exists j, q. split; [lia|exact Hq].
Qed.

Lemma A_input_spec s packet :
  A_wf s ->
  exists s' out,
    A_input s packet = Continue s' out /\ A_wf s' /\
    buffer s' = buffer s /\ A_nextseqnum s' = A_nextseqnum s /\
    windowlast s' = windowlast s /\ packets_resent s' = packets_resent s /\
    window_full s' = window_full s /\
    ((out = [] /\ acked s' = acked s /\ windowfirst s' = windowfirst s /\
      windowcount s' = windowcount s) \/
     (out = stoptimer A :: (if 0 <? windowcount s' then [starttimer A RTT] else []) /\
      windowcount s' <= windowcount s /\
      IsCorrupted packet = false /\
      exists j p, 0 <= j < windowcount s /\
                  load (buffer s) (slot s j) = Some p /\ seqnum p = acknum packet /\
                  load (acked s) (slot s j) = Some false /\
                  (j = 0 -> windowcount s' < windowcount s) /\
                  (0 < j -> windowcount s' = windowcount s /\
                            windowfirst s' = windowfirst s /\
                            acked s' = <[Z.to_nat (slot s j) := true]> (acked s)))).
Proof.
  intros Hwf. unfold A_input.
  destruct (IsCorrupted packet) eqn:Hc; cbn [negb].
  { exists s, []. split; [reflexivity|]. split; [exact Hwf|].
    repeat split. left. repeat split. }
  set (s0 := set_total_ACKs_received s _).
  assert (A_wf s0) as Hwf0.
  { destruct Hwf as [Hring Hmarks]. split; [|exact Hmarks].
    destruct Hring. constructor; assumption. }
  destruct (A_find_spec packet (window_fuel s0) 0 s0 Hwf0)
    as (s' & out & E & Hwf' & Hb & Hn & Hl & Hp & Hw & Hcase).
  { pose proof (ring_count s0 (proj1 Hwf0)). lia. }
  { unfold window_fuel. lia. }
  exists s', out. split; [exact E|]. split; [exact Hwf'|].
  repeat split; try assumption.
  destruct Hcase as [[-> ->]|(Hout & Hle & j & p & Hj & Hq)].
  - left. repeat split.
  - right. split; [exact Hout|]. split; [exact Hle|]. split; [reflexivity|].
    exists j, p. exact (conj Hj Hq).
Qed.

(** The loop of [A_timerinterrupt] from position [i] with [n] frames to
    go: it hands the unmarked ones to the channel, in order, and changes
    no variable of the protocol. *)
Lemma A_resend_spec fuel : forall (n i : nat) s out,
  A_ring s -> Z.of_nat i + Z.of_nat n = windowcount s -> (n < fuel)%nat ->
  exists s',
    A_resend fuel (Z.of_nat i) s out =
    Continue s'
      (out ++ map (tolayer3 A)
                  (omap (fun k : nat =>
                           match load (acked s) (slot s (Z.of_nat k)) with
                           | Some false => load (buffer s) (slot s (Z.of_nat k))
                           | _ => None
                           end) (seq i n))) /\
    s' = set_packets_resent s (packets_resent s').
Proof.
  induction fuel as [|fuel IH]; intros n i s out Hring Hsum Hfuel; [lia|].
  pose proof (ring_count s Hring) as Hc. pose proof (ring_first s Hring) as Hf.
  cbn [A_resend]. destruct n as [|n].
  - destruct (Z.ltb_spec (Z.of_nat i) (windowcount s)); [lia|].
    exists s. cbn. rewrite app_nil_r. split; [reflexivity|]. destruct s; reflexivity.
  - destruct (Z.ltb_spec (Z.of_nat i) (windowcount s)); [|lia].
    rewrite slot_rem by (unfold WINDOWSIZE in *; lia).
    pose proof (slot_range s (Z.of_nat i)) as Hsr.
    destruct (load_in_bounds (acked s) (slot s (Z.of_nat i))) as [b Hb];
      [rewrite (ring_acked s Hring); unfold WINDOWSIZE in *; lia|].
    destruct (load_in_bounds (buffer s) (slot s (Z.of_nat i))) as [p Hp];
      [rewrite (ring_buffer s Hring); unfold WINDOWSIZE in *; lia|].
    assert (CInt.add (Z.of_nat i) 1 = Z.of_nat (S i)) as ->.
    { unfold CInt.add. rewrite int_small by (unfold WINDOWSIZE in *; lia). lia. }
    cbn [seq omap list_omap]. rewrite Hb. destruct b.
    + apply IH; [exact Hring|lia|lia].
    + rewrite Hp. cbn [map].
      destruct (IH n (S i) (set_packets_resent s (CInt.add (packets_resent s) 1))
                   (out ++ [tolayer3 A p])) as (s' & E & Hs');
        [destruct Hring; constructor; assumption|cbn; lia|lia|].
      exists s'. rewrite E, <- app_assoc. split; [reflexivity|].
      rewrite Hs' at 1. reflexivity.
Qed.

Lemma A_timerinterrupt_spec s :
  A_wf s ->
  exists s',
    A_timerinterrupt s =
    Continue s' (map (tolayer3 A) (unacked_frames s) ++ [starttimer A RTT]) /\
    s' = set_packets_resent s (packets_resent s').
Proof.
  intros [Hring _]. pose proof (ring_count s Hring) as Hc.
  destruct (A_resend_spec (window_fuel s) (Z.to_nat (windowcount s)) 0 s [] Hring)
    as (s' & E & Hs'); [lia|unfold window_fuel; lia|].
  exists s'. unfold A_timerinterrupt.
  change (Z.of_nat 0) with 0 in E. rewrite E. split; [reflexivity|exact Hs'].
Qed.

Lemma v1_A_step_wf s e s' out : A_wf s -> A_step s e = Continue s' out -> A_wf s'.
Proof.
  intros Hwf H. destruct e as [message|packet|]; cbn [A_step] in H.
  - exact (v1_A_output_wf _ _ _ _ Hwf H).
  - destruct (A_input_spec s packet Hwf) as (s1 & out1 & E & Hwf1 & _). congruence.
  - destruct (A_timerinterrupt_spec s Hwf) as (s1 & E & Hs1).
    assert (s' = s1) as -> by congruence.
    rewrite Hs1. destruct Hwf as [Hring Hmarks]. split; [|exact Hmarks].
    destruct Hring. constructor; assumption.
Qed.

Lemma v1_A_reachable_wf s : A_reachable s -> A_wf s.
Proof.
  induction 1 as [|s e s' out _ IH Hstep]; [exact v1_A_wf_init|].
  exact (v1_A_step_wf _ _ _ _ IH Hstep).
Qed.

Lemma v1_A_run_reachable es : forall s out s' out',
  A_reachable s -> A_run s out es = Continue s' out' -> A_reachable s'.
Proof.
  induction es as [|e es IH]; intros s out s' out' Hs H; cbn [A_run] in H.
  - injection H as <- _. exact Hs.
  - destruct (A_step s e) as [s1 out1| | |] eqn:E; try discriminate.
    exact (IH _ _ _ _ (A_reachable_step _ _ _ _ Hs E) H).
Qed.

Lemma v1_A_state_after_reachable es : A_reachable (A_state_after es).
Proof.
  unfold A_state_after.
  destruct (A_run (A_init sender_zero) [] es) as [s out| | |] eqn:E;
    try exact A_reachable_init.
  exact (v1_A_run_reachable es _ _ _ _ A_reachable_init E).
Qed.

Lemma A_output_spec s message :
  A_wf s ->
  (windowcount s < WINDOWSIZE ->
   exists s',
     A_output s message =
     Continue s' (tolayer3 A (A_make_pkt (A_nextseqnum s) message) ::
                  (if windowcount s =? 0 then [starttimer A RTT] else [])) /\
     windowcount s' = windowcount s + 1 /\
     windowfirst s' = windowfirst s /\
     A_nextseqnum s' = (A_nextseqnum s + 1) mod SEQSPACE /\
     load (buffer s') (slot s (windowcount s)) =
     Some (A_make_pkt (A_nextseqnum s) message) /\
     load (acked s') (slot s (windowcount s)) = Some false) /\
  (windowcount s = WINDOWSIZE ->
   A_output s message =
   Continue (set_window_full s (CInt.add (window_full s) 1)) []).
Proof.
  intros [Hring Hmarks].
  pose proof (ring_count s Hring) as Hc. pose proof (ring_first s Hring) as Hf.
  pose proof (ring_last_range s Hring) as Hlr. pose proof (ring_next s Hring) as Hn.
  split; intros Hcount; unfold A_output.
  - destruct (Z.ltb_spec (windowcount s) WINDOWSIZE) as [_|Hfull]; [|lia].
    assert (Z.rem (CInt.add (windowlast s) 1) WINDOWSIZE = slot s (windowcount s)) as ->.
    { rewrite <- (ring_last s Hring). unfold CInt.add.
      rewrite int_small by (unfold WINDOWSIZE in *; lia). unfold WINDOWSIZE in *. euclid. }
    pose proof (slot_range s (windowcount s)) as Hsr.
    rewrite !store_in_bounds
      by (rewrite ?(ring_buffer s Hring), ?(ring_acked s Hring); unfold WINDOWSIZE in *; lia).
    assert (CInt.add (windowcount s) 1 = windowcount s + 1) as Hc1.
    { unfold CInt.add. apply int_small. unfold WINDOWSIZE in *. lia. }
    eexists. split; [|split; [|split; [|split; [|split]]]].
    + rewrite Hc1. f_equal. f_equal.
      destruct (Z.eqb_spec (windowcount s + 1) 1), (Z.eqb_spec (windowcount s) 0);
        try reflexivity; lia.
    + reflexivity.
    + reflexivity.
    + apply next_in_space, Hn.
    + apply load_store_same. rewrite (ring_buffer s Hring). unfold WINDOWSIZE in *. lia.
    + apply load_store_same. rewrite (ring_acked s Hring). unfold WINDOWSIZE in *. lia.
  - destruct (Z.ltb_spec (windowcount s) WINDOWSIZE) as [Hroom|_]; [lia|reflexivity].
Qed.

Lemma timer_checked_frames pending frames rest :
  timer_checked pending (map (tolayer3 A) frames ++ rest) = timer_checked pending rest.
Proof. induction frames as [|p frames IH]; [reflexivity|exact IH]. Qed.

(** ** The sender of the first version *)

(** X12. Between two calls of the first version's sender the ring is
    consistent: [windowcount] is between 0 and WINDOWSIZE, the window's
    frames sit in consecutive slots from [windowfirst], their sequence
    numbers are consecutive, differ from one another and end just before
    [A_nextseqnum]; only frames behind the oldest one are marked
    acknowledged, so the slot of the oldest is clear. *)
Theorem ring_window_invariant (s : sender) :
  A_reachable s ->
  0 <= windowcount s <= WINDOWSIZE /\
  0 <= windowfirst s < WINDOWSIZE /\
  0 <= A_nextseqnum s < SEQSPACE /\
  (forall i, 0 <= i < windowcount s ->
     exists p, load (buffer s) (slot s i) = Some p /\
               seqnum p = (A_nextseqnum s - windowcount s + i) mod SEQSPACE) /\
  (forall i j p q, 0 <= i < j -> j < windowcount s ->
     load (buffer s) (slot s i) = Some p -> load (buffer s) (slot s j) = Some q ->
     seqnum p <> seqnum q) /\
  (forall idx, load (acked s) idx = Some true ->
     exists i, 1 <= i < windowcount s /\ idx = slot s i) /\
  load (acked s) (windowfirst s) = Some false.
Proof.
  intros Hs. destruct (v1_A_reachable_wf s Hs) as [Hring Hmarks].
  pose proof (ring_count s Hring) as Hc. pose proof (ring_first s Hring) as Hf.
  split; [exact Hc|]. split; [exact Hf|]. split; [exact (ring_next s Hring)|].
  split; [exact (ring_frames s Hring)|]. split; [|split; [exact Hmarks|]].
  - intros i j p q Hi Hj Hp Hq.
    destruct (ring_frames s Hring i) as (p' & Hp' & Hsp); [lia|].
    destruct (ring_frames s Hring j) as (q' & Hq' & Hsq); [lia|].
    assert (p' = p) as -> by congruence. assert (q' = q) as -> by congruence.
    rewrite Hsp, Hsq. unfold SEQSPACE, WINDOWSIZE in *. euclid.
  - destruct (load_in_bounds (acked s) (windowfirst s)) as [[] Hb];
      [rewrite (ring_acked s Hring); unfold WINDOWSIZE in *; lia| |exact Hb].
    destruct (Hmarks _ Hb) as (k & Hk & Ek).
    rewrite <- (slot_0 s Hf) in Ek.
    apply slot_inj in Ek; unfold WINDOWSIZE in *; lia.
Qed.

Lemma ring_window_invariant_witness :
  A_reachable (A_state_after [submit (Scenario.m "a"); submit (Scenario.m "b");
                              on_ack (Scenario.ack 1); on_timeout]) /\
  load (acked (A_state_after [submit (Scenario.m "a"); submit (Scenario.m "b");
                              on_ack (Scenario.ack 1); on_timeout]))
       (windowfirst (A_state_after [submit (Scenario.m "a"); submit (Scenario.m "b");
                                    on_ack (Scenario.ack 1); on_timeout])) = Some false.
Proof.
  split; [apply v1_A_state_after_reachable|].
  apply (ring_window_invariant _ (v1_A_state_after_reachable _)).
Defined.

(** X13. [A_input] of the first version always returns and never hands
    a packet to the channel.  A damaged packet changes nothing.  Either
    it makes no emulator call and leaves the window as it was, or the
    packet is intact and acknowledges a frame of the window that was not
    yet marked: then the timer is stopped and started again exactly when
    frames remain in the window.  The window moves exactly when that
    frame is the oldest one; an acknowledgment of a later frame only
    marks it. *)
Theorem window_slides_on_oldest_ack (s : sender) (packet : pkt) :
  A_reachable s ->
  exists s' out,
    A_input s packet = Continue s' out /\
    buffer s' = buffer s /\ A_nextseqnum s' = A_nextseqnum s /\
    windowlast s' = windowlast s /\ packets_resent s' = packets_resent s /\
    (IsCorrupted packet = true -> s' = s /\ out = []) /\
    ((out = [] /\ acked s' = acked s /\ windowfirst s' = windowfirst s /\
      windowcount s' = windowcount s) \/
     (out = stoptimer A :: (if 0 <? windowcount s' then [starttimer A RTT] else []) /\
      IsCorrupted packet = false /\
      exists j p, 0 <= j < windowcount s /\
                  load (buffer s) (slot s j) = Some p /\ seqnum p = acknum packet /\
                  load (acked s) (slot s j) = Some false /\
                  (j = 0 -> windowcount s' < windowcount s) /\
                  (0 < j -> windowcount s' = windowcount s /\
                            windowfirst s' = windowfirst s /\
                            acked s' = <[Z.to_nat (slot s j) := true]> (acked s)))).
Proof.
  intros Hs.
  destruct (A_input_spec s packet (v1_A_reachable_wf s Hs))
    as (s' & out & E & _ & Hb & Hn & Hl & Hp & _ & Hcase).
  exists s', out. split; [exact E|]. do 4 (split; [assumption|]). split.
  - intros Hc. unfold A_input in E. rewrite Hc in E. cbn [negb] in E.
    injection E as <- <-. split; reflexivity.
  - destruct Hcase as [Hnone|(Hout & _ & Hfound)]; [left; exact Hnone|].
    right. split; [exact Hout|exact Hfound].
Qed.

Lemma window_slides_on_oldest_ack_witness :
  A_reachable (A_state_after [submit (Scenario.m "a"); submit (Scenario.m "b")]) /\
  exists s' out,
    A_input (A_state_after [submit (Scenario.m "a"); submit (Scenario.m "b")])
            (Scenario.ack 0) = Continue s' out /\
    buffer s' = buffer (A_state_after [submit (Scenario.m "a"); submit (Scenario.m "b")]).
Proof.
  split; [apply v1_A_state_after_reachable|].
  destruct (window_slides_on_oldest_ack
              (A_state_after [submit (Scenario.m "a"); submit (Scenario.m "b")])
              (Scenario.ack 0) (v1_A_state_after_reachable _))
    as (s' & out & E & Hb & _).
  exists s', out. split; [exact E|exact Hb].
Defined.

(** X14. [A_timerinterrupt] of the first version always returns: it
    hands the frames of the window that are not marked acknowledged to
    the channel, oldest first, then starts the timer, and changes no
    variable but the counter [packets_resent].  When the window is not
    empty the first frame handed over is the oldest one. *)
Theorem timeout_resends_unacked_in_order (s : sender) :
  A_reachable s ->
  exists s',
    A_timerinterrupt s =
    Continue s' (map (tolayer3 A) (unacked_frames s) ++ [starttimer A RTT]) /\
    s' = set_packets_resent s (packets_resent s') /\
    (0 < windowcount s ->
     exists p rest,
       unacked_frames s = p :: rest /\
       load (buffer s) (windowfirst s) = Some p /\
       seqnum p = (A_nextseqnum s - windowcount s) mod SEQSPACE).
Proof.
  intros Hs. pose proof (v1_A_reachable_wf s Hs) as Hwf.
  destruct (A_timerinterrupt_spec s Hwf) as (s' & E & Hs').
  exists s'. split; [exact E|]. split; [exact Hs'|].
  intros Hpos. destruct Hwf as [Hring Hmarks].
  pose proof (ring_count s Hring) as Hc. pose proof (ring_first s Hring) as Hf.
  destruct (ring_frames s Hring 0) as (p & Hp & Hseq); [lia|].
  assert (load (acked s) (slot s 0) = Some false) as Hb.
  { destruct (load_in_bounds (acked s) (slot s 0)) as [[] Hb];
      [pose proof (slot_range s 0); rewrite (ring_acked s Hring);
       unfold WINDOWSIZE in *; lia| |exact Hb].
    destruct (Hmarks _ Hb) as (k & Hk & Ek).
    apply slot_inj in Ek; unfold WINDOWSIZE in *; lia. }
  unfold unacked_frames.
  destruct (Z.to_nat (windowcount s)) as [|n] eqn:En; [lia|].
  cbn [seq omap list_omap]. change (Z.of_nat 0) with 0. rewrite Hb, Hp.
  exists p. eexists. split; [reflexivity|].
  rewrite <- (slot_0 s Hf) at 1. split; [exact Hp|].
  rewrite Hseq. f_equal. lia.
Qed.

Lemma timeout_resends_unacked_in_order_witness :
  A_reachable (A_state_after [submit (Scenario.m "a"); submit (Scenario.m "b");
                              submit (Scenario.m "c"); on_ack (Scenario.ack 1)]) /\
  exists s',
    A_timerinterrupt
      (A_state_after [submit (Scenario.m "a"); submit (Scenario.m "b");
                      submit (Scenario.m "c"); on_ack (Scenario.ack 1)]) =
    Continue s' [tolayer3 A (A_make_pkt 0 (Scenario.m "a"));
                 tolayer3 A (A_make_pkt 2 (Scenario.m "c"));
                 starttimer A RTT].
Proof.
  split; [apply v1_A_state_after_reachable|].
  destruct (timeout_resends_unacked_in_order
              (A_state_after [submit (Scenario.m "a"); submit (Scenario.m "b");
                              submit (Scenario.m "c"); on_ack (Scenario.ack 1)])
              (v1_A_state_after_reachable _))
    as (s' & E & _).
  exists s'. exact E.
Defined.

(** X15. [A_output] of the first version always returns.  With room in
    the window it hands exactly one frame to the channel, carrying
    [A_nextseqnum], stores it unmarked in the slot behind the window,
    lets the window grow by one and [A_nextseqnum] advance modulo
    SEQSPACE, and starts the timer exactly when the window was empty.
    With six frames in the window it makes no emulator call and changes
    only the counter [window_full]. *)
Theorem full_ring_refuses_message (s : sender) (message : msg) :
  A_reachable s ->
  (windowcount s < WINDOWSIZE ->
   exists s',
     A_output s message =
     Continue s' (tolayer3 A (A_make_pkt (A_nextseqnum s) message) ::
                  (if windowcount s =? 0 then [starttimer A RTT] else [])) /\
     windowcount s' = windowcount s + 1 /\
     windowfirst s' = windowfirst s /\
     A_nextseqnum s' = (A_nextseqnum s + 1) mod SEQSPACE /\
     load (buffer s') (slot s (windowcount s)) =
     Some (A_make_pkt (A_nextseqnum s) message) /\
     load (acked s') (slot s (windowcount s)) = Some false) /\
  (windowcount s = WINDOWSIZE ->
   A_output s message =
   Continue (set_window_full s (CInt.add (window_full s) 1)) []).
Proof. intros Hs. exact (A_output_spec s message (v1_A_reachable_wf s Hs)). Qed.

Lemma full_ring_refuses_message_witness :
  A_reachable (A_state_after (repeat (submit (Scenario.m "a")) 6)) /\
  windowcount (A_state_after (repeat (submit (Scenario.m "a")) 6)) = WINDOWSIZE /\
  A_output (A_state_after (repeat (submit (Scenario.m "a")) 6)) (Scenario.m "b") =
  Continue (set_window_full (A_state_after (repeat (submit (Scenario.m "a")) 6))
              (CInt.add (window_full (A_state_after (repeat (submit (Scenario.m "a")) 6))) 1))
           [].
Proof.
  split; [apply v1_A_state_after_reachable|]. split; [reflexivity|].
  apply (full_ring_refuses_message _ (Scenario.m "b") (v1_A_state_after_reachable _)).
  reflexivity.
Defined.

(** X16. The first version never starts a running timer and never stops
    an idle one, and its timer is pending exactly while frames are in
    the window: if that holds when an entry point is called, a timeout
    being the pending timer going off, the calls the entry point makes
    are all legal and it holds again afterwards. *)
Theorem timer_pending_iff_window_nonempty (s : sender) (e : A_event) (pending : bool) :
  A_reachable s ->
  pending = (0 <? windowcount s) ->
  (e = on_timeout -> pending = true) ->
  exists s' out,
    A_step s e = Continue s' out /\
    timer_checked (pending_at_entry pending e) out = Some (0 <? windowcount s').
Proof.
  intros Hs Hpending Hfire. pose proof (v1_A_reachable_wf s Hs) as Hwf.
  pose proof (ring_count s (proj1 Hwf)) as Hc.
  destruct e as [message|packet|]; cbn [A_step pending_at_entry].
  - destruct (A_output_spec s message Hwf) as [Hroom Hfull].
    destruct (Z.eq_dec (windowcount s) WINDOWSIZE) as [Hsix|Hless].
    + rewrite (Hfull Hsix). eexists _, _. split; [reflexivity|].
      cbn [timer_checked set_window_full windowcount]. congruence.
    + destruct Hroom as (s' & E & Hc' & _); [lia|].
      rewrite E. exists s'. eexists. split; [reflexivity|].
      rewrite Hc', Hpending.
      destruct (Z.eqb_spec (windowcount s) 0) as [Hz|Hnz].
      * rewrite Hz. reflexivity.
      * cbn [timer_checked].
        destruct (Z.ltb_spec 0 (windowcount s)); [|lia].
        destruct (Z.ltb_spec 0 (windowcount s + 1)); [reflexivity|lia].
  - destruct (A_input_spec s packet Hwf)
      as (s' & out & E & _ & _ & _ & _ & _ & _ & Hcase).
    exists s', out. split; [exact E|].
    destruct Hcase as [(-> & _ & _ & ->)|(-> & _ & _ & j & p & Hj & _)].
    + cbn [timer_checked]. congruence.
    + rewrite Hpending. destruct (Z.ltb_spec 0 (windowcount s)); [|lia].
      cbn [timer_checked]. destruct (0 <? windowcount s'); reflexivity.
  - destruct (A_timerinterrupt_spec s Hwf) as (s' & E & Hs').
    exists s'. eexists. split; [exact E|].
    rewrite timer_checked_frames. cbn [timer_checked].
    rewrite Hs'. cbn [set_packets_resent windowcount].
    rewrite <- Hpending, Hfire; reflexivity.
Qed.

Lemma timer_pending_iff_window_nonempty_witness :
  A_reachable (A_state_after [submit (Scenario.m "a"); submit (Scenario.m "b")]) /\
  exists s' out,
    A_step (A_state_after [submit (Scenario.m "a"); submit (Scenario.m "b")])
           (on_ack (Scenario.ack 0)) = Continue s' out /\
    timer_checked true out = Some (0 <? windowcount s').
Proof.
  split; [apply v1_A_state_after_reachable|].
  apply (timer_pending_iff_window_nonempty
           (A_state_after [submit (Scenario.m "a"); submit (Scenario.m "b")])
           (on_ack (Scenario.ack 0)) true (v1_A_state_after_reachable _)).
  - reflexivity.
  - discriminate.
Defined.

(** ** The receiver of the first version *)

Lemma v1_B_wf_init : B_wf (B_init receiver_zero).
Proof.
  split; [constructor; cbn; try reflexivity; unfold SEQSPACE; lia|reflexivity].
Qed.

Lemma v1_B_deliver_spec fuel : forall r out,
  B_shape r -> (count_true (rcvd r) < fuel)%nat ->
  exists r' ds,
    B_deliver fuel r out = Continue r' (out ++ map (tolayer5 B) ds) /\
    B_wf r' /\ B_nextseqnum r' = B_nextseqnum r /\
    (forall p, load (rcvd r) (Z.rem (expectedseqnum r) WINDOWSIZE) = Some true ->
               load (rbuffer r) (Z.rem (expectedseqnum r) WINDOWSIZE) = Some p ->
               exists rest, ds = copy20 (payload p) :: rest).
Proof.
  induction fuel as [|fuel IH]; intros r out Hr Hfuel; [lia|].
  pose proof (shape_expected r Hr) as He.
  pose proof (rem_window (expectedseqnum r)) as Hidx.
  assert (0 <= Z.rem (expectedseqnum r) WINDOWSIZE < 6) as Hidx6
      by (unfold WINDOWSIZE in *; lia).
  destruct (load_in_bounds (rcvd r) (Z.rem (expectedseqnum r) WINDOWSIZE))
    as [b Hb]; [rewrite (shape_rcvd r Hr); lia|].
  destruct (load_in_bounds (rbuffer r) (Z.rem (expectedseqnum r) WINDOWSIZE))
    as [p Hp]; [rewrite (shape_rbuffer r Hr); lia|].
  cbn [B_deliver]. rewrite Hb. destruct b.
  - rewrite Hp. rewrite store_in_bounds by (rewrite (shape_rcvd r Hr); lia).
    set (r1 := set_expectedseqnum _ _).
    destruct (IH r1 (out ++ [tolayer5 B (copy20 (payload p))]))
      as (r' & ds & E & Hwf & Hnext & _).
    + destruct Hr as [_ Hn Hbuf Hflags]. constructor.
      * apply next_in_space, He.
      * exact Hn.
      * exact Hbuf.
      * cbn. rewrite length_insert. exact Hflags.
    + cbn [r1 set_expectedseqnum set_rcvd rcvd].
      apply load_Some in Hb as [_ Hb].
      pose proof (count_true_clear _ _ Hb). lia.
    + exists r', (copy20 (payload p) :: ds). rewrite E, <- app_assoc.
      split; [reflexivity|]. split; [exact Hwf|]. split; [exact Hnext|].
      intros q _ Hq. exists ds. congruence.
  - exists r, []. rewrite app_nil_r. split; [reflexivity|].
    split; [split; assumption|]. split; [reflexivity|].
    intros q Hq. congruence.
Qed.

Lemma v1_B_input_spec r packet :
  B_wf r -> IsCorrupted packet = true \/ frame_seq_ok packet ->
  exists r' a ds,
    B_input r packet =
    Continue r' (tolayer3 B (B_make_ack (B_nextseqnum r) a) :: map (tolayer5 B) ds) /\
    B_wf r' /\
    B_nextseqnum r' = (B_nextseqnum r + 1) mod SEQSPACE /\
    a = (if IsCorrupted packet || negb (inWindow r packet)
         then (expectedseqnum r - 1) mod SEQSPACE else seqnum packet) /\
    (IsCorrupted packet = false -> a = seqnum packet) /\
    (IsCorrupted packet || negb (inWindow r packet) = true ->
     ds = [] /\ r' = set_B_nextseqnum r (B_nextseqnum r')) /\
    (IsCorrupted packet = false -> seqnum packet = expectedseqnum r ->
     exists rest, ds = copy20 (payload packet) :: rest).
Proof.
  intros [Hr Hhead] Hpacket.
  pose proof (shape_expected r Hr) as He. pose proof (shape_next r Hr) as Hn.
  destruct (next_in_space (B_nextseqnum r) Hn) as [Hnext Hnext_range].
  assert (B_shape (set_B_nextseqnum r (Z.rem (CInt.add (B_nextseqnum r) 1) SEQSPACE)))
    as Hr1 by (destruct Hr; constructor; assumption).
  unfold B_input. fold (inWindow r packet).
  destruct (IsCorrupted packet || negb (inWindow r packet)) eqn:Hbad.
  - change (Z.rem (CInt.add (CInt.sub (expectedseqnum r) 1) SEQSPACE) SEQSPACE)
      with (mod_distance (expectedseqnum r) 1).
    rewrite mod_distance_mod by (unfold SEQSPACE in *; lia).
    eexists _, _, []. split; [reflexivity|]. split; [split; [exact Hr1|exact Hhead]|].
    split; [exact Hnext|]. split; [reflexivity|]. split; [|split].
    + intros Hc. rewrite Hc in Hbad. cbn [orb] in Hbad.
      destruct Hpacket as [Hp|Hp]; [congruence|].
      apply negb_true_iff in Hbad. unfold inWindow in Hbad.
      change (Z.rem (CInt.add (CInt.sub (seqnum packet) (expectedseqnum r)) SEQSPACE)
                    SEQSPACE)
        with (mod_distance (seqnum packet) (expectedseqnum r)) in Hbad.
      rewrite mod_distance_mod in Hbad by assumption.
      apply Z.ltb_ge in Hbad.
      unfold frame_seq_ok, SEQSPACE, WINDOWSIZE in *. euclid.
    + intros _. split; reflexivity.
    + intros Hc Hseq. exfalso.
      rewrite Hc in Hbad. cbn [orb] in Hbad. apply negb_true_iff in Hbad.
      unfold inWindow in Hbad. rewrite Hseq in Hbad.
      change (Z.rem (CInt.add (CInt.sub (expectedseqnum r) (expectedseqnum r)) SEQSPACE)
                    SEQSPACE)
        with (mod_distance (expectedseqnum r) (expectedseqnum r)) in Hbad.
      rewrite mod_distance_mod in Hbad by assumption.
      apply Z.ltb_ge in Hbad. unfold SEQSPACE, WINDOWSIZE in *. euclid.
  - apply orb_false_iff in Hbad as [Hc Hin].
    destruct Hpacket as [Hp|Hp]; [congruence|].
    pose proof (rem_window (seqnum packet) (proj1 Hp)) as Hidx.
    assert (0 <= Z.rem (seqnum packet) WINDOWSIZE < 6) as Hidx6
        by (unfold WINDOWSIZE in *; lia).
    destruct (load_in_bounds (rcvd r) (Z.rem (seqnum packet) WINDOWSIZE))
      as [b Hb]; [rewrite (shape_rcvd r Hr); lia|].
    rewrite Hb. destruct b.
    + eexists _, _, []. split; [reflexivity|].
      split; [split; [exact Hr1|exact Hhead]|].
      split; [exact Hnext|]. split; [reflexivity|]. split; [reflexivity|].
      split; [discriminate|].
      intros _ Hseq. rewrite Hseq in Hb. congruence.
    + rewrite !store_in_bounds
        by (rewrite ?(shape_rbuffer r Hr), ?(shape_rcvd r Hr); lia).
      set (r1 := set_B_nextseqnum _ _).
      destruct (v1_B_deliver_spec (S (length (rcvd r))) r1
                  [tolayer3 B (B_make_ack (B_nextseqnum r) (seqnum packet))])
        as (r' & ds & E & Hwf & Hnext' & Hfirst).
      * destruct Hr as [? ? Hbuf Hflags]. constructor; try assumption.
        -- cbn. rewrite length_insert. exact Hbuf.
        -- cbn. rewrite length_insert. exact Hflags.
      * cbn [r1 set_B_nextseqnum set_rcvd rcvd].
        pose proof (count_true_le (<[Z.to_nat (Z.rem (seqnum packet) WINDOWSIZE) := true]>
                                     (rcvd r))) as Hle.
        rewrite length_insert in Hle. lia.
      * exists r', (seqnum packet), ds. split; [exact E|]. split; [exact Hwf|].
        split; [rewrite Hnext'; exact Hnext|]. split; [reflexivity|].
        split; [reflexivity|]. split; [discriminate|].
        intros _ Hseq. apply Hfirst.
        -- change (load (<[Z.to_nat (Z.rem (seqnum packet) WINDOWSIZE) := true]> (rcvd r))
                        (Z.rem (expectedseqnum r) WINDOWSIZE) = Some true).
           rewrite <- Hseq. apply load_store_same. rewrite (shape_rcvd r Hr). lia.
        -- change (load (<[Z.to_nat (Z.rem (seqnum packet) WINDOWSIZE) := packet]>
                           (rbuffer r))
                        (Z.rem (expectedseqnum r) WINDOWSIZE) = Some packet).
           rewrite <- Hseq. apply load_store_same. rewrite (shape_rbuffer r Hr). lia.
Qed.

Lemma v1_B_reachable_wf r : B_reachable r -> B_wf r.
Proof.
  induction 1 as [|r packet r' out _ IH Hpacket Hstep]; [exact v1_B_wf_init|].
  destruct (v1_B_input_spec r packet IH Hpacket) as (r1 & a & ds & E & Hwf & _).
  congruence.
Qed.

Lemma v1_B_run_reachable ps : forall r out r' out',
  B_reachable r ->
  Forall (fun packet => IsCorrupted packet = true \/ frame_seq_ok packet) ps ->
  B_run r out ps = Continue r' out' -> B_reachable r'.
Proof.
  induction ps as [|packet ps IH]; intros r out r' out' Hr Hps H; cbn [B_run] in H.
  - injection H as <- _. exact Hr.
  - apply Forall_cons in Hps as [Hp Hps].
    destruct (B_input r packet) as [r1 out1| | |] eqn:E; try discriminate.
    exact (IH _ _ _ _ (B_reachable_step _ _ _ _ Hr Hp E) Hps H).
Qed.

Lemma v1_B_state_after_reachable ps :
  Forall (fun packet => IsCorrupted packet = true \/ frame_seq_ok packet) ps ->
  B_reachable (B_state_after ps).
Proof.
  intros Hps. unfold B_state_after.
  destruct (B_run (B_init receiver_zero) [] ps) as [r out| | |] eqn:E;
    try exact B_reachable_init.
  exact (v1_B_run_reachable ps _ _ _ _ B_reachable_init Hps E).
Qed.

(** X17. Between two arrivals the variables of the first version's
    receiver are in range, its two arrays keep their six entries, and
    the slot of the expected frame is empty. *)
Theorem expected_slot_is_empty (r : receiver) :
  B_reachable r ->
  0 <= expectedseqnum r < SEQSPACE /\ 0 <= B_nextseqnum r < SEQSPACE /\
  length (rbuffer r) = 6%nat /\ length (rcvd r) = 6%nat /\
  load (rcvd r) (Z.rem (expectedseqnum r) WINDOWSIZE) = Some false.
Proof.
  intros Hr. destruct (v1_B_reachable_wf r Hr) as [[He Hn Hbuf Hflags] Hhead].
  repeat split; assumption || apply He || apply Hn.
Qed.

Lemma expected_slot_is_empty_witness :
  B_reachable (B_state_after [A_make_pkt 1 (Scenario.m "b"); A_make_pkt 0 (Scenario.m "a")]) /\
  load (rcvd (B_state_after [A_make_pkt 1 (Scenario.m "b"); A_make_pkt 0 (Scenario.m "a")]))
       (Z.rem (expectedseqnum
                 (B_state_after [A_make_pkt 1 (Scenario.m "b");
                                 A_make_pkt 0 (Scenario.m "a")])) WINDOWSIZE) = Some false.
Proof.
  assert (Forall (fun packet => IsCorrupted packet = true \/ frame_seq_ok packet)
                 [A_make_pkt 1 (Scenario.m "b"); A_make_pkt 0 (Scenario.m "a")]) as Hok.
  { apply Forall_cons; split; [right; unfold frame_seq_ok, SEQSPACE;
      cbn [seqnum A_make_pkt set_checksum]; lia|].
    apply Forall_cons; split; [right; unfold frame_seq_ok, SEQSPACE;
      cbn [seqnum A_make_pkt set_checksum]; lia|].
    constructor. }
  split; [exact (v1_B_state_after_reachable _ Hok)|].
  apply (expected_slot_is_empty _ (v1_B_state_after_reachable _ Hok)).
Defined.

(** X18. [B_input] of the first version answers every packet, damaged
    or carrying a sequence number of the sequence space, with exactly
    one acknowledgment packet, sent before anything is delivered: it
    carries the receiver's own counter [B_nextseqnum], which advances
    modulo SEQSPACE, and a valid checksum.  An intact packet is
    acknowledged under its own sequence number, inside the window or
    not; a damaged one under the number before [expectedseqnum].  A
    packet that is damaged or outside the window is not delivered and
    changes no other variable. *)
Theorem every_packet_answered (r : receiver) (packet : pkt) :
  B_reachable r ->
  IsCorrupted packet = true \/ frame_seq_ok packet ->
  exists r' a ds,
    B_input r packet =
    Continue r' (tolayer3 B (B_make_ack (B_nextseqnum r) a) :: map (tolayer5 B) ds) /\
    IsCorrupted (B_make_ack (B_nextseqnum r) a) = false /\
    B_nextseqnum r' = (B_nextseqnum r + 1) mod SEQSPACE /\
    a = (if IsCorrupted packet || negb (inWindow r packet)
         then (expectedseqnum r - 1) mod SEQSPACE else seqnum packet) /\
    (IsCorrupted packet = false -> a = seqnum packet) /\
    (IsCorrupted packet || negb (inWindow r packet) = true ->
     ds = [] /\ r' = set_B_nextseqnum r (B_nextseqnum r')).
Proof.
  intros Hr Hpacket.
  destruct (v1_B_input_spec r packet (v1_B_reachable_wf r Hr) Hpacket)
    as (r' & a & ds & E & _ & Hnext & Ha & Hown & Hbad & _).
  exists r', a, ds. split; [exact E|].
  split; [apply B_make_ack_uncorrupted|]. split; [exact Hnext|].
  split; [exact Ha|]. split; [exact Hown|exact Hbad].
Qed.

Lemma every_packet_answered_witness :
  B_reachable (B_init receiver_zero) /\
  (IsCorrupted (A_make_pkt 6 (Scenario.m "a")) = true \/
   frame_seq_ok (A_make_pkt 6 (Scenario.m "a"))) /\
  exists r' a ds,
    B_input (B_init receiver_zero) (A_make_pkt 6 (Scenario.m "a")) =
    Continue r' (tolayer3 B (B_make_ack 1 a) :: map (tolayer5 B) ds) /\
    a = 6 /\ ds = [].
Proof.
  assert (frame_seq_ok (A_make_pkt 6 (Scenario.m "a"))) as Hok
      by (unfold frame_seq_ok, SEQSPACE; cbn [seqnum A_make_pkt set_checksum]; lia).
  split; [exact B_reachable_init|]. split; [right; exact Hok|].
  destruct (every_packet_answered (B_init receiver_zero) (A_make_pkt 6 (Scenario.m "a"))
              B_reachable_init (or_intror Hok))
    as (r' & a & ds & E & _ & _ & Ha & _ & Hbad).
  exists r', a, ds. split; [exact E|]. split; [exact Ha|].
  apply Hbad. reflexivity.
Defined.

(** X19. In the first version an intact packet that carries
    [expectedseqnum] is always new: its payload is handed to the
    application in the same call, right after the acknowledgment and
    before anything the loop delivers with it. *)
Theorem expected_frame_delivered_at_once (r : receiver) (packet : pkt) :
  B_reachable r ->
  IsCorrupted packet = false -> seqnum packet = expectedseqnum r ->
  exists r' rest,
    B_input r packet =
    Continue r' (tolayer3 B (B_make_ack (B_nextseqnum r) (seqnum packet)) ::
                 tolayer5 B (copy20 (payload packet)) :: map (tolayer5 B) rest).
Proof.
  intros Hr Hc Hseq. pose proof (v1_B_reachable_wf r Hr) as Hwf.
  assert (frame_seq_ok packet) as Hok.
  { unfold frame_seq_ok. rewrite Hseq. exact (shape_expected r (proj1 Hwf)). }
  destruct (v1_B_input_spec r packet Hwf (or_intror Hok))
    as (r' & a & ds & E & _ & _ & _ & Hown & _ & Hfirst).
  destruct (Hfirst Hc Hseq) as (rest & ->).
  exists r', rest. rewrite E, (Hown Hc). reflexivity.
Qed.

Lemma expected_frame_delivered_at_once_witness :
  B_reachable (B_state_after [A_make_pkt 1 (Scenario.m "b")]) /\
  IsCorrupted (A_make_pkt 0 (Scenario.m "a")) = false /\
  seqnum (A_make_pkt 0 (Scenario.m "a")) =
  expectedseqnum (B_state_after [A_make_pkt 1 (Scenario.m "b")]) /\
  exists r' rest,
    B_input (B_state_after [A_make_pkt 1 (Scenario.m "b")]) (A_make_pkt 0 (Scenario.m "a")) =
    Continue r' (tolayer3 B (B_make_ack
                               (B_nextseqnum (B_state_after [A_make_pkt 1 (Scenario.m "b")]))
                               (seqnum (A_make_pkt 0 (Scenario.m "a")))) ::
                 tolayer5 B (copy20 (payload (A_make_pkt 0 (Scenario.m "a")))) ::
                 map (tolayer5 B) rest).
Proof.
  assert (Forall (fun packet => IsCorrupted packet = true \/ frame_seq_ok packet)
                 [A_make_pkt 1 (Scenario.m "b")]) as Hok.
  { apply Forall_cons; split; [right; unfold frame_seq_ok, SEQSPACE;
      cbn [seqnum A_make_pkt set_checksum]; lia|].
    constructor. }
  split; [exact (v1_B_state_after_reachable _ Hok)|]. split; [reflexivity|].
  split; [reflexivity|].
  apply (expected_frame_delivered_at_once
           (B_state_after [A_make_pkt 1 (Scenario.m "b")])
           (A_make_pkt 0 (Scenario.m "a"))
           (v1_B_state_after_reachable _ Hok)); reflexivity.
Defined.

End GBN_facts.
